(** * Excel -> CiliumNetworkPolicy converter: a shallow embedding

    The scripts [convert.js] and [converter_03_07_2025.js] read a table of
    connection rules and assemble CiliumNetworkPolicy documents.  This file
    embeds their pure core (cell classification, label parsing, rule
    translation, row extraction, validation, policy assembly, baseline
    rewriting) and proves properties of it.  Of the two other scripts
    kept in [src/unnamed/part_001] it embeds [makeRule] of the first and
    [makeRule] and [buildPolicy] of the second.

    JavaScript strings are sequences of UTF-16 code units; a code unit is
    a number [N].  JavaScript plain objects are ordered property lists. *)

From Stdlib Require Import List NArith ZArith Bool Lia String Ascii Permutation.
From Stdlib Require Import Sorted.
From Stdlib Require Import Numbers.DecimalString.
From Stdlib Require Numbers.DecimalPos.
Import ListNotations.

Set Implicit Arguments.
Unset Strict Implicit.

Open Scope N_scope.
Open Scope list_scope.

(* ================================================================== *)
(** ** JavaScript strings *)

Module JS.

Definition code_unit := N.
Definition jsstring := list code_unit.

(** A string literal of the source, as code units. *)
Definition lit (s : string) : jsstring :=
  map N_of_ascii (list_ascii_of_string s).

Definition str_eqb (a b : jsstring) : bool :=
  if list_eq_dec N.eq_dec a b then true else false.

Definition ch_LF : code_unit := 10.
Definition ch_CR : code_unit := 13.
Definition ch_quote : code_unit := 34.
Definition ch_comma : code_unit := 44.
Definition ch_dot : code_unit := 46.
Definition ch_slash : code_unit := 47.
Definition ch_colon : code_unit := 58.
Definition ch_pipe : code_unit := 124.

(** [WhiteSpace] and [LineTerminator] of ECMAScript: what [trim] strips. *)
Definition isWhiteSpace (c : code_unit) : bool :=
  (9 <=? c) && (c <=? 13)
  || (c =? 32) || (c =? 160) || (c =? 5760)
  || (8192 <=? c) && (c <=? 8202)
  || (c =? 8232) || (c =? 8233) || (c =? 8239) || (c =? 8287)
  || (c =? 12288) || (c =? 65279).

Fixpoint trimStart (s : jsstring) : jsstring :=
  match s with
  | c :: s' => if isWhiteSpace c then trimStart s' else s
  | [] => []
  end.

Definition trimEnd (s : jsstring) : jsstring := rev (trimStart (rev s)).

(** [String.prototype.trim] *)
Definition trim (s : jsstring) : jsstring := trimEnd (trimStart s).

(** [s.includes(c)] for a one-character needle. *)
Definition includes (c : code_unit) (s : jsstring) : bool := existsb (N.eqb c) s.

(** [s.startsWith(p)] *)
Fixpoint startsWith (p s : jsstring) : bool :=
  match p, s with
  | [], _ => true
  | a :: p', b :: s' => (a =? b) && startsWith p' s'
  | _ :: _, [] => false
  end.

(** [s.split(c)] for a one-character separator: every occurrence cuts. *)
Fixpoint splitChar (c : code_unit) (s : jsstring) : list jsstring :=
  match s with
  | [] => [[]]
  | x :: s' =>
      if x =? c then [] :: splitChar c s'
      else match splitChar c s' with
           | f :: fs => (x :: f) :: fs
           | [] => [[x]]
           end
  end.

(** [s.split(/[...]+/)] for a character class [sep]: a maximal run of
    separators cuts once.  [prev] tells that the previous code unit was a
    separator of the run being skipped.  A separator run at the start or
    the end leaves an empty first or last field, and the empty string
    splits into one empty field, as in JavaScript. *)
Fixpoint splitRuns (sep : code_unit -> bool) (prev : bool) (s : jsstring)
  : list jsstring :=
  match s with
  | [] => [[]]
  | x :: s' =>
      if sep x then
        if prev then splitRuns sep true s' else [] :: splitRuns sep true s'
      else match splitRuns sep false s' with
           | f :: fs => (x :: f) :: fs
           | [] => [[x]]
           end
  end.

Definition splitClass (sep : code_unit -> bool) (s : jsstring) : list jsstring :=
  splitRuns sep false s.

(** [a.join(sep)] *)
Fixpoint join (sep : jsstring) (l : list jsstring) : jsstring :=
  match l with
  | [] => []
  | [x] => x
  | x :: l' => x ++ sep ++ join sep l'
  end.

(** Truthiness of a string, and of the [length] of an array: not empty.
    [a.filter(Boolean)] keeps the non-empty strings of [a]. *)
Definition nonEmpty (A : Type) (s : list A) : bool :=
  match s with [] => false | _ => true end.
Arguments nonEmpty {A} s.

(** Case conversion, modelled on the Basic Latin letters; other code units
    are left as they are.  [String.prototype.toLowerCase] and
    [toUpperCase] also map the cased letters outside Basic Latin (and
    [toUpperCase] writes U+00DF as [SS]): on strings that hold such
    letters the two definitions are not the JavaScript functions. *)
Definition isUpperAZ (c : code_unit) : bool := (65 <=? c) && (c <=? 90).
Definition isLowerAZ (c : code_unit) : bool := (97 <=? c) && (c <=? 122).
Definition toLowerCase (s : jsstring) : jsstring :=
  map (fun c => if isUpperAZ c then c + 32 else c) s.
Definition toUpperCase (s : jsstring) : jsstring :=
  map (fun c => if isLowerAZ c then c - 32 else c) s.

(** [String(n)] for an integral number (of magnitude below 10^21, where
    JavaScript writes all the digits). *)
Definition numberToString (z : Z) : jsstring :=
  lit (NilEmpty.string_of_int (Z.to_int z)).

(* ------------------------------------------------------------------ *)
(** *** Regular expressions

    The regular expressions of the source are terms of [regex];
    [matches] and [search] run them by Brzozowski derivatives. *)

Inductive regex : Type :=
| RNone
| REps
| RClass (p : code_unit -> bool)
| RCat (r1 r2 : regex)
| RAlt (r1 r2 : regex)
| RStar (r : regex).

Definition RPlus (r : regex) : regex := RCat r (RStar r).
Definition ROpt (r : regex) : regex := RAlt r REps.
Definition RChar (c : code_unit) : regex := RClass (N.eqb c).
Definition RAny : regex := RClass (fun _ => true).

Fixpoint nullable (r : regex) : bool :=
  match r with
  | RNone => false
  | REps => true
  | RClass _ => false
  | RCat r1 r2 => nullable r1 && nullable r2
  | RAlt r1 r2 => nullable r1 || nullable r2
  | RStar _ => true
  end.

Fixpoint deriv (c : code_unit) (r : regex) : regex :=
  match r with
  | RNone => RNone
  | REps => RNone
  | RClass p => if p c then REps else RNone
  | RCat r1 r2 =>
      if nullable r1 then RAlt (RCat (deriv c r1) r2) (deriv c r2)
      else RCat (deriv c r1) r2
  | RAlt r1 r2 => RAlt (deriv c r1) (deriv c r2)
  | RStar r1 => RCat (deriv c r1) (RStar r1)
  end.

(** [/^r$/.test(s)] *)
Fixpoint matches (r : regex) (s : jsstring) : bool :=
  match s with
  | [] => nullable r
  | c :: s' => matches (deriv c r) s'
  end.

(** [/r/.test(s)]: the pattern occurs somewhere in [s]. *)
Definition search (r : regex) (s : jsstring) : bool :=
  matches (RCat (RStar RAny) (RCat r (RStar RAny))) s.

(** [\d] *)
Definition isDigit (c : code_unit) : bool := (48 <=? c) && (c <=? 57).
(** [[a-zA-Z]] *)
Definition isLetter (c : code_unit) : bool := isUpperAZ c || isLowerAZ c.

Definition re_digits : regex := RPlus (RClass isDigit).

(** [\d+\.\d+\.\d+\.\d+] *)
Definition re_quad : regex :=
  RCat re_digits (RCat (RChar ch_dot)
  (RCat re_digits (RCat (RChar ch_dot)
  (RCat re_digits (RCat (RChar ch_dot) re_digits))))).

(** [\d+\.\d+\.\d+\.\d+\/\d+] *)
Definition re_quad_prefix : regex :=
  RCat re_quad (RCat (RChar ch_slash) re_digits).

(** [\d+\.\d+\.\d+\.\d+(?:\/\d+)?] *)
Definition re_quad_opt_prefix : regex :=
  RCat re_quad (ROpt (RCat (RChar ch_slash) re_digits)).

(* ------------------------------------------------------------------ *)
(** *** Plain objects

    A plain object is the list of its own properties in creation order.
    [Object.keys], [Object.values], [Object.entries] and object spread list
    the array-index keys first, in ascending numeric order, then the other
    keys in creation order. *)

Definition obj (V : Type) := list (jsstring * V).

Definition digitsValue (s : jsstring) : N :=
  fold_left (fun acc c => 10 * acc + (c - 48)) s 0.

(** A canonical numeric string below 2^32 - 1. *)
Definition isArrayIndex (k : jsstring) : bool :=
  match k with
  | [] => false
  | c :: k' =>
      forallb isDigit k
      && ((negb (c =? 48)) || match k' with [] => true | _ => false end)
      && (digitsValue k <? 4294967295)
  end.

Section Objects.
Variable V : Type.

Fixpoint obj_get (k : jsstring) (o : obj V) : option V :=
  match o with
  | [] => None
  | (k', v) :: o' => if str_eqb k k' then Some v else obj_get k o'
  end.

(** Defining an own property: in place when the key exists, else last. *)
Fixpoint obj_put (k : jsstring) (v : V) (o : obj V) : obj V :=
  match o with
  | [] => [(k, v)]
  | (k', v') :: o' =>
      if str_eqb k k' then (k', v) :: o' else (k', v') :: obj_put k v o'
  end.

Fixpoint insertIndexed (x : jsstring * V) (l : obj V) : obj V :=
  match l with
  | [] => [x]
  | y :: l' =>
      if digitsValue (fst x) <=? digitsValue (fst y) then x :: l
      else y :: insertIndexed x l'
  end.

Definition sortIndexed (l : obj V) : obj V :=
  fold_right insertIndexed [] l.

(** [Object.entries(o)] *)
Definition ownEntries (o : obj V) : obj V :=
  sortIndexed (filter (fun kv => isArrayIndex (fst kv)) o)
  ++ filter (fun kv => negb (isArrayIndex (fst kv))) o.

(** [Object.keys(o)] and [Object.values(o)] *)
Definition ownKeys (o : obj V) : list jsstring := map fst (ownEntries o).
Definition ownValues (o : obj V) : list V := map snd (ownEntries o).

(** [{ ...dst, ...src }]: the own properties of [src] defined on [dst]. *)
Definition spreadInto (dst src : obj V) : obj V :=
  fold_left (fun o kv => obj_put (fst kv) (snd kv) o) (ownEntries src) dst.
End Objects.

(** The property names every object created by [{}] inherits from
    [Object.prototype]. *)
Definition protoNames : list jsstring :=
  map lit [ "constructor"; "__defineGetter__"; "__defineSetter__";
            "hasOwnProperty"; "__lookupGetter__"; "__lookupSetter__";
            "isPrototypeOf"; "propertyIsEnumerable"; "toString"; "valueOf";
            "__proto__"; "toLocaleString" ]%string.

Definition isProtoName (k : jsstring) : bool := existsb (str_eqb k) protoNames.

(** [o[k] = v] on an object created by [{}], for a primitive [v]: the
    inherited setter of [__proto__] ignores a primitive, so that key gets
    no own property; every other key is defined (or updated) as own. *)
Definition assign (V : Type) (k : jsstring) (v : V) (o : obj V) : obj V :=
  if str_eqb k (lit "__proto__") then o else obj_put k v o.

End JS.
Import JS.

(* ================================================================== *)
(** ** The data of the scripts *)

(** A cell of the sheet as [sheet_to_json] hands it over: a hole, a text,
    a number (integral here) or a boolean. *)
Inductive cell : Type :=
| CUndef
| CString (s : jsstring)
| CNumber (z : Z)
| CBool (b : bool).

(** JavaScript truthiness of a cell value. *)
Definition truthy (c : cell) : bool :=
  match c with
  | CUndef => false
  | CString s => nonEmpty s
  | CNumber z => negb (z =? 0)%Z
  | CBool b => b
  end.

(** [String(c)] *)
Definition cellString (c : cell) : jsstring :=
  match c with
  | CUndef => lit "undefined"
  | CString s => s
  | CNumber z => numberToString z
  | CBool true => lit "true"
  | CBool false => lit "false"
  end.

(** [String(c || '')] *)
Definition cellText (c : cell) : jsstring :=
  if truthy c then cellString c else [].

(** [row[k]] *)
Definition rowCell (row : list cell) (k : nat) : cell := nth k row CUndef.

(** The entry object built for one table row. *)
Record entry : Type := mkEntry {
  protocol : jsstring;
  sourceLabel : jsstring;
  destLabel : jsstring;
  direction : jsstring;
  port : jsstring;
  rowNum : N
}.

(** One item of [toPorts[0].ports]; [portProtocol] is absent or present. *)
Record portEntry : Type := mkPort {
  portValue : jsstring;
  portProtocol : option jsstring
}.

(** A rule object: each selector key is absent ([None]) or present;
    [toPorts] always holds one block, whose [ports] array is recorded
    here.  The entries of the table never carry a [rules] property, so the
    block has no [rules] key. *)
Record rule : Type := mkRule {
  fromEndpoints : option (list (obj jsstring));
  toEndpoints : option (list (obj jsstring));
  fromFQDNs : option (list jsstring);
  toFQDNs : option (list jsstring);
  fromCIDR : option (list jsstring);
  toCIDR : option (list jsstring);
  toPorts : list portEntry
}.

(** [endpointSelector]: the empty object or [{ matchLabels }]. *)
Inductive selector : Type :=
| SelEmpty
| SelMatchLabels (labels : obj jsstring).

Record policySpec : Type := mkSpec {
  endpointSelector : selector;
  ingress : option (list rule);
  egress : option (list rule)
}.

Record policy : Type := mkPolicy {
  apiVersion : jsstring;
  kind : jsstring;
  metaName : jsstring;
  metaNamespace : jsstring;
  spec : policySpec
}.

(** A value loaded from [default.yaml]. *)
#[local] Unset Elimination Schemes.
Inductive yamlValue : Type :=
| YNull
| YBool (b : bool)
| YNumber (z : Z)
| YString (s : jsstring)
| YSeq (l : list yamlValue)
| YMap (m : list (jsstring * yamlValue)).
#[local] Set Elimination Schemes.

(** What [parseExcel] returns, and what it throws. *)
Record parsed : Type := mkParsed {
  namespace : jsstring;
  groups : obj (list entry);
  entries : list entry;
  missingNums : list N
}.

Inductive exn : Type :=
| NamespaceNotFound
| NamespaceBadFormat
| TypeErrorPush.

(** What [validate] does: it ends the process with status 1 after naming
    the offending rows, or returns after warning about duplicates. *)
Inductive verdict : Type :=
| Exit1 (rows : list N)
| Returned (dups : list (N * N)).

(** [/[\n,]+/] and [/[\r\n,]+/] (also written [/(?:[\r\n]|,)+/]) *)
Definition sepLabels (c : code_unit) : bool := (c =? ch_LF) || (c =? ch_comma).
Definition sepItems (c : code_unit) : bool :=
  (c =? ch_CR) || (c =? ch_LF) || (c =? ch_comma).

(** [/[А-Яа-яЁё]/] *)
Definition isCyrillic (c : code_unit) : bool :=
  (1040 <=? c) && (c <=? 1071) || (1072 <=? c) && (c <=? 1103)
  || (c =? 1025) || (c =? 1105).

(** [splitLabels], the same in every version of the script. *)
Definition labelPair (p : jsstring) : jsstring * jsstring :=
  match splitChar ch_colon p with
  | k :: v => (trim k, trim (join [ch_colon] v))
  | [] => ([], [])
  end.

Definition labelSegments (raw : jsstring) : list jsstring :=
  filter (includes ch_colon) (map trim (splitClass sepLabels raw)).

Definition splitLabels (raw : jsstring) : obj jsstring :=
  fold_left (fun o p => let (k, v) := labelPair p in assign k v o)
            (labelSegments raw) [].

(** The ports block, the same in [convert.js] and
    [converter_03_07_2025.js]. *)
Definition portList (port : jsstring) : list jsstring :=
  filter nonEmpty (map trim (splitClass sepItems port)).

Definition portsArray (protocol port : jsstring) : list portEntry :=
  map (fun pv =>
         mkPort pv
           (if nonEmpty protocol
               && negb (str_eqb (toUpperCase protocol) (lit "ANY"))
            then Some (toUpperCase protocol) else None))
      (portList port).

(** The label object of a [namespace/label:val] cell. *)
Definition namespacedLabels (cell : jsstring) : obj jsstring :=
  match splitChar ch_slash cell with
  | nsPart :: labPart :: _ =>
      spreadInto [(lit "io.kubernetes.pod.namespace", trim nsPart)]
                 (splitLabels labPart)
  | _ => []
  end.

Definition isIngress (e : entry) : bool := str_eqb (direction e) (lit "ingress").

(** [buildPolicy], the same in [convert.js] and [converter_03_07_2025.js]
    but for the [makeRule] it calls; [routeRule] is one turn of
    [ents.forEach]. *)
Section Assembly.
Variable makeRule : entry -> rule.

Definition routeRule (st : list rule * list rule) (e : entry)
  : list rule * list rule :=
  let (ingress, egress) := st in
  let rule := makeRule e in
  if isIngress e then (ingress ++ [rule], egress)
  else (ingress, egress ++ [rule]).

Definition buildPolicyWith (ns groupKey : jsstring) (ents : list entry)
  : policy :=
  let labels := splitLabels groupKey in
  let values := ownValues labels in
  let suffix := if nonEmpty values then join (lit "-") values
                else lit "default" in
  let name := ns ++ lit "-" ++ suffix in
  let sel := if nonEmpty (ownKeys labels) then SelMatchLabels labels
             else SelEmpty in
  let (ingress, egress) := fold_left routeRule ents ([], []) in
  mkPolicy (lit "cilium.io/v2") (lit "CiliumNetworkPolicy") name ns
    (mkSpec sel
       (if nonEmpty ingress then Some ingress else None)
       (if nonEmpty egress then Some egress else None)).
End Assembly.

(** The cell that selects the peer of a rule. *)
Definition selectorCell (e : entry) : jsstring :=
  if isIngress e then sourceLabel e else destLabel e.

(* ================================================================== *)
(** ** [convert.js] *)

Module Convert.

(** [detectType] (not called by this version's [makeRule]). *)
Inductive detected : Type :=
| Cidr (v : jsstring)
| Fqdn (v : jsstring)
| Label (v : jsstring).

Definition detectType (v0 : jsstring) : detected :=
  let v := trim v0 in
  if matches re_quad_prefix v then Cidr v
  else if matches re_quad v then Cidr (v ++ lit "/32")
  else if includes ch_dot v && negb (includes ch_colon v)
       then Fqdn (toLowerCase v)
  else Label v.

(** [s.trim().replace(/^"|"$/g, '')] *)
Definition stripQuotes (s : jsstring) : jsstring :=
  let s1 := match s with
            | c :: s' => if c =? ch_quote then s' else s
            | [] => []
            end in
  match rev s1 with
  | c :: r => if c =? ch_quote then rev r else s1
  | [] => []
  end.

Definition cidrList (cell : jsstring) : list jsstring :=
  map (fun ip => if includes ch_slash ip then ip else ip ++ lit "/32")
      (filter nonEmpty
         (map (fun s => stripQuotes (trim s)) (splitClass sepItems cell))).

(** The [if (cell) ...] cascade: the label object and the CIDR array. *)
Definition readCell (cell : jsstring) : obj jsstring * list jsstring :=
  if nonEmpty cell then
    if search re_quad cell then ([], cidrList cell)
    else if includes ch_slash cell
            && negb (startsWith (lit "app.kubernetes.io/") cell)
         then (namespacedLabels cell, [])
    else (splitLabels cell, [])
  else ([], []).

Definition makeRule (e : entry) : rule :=
  let (labels, cidrs) := readCell (selectorCell e) in
  let endpoints :=
    if nonEmpty (ownKeys labels) then Some [labels] else None in
  let cidr := if nonEmpty cidrs then Some cidrs else None in
  let ps := portsArray (protocol e) (port e) in
  if isIngress e
  then mkRule endpoints None None None cidr None ps
  else mkRule None endpoints None None None cidr ps.

(** [row.slice(1,6).some(c => c && String(c).trim())] *)
Definition hasData (row : list cell) : bool :=
  existsb (fun c => truthy c && nonEmpty (trim (cellString c)))
          (firstn 5 (skipn 1 row)).

(** The entry of a row with data, at index [i] of the sheet. *)
Definition rowEntry (i : N) (row : list cell) : entry :=
  let protocol := trim (cellText (rowCell row 1)) in
  let groupKey := trim (cellText (rowCell row 2)) in
  let direction := trim (toLowerCase (cellText (rowCell row 3))) in
  let other := trim (cellText (rowCell row 4)) in
  let port := trim (cellText (rowCell row 5)) in
  if str_eqb direction (lit "ingress")
  then mkEntry protocol other groupKey direction port (i + 1)
  else mkEntry protocol groupKey other direction port (i + 1).

Definition rowGroupKey (row : list cell) : jsstring :=
  trim (cellText (rowCell row 2)).

(** [(groups[groupKey] ||= []).push(entry)]: an own array gets the entry;
    a key that [groups] inherits from [Object.prototype] yields a value
    without [push], and the call throws; any other key gets a new array. *)
Definition pushGroup (k : jsstring) (e : entry) (g : obj (list entry))
  : option (obj (list entry)) :=
  match obj_get k g with
  | Some l => Some (obj_put k (l ++ [e]) g)
  | None => if isProtoName k then None else Some (obj_put k [e] g)
  end.

(** The loop [for (let i = 2; i < rows.length; i++)], from index [i] on,
    over the rows not yet visited. *)
Fixpoint extractRows (i : N) (rows : list (list cell)) (st : parsed)
  : exn + parsed :=
  match rows with
  | [] => inr st
  | row :: rest =>
      let missing :=
        if hasData row && negb (truthy (rowCell row 0))
        then missingNums st ++ [i + 1] else missingNums st in
      if negb (hasData row)
      then extractRows (i + 1) rest
             (mkParsed (namespace st) (groups st) (entries st) missing)
      else
        let e := rowEntry i row in
        match pushGroup (rowGroupKey row) e (groups st) with
        | None => inl TypeErrorPush
        | Some g =>
            extractRows (i + 1) rest
              (mkParsed (namespace st) g (entries st ++ [e]) missing)
        end
  end.

(** The header of row 2: the checks and the namespace read from it. *)
Definition parseNamespace (rows : list (list cell)) : exn + jsstring :=
  match nth_error rows 1 with
  | None => inl NamespaceNotFound
  | Some r1 =>
      if negb (truthy (rowCell r1 0)) then inl NamespaceNotFound
      else
        let nsRaw := trim (cellString (rowCell r1 0)) in
        if negb (includes ch_colon nsRaw) then inl NamespaceBadFormat
        else inr (trim (join [ch_colon] (tl (splitChar ch_colon nsRaw))))
  end.

Definition parseExcel (rows : list (list cell)) : exn + parsed :=
  match parseNamespace rows with
  | inl x => inl x
  | inr ns => extractRows 2 (skipn 2 rows) (mkParsed ns [] [] [])
  end.

(** [validate] *)
Definition entryText (e : entry) : jsstring :=
  sourceLabel e ++ destLabel e ++ protocol e ++ direction e ++ port e.

Definition hasCyrillic (e : entry) : bool :=
  search (RClass isCyrillic) (entryText e).

Definition signatureKey (e : entry) : jsstring :=
  join [ch_pipe]
    [ direction e; sourceLabel e; destLabel e; port e;
      toUpperCase (if nonEmpty (protocol e) then protocol e else lit "ANY") ].

(** One turn of [entries.forEach]: [seen] maps a key to a row number,
    and a stored number counts as seen when it is truthy. *)
Definition dupStep (st : obj N * list (N * N)) (e : entry)
  : obj N * list (N * N) :=
  let (seen, dups) := st in
  let key := signatureKey e in
  match obj_get key seen with
  | Some a => if a =? 0 then (assign key (rowNum e) seen, dups)
              else (seen, dups ++ [(a, rowNum e)])
  | None => (assign key (rowNum e) seen, dups)
  end.

Definition duplicates (entries : list entry) : list (N * N) :=
  snd (fold_left dupStep entries ([], [])).

Definition validate (entries : list entry) : verdict :=
  let bad := filter hasCyrillic entries in
  if nonEmpty bad then Exit1 (map rowNum bad)
  else Returned (duplicates entries).

(** [buildPolicy] *)
Definition buildPolicy : jsstring -> jsstring -> list entry -> policy :=
  buildPolicyWith makeRule.

(** [defaultDocs.map(doc => ({ ...doc, metadata: { name, namespace } }))] *)
Definition rewriteDefault (ns : jsstring) (doc : obj yamlValue) : obj yamlValue :=
  obj_put (lit "metadata")
    (YMap [ (lit "name", YString (ns ++ lit "-default"));
            (lit "namespace", YString ns) ])
    (spreadInto [] doc).

Definition defaultPolicies (ns : jsstring) (docs : list (obj yamlValue))
  : list (obj yamlValue) :=
  map (rewriteDefault ns) docs.

(** One of [DEFAULT_RULES]: the direction, port and protocol of a rule of
    the baseline, as the script keeps them after loading [default.yaml]. *)
Record baselineRule : Type := mkBaseline {
  bDirection : jsstring;
  bPort : jsstring;
  bProtocol : jsstring
}.

(** The test of [entries.some(...)] in the computation of [hasAll]. *)
Definition covers (cfg : baselineRule) (e : entry) : bool :=
  str_eqb (direction e) (bDirection cfg)
  && str_eqb (port e) (bPort cfg)
  && (str_eqb (bProtocol cfg) (lit "ANY")
      || str_eqb (toUpperCase (protocol e)) (bProtocol cfg)).

Definition hasAll (DEFAULT_RULES : list baselineRule) (entries : list entry)
  : bool :=
  forallb (fun cfg => existsb (covers cfg) entries) DEFAULT_RULES.

(** [/\.xlsx$/i.test(file)] *)
Definition eitherCase (lower upper : code_unit) : regex :=
  RClass (fun c => (c =? lower) || (c =? upper)).

Definition re_xlsx : regex :=
  RCat (RChar ch_dot)
    (RCat (eitherCase 120 88) (RCat (eitherCase 108 76)
       (RCat (eitherCase 115 83) (eitherCase 120 88)))).

Definition isXlsx (file : jsstring) : bool :=
  matches (RCat (RStar RAny) re_xlsx) file.

(** What [main] reads from outside: [fs.existsSync] and the rows of the
    first sheet of a workbook. *)
Record world : Type := mkWorld {
  existsSync : jsstring -> bool;
  readSheet : jsstring -> list (list cell)
}.

(** A document handed to [yaml.dump]. *)
Inductive document : Type :=
| Baseline (doc : obj yamlValue)
| Generated (p : policy).

(** How a run of [main] ends: [process.exit(1)] after a message, an
    exception thrown by [parseExcel], or a normal end (status 0) that
    reports the coverage message and the duplicate warnings and has written
    the output file or not. *)
Inductive failure : Type :=
| BadArgument
| FileNotFound
| MissingNumbers (rows : list N)
| ForbiddenCharacters (rows : list N).

Inductive outcome : Type :=
| ExitError (why : failure)
| Threw (x : exn)
| Done (coverage : bool) (warnings : list (N * N))
       (written : option (jsstring * list document)).

(** [excelPolicies] and [allDocs] before [yaml.dump]. *)
Definition excelPolicies (res : parsed) : list policy :=
  map (fun kv => buildPolicy (namespace res) (fst kv) (snd kv))
      (ownEntries (groups res)).

Definition allDocs (defaultDocs : list (obj yamlValue)) (res : parsed)
  : list document :=
  map Baseline (defaultPolicies (namespace res) defaultDocs)
  ++ map Generated (excelPolicies res).

(** [main], for the command-line argument [file] and the line [answer]
    typed at the overwrite prompt (read only when the prompt is shown). *)
Definition main (DEFAULT_RULES : list baselineRule)
    (defaultDocs : list (obj yamlValue)) (w : world)
    (file : option jsstring) (answer : jsstring) : outcome :=
  match file with
  | None => ExitError BadArgument
  | Some f =>
      if negb (nonEmpty f) || negb (isXlsx f) then ExitError BadArgument
      else if negb (existsSync w f) then ExitError FileNotFound
      else
        match parseExcel (readSheet w f) with
        | inl x => Threw x
        | inr res =>
            if nonEmpty (missingNums res)
            then ExitError (MissingNumbers (missingNums res))
            else
              match validate (entries res) with
              | Exit1 bad => ExitError (ForbiddenCharacters bad)
              | Returned dups =>
                  let cov := hasAll DEFAULT_RULES (entries res) in
                  let out := namespace res ++ lit ".yaml" in
                  if existsSync w out then
                    if startsWith (lit "y") (toLowerCase answer)
                    then Done cov dups (Some (out, allDocs defaultDocs res))
                    else Done cov dups None
                  else Done cov dups (Some (out, allDocs defaultDocs res))
              end
        end
  end.

End Convert.

(* ================================================================== *)
(** ** [converter_03_07_2025.js] *)

Module Converter0307.

Inductive detected : Type :=
| Empty
| CidrList (items : list jsstring)
| Cidr (v : jsstring)
| Fqdn (v : jsstring)
| Label (v : jsstring).

(** [v.split(/[\r\n,]+/).map(s => s.trim()).filter(Boolean)] *)
Definition items (v : jsstring) : list jsstring :=
  filter nonEmpty (map trim (splitClass sepItems v)).

Definition detectType (v0 : jsstring) : detected :=
  let v := trim v0 in
  if negb (nonEmpty v) then Empty
  else
    let allIPs := forallb (matches re_quad_opt_prefix) (items v) in
    if allIPs && (1 <? List.length (items v))%nat
    then CidrList (map (fun it => if includes ch_slash it then it
                                  else it ++ lit "/32") (items v))
    else if matches re_quad_prefix v then Cidr v
    else if matches re_quad v then Cidr (v ++ lit "/32")
    else if search (RClass isLetter) v && includes ch_dot v
         then Fqdn (toLowerCase v)
    else Label v.

Definition cellLabels (cell : jsstring) : obj jsstring :=
  if includes ch_slash cell
     && negb (startsWith (lit "app.kubernetes.io/") cell)
  then namespacedLabels cell
  else splitLabels cell.

Definition makeRule (e : entry) : rule :=
  let cell := selectorCell e in
  let det := if nonEmpty cell then Some (detectType cell) else None in
  let fqdns := match det with Some (Fqdn v) => Some [v] | _ => None end in
  let cidr := match det with
              | Some (CidrList l) => Some l
              | Some (Cidr v) => Some [v]
              | _ => None
              end in
  let labels := match det with
                | Some (Label _) | Some Empty => cellLabels cell
                | _ => []
                end in
  let endpoints :=
    if nonEmpty (ownKeys labels) then Some [labels] else None in
  let ps := portsArray (protocol e) (port e) in
  if isIngress e
  then mkRule endpoints None fqdns None cidr None ps
  else mkRule None endpoints None fqdns None cidr ps.

Definition buildPolicy : jsstring -> jsstring -> list entry -> policy :=
  buildPolicyWith makeRule.

(** [parseExcel] of this version reads a row through
    [row.map(c => String(c||'').trim())] and a destructuring: a field of
    the entry is [undefined] ([None]) where the row has a hole or ends
    early, and [dirRaw.toLowerCase()] throws when the direction is. *)
Record rawEntry : Type := mkRaw {
  rProtocol : option jsstring;
  rSourceLabel : option jsstring;
  rDestLabel : option jsstring;
  rDirection : jsstring;
  rPort : option jsstring;
  rRowNum : N
}.

Record rawParsed : Type := mkRawParsed {
  rNamespace : jsstring;
  rGroups : obj (list rawEntry);
  rEntries : list rawEntry;
  rMissingNums : list N
}.

Inductive thrown : Type :=
| BadNamespace
| DirectionUndefined
| PushNotFunction.

(** Element [k] of [row.map(c => String(c||'').trim())], destructured. *)
Definition rowField (row : list cell) (k : nat) : option jsstring :=
  match nth_error row k with
  | None | Some CUndef => None
  | Some c => Some (trim (cellText c))
  end.

(** The property key a group key stands for: [undefined] names the
    property [undefined]. *)
Definition propertyKey (k : option jsstring) : jsstring :=
  match k with Some s => s | None => lit "undefined" end.

Definition hasData (row : list cell) : bool :=
  existsb (fun c => truthy c && nonEmpty (trim (cellString c)))
          (firstn 5 (skipn 1 row)).

Definition pushGroup (k : jsstring) (e : rawEntry) (g : obj (list rawEntry))
  : option (obj (list rawEntry)) :=
  match obj_get k g with
  | Some l => Some (obj_put k (l ++ [e]) g)
  | None => if isProtoName k then None else Some (obj_put k [e] g)
  end.

Fixpoint extractRows (i : N) (rows : list (list cell)) (st : rawParsed)
  : thrown + rawParsed :=
  match rows with
  | [] => inr st
  | row :: rest =>
      let missing :=
        if hasData row && negb (truthy (rowCell row 0))
        then rMissingNums st ++ [i + 1] else rMissingNums st in
      if negb (hasData row)
      then extractRows (i + 1) rest
             (mkRawParsed (rNamespace st) (rGroups st) (rEntries st) missing)
      else
        match rowField row 3 with
        | None => inl DirectionUndefined
        | Some dirRaw =>
            let proto := rowField row 1 in
            let groupKey := rowField row 2 in
            let other := rowField row 4 in
            let port := rowField row 5 in
            let direction := toLowerCase dirRaw in
            let e :=
              if str_eqb direction (lit "ingress")
              then mkRaw proto other groupKey direction port (i + 1)
              else mkRaw proto groupKey other direction port (i + 1) in
            match pushGroup (propertyKey groupKey) e (rGroups st) with
            | None => inl PushNotFunction
            | Some g =>
                extractRows (i + 1) rest
                  (mkRawParsed (rNamespace st) g (rEntries st ++ [e]) missing)
            end
        end
  end.

Definition parseExcel (rows : list (list cell)) : thrown + rawParsed :=
  let nsRaw :=
    trim (cellText (match nth_error rows 1 with
                    | Some r1 => rowCell r1 0
                    | None => CUndef
                    end)) in
  if negb (includes ch_colon nsRaw) then inl BadNamespace
  else
    extractRows 2 (skipn 2 rows)
      (mkRawParsed (trim (join [ch_colon] (tl (splitChar ch_colon nsRaw))))
                   [] [] []).

(** [makeRule] on an entry as [parseExcel] builds it: an [undefined]
    label or protocol is falsy like the empty string ([if (cell)],
    [protocol && ...]), and [String(port)] of an [undefined] port is the
    text [undefined]. *)
Definition asEntry (e : rawEntry) : entry :=
  let text o := match o with Some s => s | None => [] end in
  mkEntry (text (rProtocol e)) (text (rSourceLabel e)) (text (rDestLabel e))
          (rDirection e)
          (match rPort e with Some s => s | None => lit "undefined" end)
          (rRowNum e).

Definition makeRuleRaw (e : rawEntry) : rule := makeRule (asEntry e).

End Converter0307.

(* ================================================================== *)
(** ** [src/unnamed/part_001], first script (lines 1-199) *)

Module Part001a.

(** The entry [parseExcel] of this script builds (lines 86-93).  It
    carries no [labels] and no [rules] property, so [makeRule] always
    reads the selector from a cell and the ports block has no [rules]
    key. *)
Record entry : Type := mkEntry {
  protocol : jsstring;
  source : jsstring;
  direction : jsstring;
  destination : jsstring;
  port : jsstring;
  rowNum : N
}.

(** [detectType] (line 43): no case for a bare address. *)
Inductive detected : Type :=
| Cidr (v : jsstring)
| Fqdn (v : jsstring)
| Label (v : jsstring).

Definition detectType (v0 : jsstring) : detected :=
  let v := trim v0 in
  if matches re_quad_prefix v then Cidr v
  else if includes ch_dot v && negb (includes ch_colon v)
       then Fqdn (toLowerCase v)
  else Label v.

(** A rule object of this script has exactly two keys: the selector key
    [<prefix>Endpoints], [<prefix>FQDNs] or [<prefix>CIDRSet], which holds
    an array of one object, and [toPorts], which holds one block whose
    [ports] array is recorded here. *)
Inductive selected : Type :=
| Endpoints (matchLabels : obj jsstring)
| FQDNs (matchName : jsstring)
| CIDRSet (cidr : jsstring).

Record rule : Type := mkRule {
  prefix : jsstring;
  selection : selected;
  toPorts : list portEntry
}.

(** [makeRule] (lines 44-67) *)
Definition makeRule (e : entry) : rule :=
  let ingress := str_eqb (direction e) (lit "ingress") in
  let key := if ingress then source e else destination e in
  let prefix := if ingress then lit "from" else lit "to" in
  let obj := match detectType key with
             | Label v => Endpoints (splitLabels v)
             | Fqdn v => FQDNs v
             | Cidr v => CIDRSet v
             end in
  let pItem :=
    mkPort (port e)
      (if nonEmpty (protocol e)
          && negb (str_eqb (toUpperCase (protocol e)) (lit "ANY"))
       then Some (toUpperCase (protocol e)) else None) in
  mkRule prefix obj [pItem].

End Part001a.

(* ================================================================== *)
(** ** [src/unnamed/part_001], second script (lines 201-414) *)

Module Part001b.

(** [detectType] (lines 251-257) has the text of the one in [convert.js];
    [detectType(v)[1]] is the value it returns with the kind. *)
Definition detectType : jsstring -> Convert.detected := Convert.detectType.

Definition detectedValue (d : Convert.detected) : jsstring :=
  match d with
  | Convert.Cidr v | Convert.Fqdn v | Convert.Label v => v
  end.

(** A rule object: each selector key is absent ([None]) or holds an
    array; [toPorts] holds one block, whose [ports] array is recorded. *)
Record rule : Type := mkRule {
  fromEndpoints : option (list (obj jsstring));
  toEndpoints : option (list (obj jsstring));
  fromFQDNs : option (list jsstring);
  toFQDNs : option (list jsstring);
  fromCIDRSet : option (list jsstring);
  toCIDRSet : option (list jsstring);
  toPorts : list portEntry
}.

(** [String(keyField || '').split(/[\n,]+/).map(s => s.trim())
    .filter(Boolean)], and the same for the port cell. *)
Definition keyList (cell : jsstring) : list jsstring :=
  filter nonEmpty (map trim (splitClass sepLabels cell)).

(** [makeRule] (lines 260-308) *)
Definition makeRule (e : entry) : rule :=
  let cell := selectorCell e in
  let labels :=
    if nonEmpty cell && includes ch_slash cell
    then Some (namespacedLabels cell) else None in
  let keys := keyList cell in
  let t0 := detectType (hd [] keys) in
  let endpoints :=
    match labels, t0 with
    | Some l, _ => Some [l]
    | None, Convert.Label _ => Some (map splitLabels keys)
    | None, _ => None
    end in
  let fqdns :=
    match labels, t0 with
    | None, Convert.Fqdn _ => Some keys
    | _, _ => None
    end in
  let cidrs :=
    match labels, t0 with
    | None, Convert.Cidr _ =>
        Some (map (fun v => detectedValue (detectType v)) keys)
    | _, _ => None
    end in
  let ps :=
    map (fun pv =>
           mkPort pv
             (if nonEmpty (protocol e)
                 && negb (str_eqb (toUpperCase (protocol e)) (lit "ANY"))
              then Some (toUpperCase (protocol e)) else None))
        (keyList (port e)) in
  if isIngress e
  then mkRule endpoints None fqdns None cidrs None ps
  else mkRule None endpoints None fqdns None cidrs ps.

Record policySpec : Type := mkSpec {
  endpointSelector : selector;
  ingress : option (list rule);
  egress : option (list rule)
}.

Record policy : Type := mkPolicy {
  apiVersion : jsstring;
  kind : jsstring;
  metaName : jsstring;
  metaNamespace : jsstring;
  spec : policySpec
}.

(** One turn of [ents.forEach] in [buildPolicy]. *)
Definition routeRule (st : list rule * list rule) (e : entry)
  : list rule * list rule :=
  let (ingress, egress) := st in
  let rule := makeRule e in
  if isIngress e then (ingress ++ [rule], egress)
  else (ingress, egress ++ [rule]).

(** [buildPolicy] (lines 365-378): the suffix of the name is
    [Object.values(labels)[0] || 'default']. *)
Definition buildPolicy (ns groupKey : jsstring) (ents : list entry)
  : policy :=
  let labels := splitLabels groupKey in
  let suffix := match ownValues labels with
                | v :: _ => if nonEmpty v then v else lit "default"
                | [] => lit "default"
                end in
  let name := ns ++ lit "-" ++ suffix in
  let sel := if nonEmpty (ownKeys labels) then SelMatchLabels labels
             else SelEmpty in
  let (ingress, egress) := fold_left routeRule ents ([], []) in
  mkPolicy (lit "cilium.io/v2") (lit "CiliumNetworkPolicy") name ns
    (mkSpec sel
       (if nonEmpty ingress then Some ingress else None)
       (if nonEmpty egress then Some egress else None)).

End Part001b.

(* ================================================================== *)
(** ** Vocabulary of the statements *)

(** The language of a regular expression. *)
Inductive lang : regex -> jsstring -> Prop :=
| LEps : lang REps []
| LClass p c : p c = true -> lang (RClass p) [c]
| LCat r1 r2 s1 s2 : lang r1 s1 -> lang r2 s2 -> lang (RCat r1 r2) (s1 ++ s2)
| LAltL r1 r2 s : lang r1 s -> lang (RAlt r1 r2) s
| LAltR r1 r2 s : lang r2 s -> lang (RAlt r1 r2) s
| LStarNil r : lang (RStar r) []
| LStarApp r s1 s2 :
    lang r s1 -> lang (RStar r) s2 -> lang (RStar r) (s1 ++ s2).

(** A non-empty run of decimal digits. *)
Definition Digits (s : jsstring) : Prop :=
  s <> [] /\ forallb isDigit s = true.

(** A dotted quad [a.b.c.d], bare or with a prefix length [/n]. *)
Definition BareQuad (s : jsstring) : Prop :=
  exists a b c d, Digits a /\ Digits b /\ Digits c /\ Digits d /\
    s = a ++ ch_dot :: b ++ ch_dot :: c ++ ch_dot :: d.

Definition PrefixedQuad (s : jsstring) : Prop :=
  exists q n, BareQuad q /\ Digits n /\ s = q ++ ch_slash :: n.

(** The array behind an optional [ingress] or [egress] key. *)
Definition ruleList (o : option (list rule)) : list rule :=
  match o with Some l => l | None => [] end.

Definition ingressOf (p : policy) : list rule := ruleList (ingress (spec p)).
Definition egressOf (p : policy) : list rule := ruleList (egress (spec p)).

Definition notIngress (e : entry) : bool := negb (isIngress e).

(** The signature of a row, as a tuple of its five components. *)
Definition signature (e : entry)
  : jsstring * jsstring * jsstring * jsstring * jsstring :=
  (direction e, sourceLabel e, destLabel e, port e,
   toUpperCase (if nonEmpty (protocol e) then protocol e else lit "ANY")).

(** The duplicate pairs of [es] by key, given the rows [before] them: a
    row is paired with the first row before it that has its key. *)
Definition hasKey (k : jsstring) (f : entry) : bool :=
  str_eqb (Convert.signatureKey f) k.

Fixpoint dupsFrom (before es : list entry) : list (N * N) :=
  match es with
  | [] => []
  | e :: es' =>
      match find (hasKey (Convert.signatureKey e)) before with
      | Some f => (rowNum f, rowNum e) :: dupsFrom (before ++ [e]) es'
      | None => dupsFrom (before ++ [e]) es'
      end
  end.

(** No [|] in the four cells that come before the protocol in the key. *)
Definition pipeFree (e : entry) : Prop :=
  ~ In ch_pipe (direction e) /\ ~ In ch_pipe (sourceLabel e) /\
  ~ In ch_pipe (destLabel e) /\ ~ In ch_pipe (port e).

(** The field [k] of a YAML mapping. *)
Definition yamlField (k : jsstring) (v : yamlValue) : option yamlValue :=
  match v with YMap m => obj_get k m | _ => None end.

(** A property list stands for an object when no key occurs twice. *)
Definition wellFormed (V : Type) (o : obj V) : Prop := NoDup (map fst o).

(** The header cell: column A of row 2, a hole when there is none. *)
Definition headerCell (rows : list (list cell)) : cell :=
  match nth_error rows 1 with
  | Some r1 => rowCell r1 0
  | None => CUndef
  end.

(** The rows from index [i] on, each with its index. *)
Fixpoint indexFrom (i : N) (rows : list (list cell)) : list (N * list cell) :=
  match rows with
  | [] => []
  | r :: rs => (i, r) :: indexFrom (i + 1) rs
  end.

(** The rule rows of a table (index 2 and on) that are not skipped. *)
Definition dataRows (rows : list (list cell)) : list (N * list cell) :=
  filter (fun ir => Convert.hasData (snd ir)) (indexFrom 2 (skipn 2 rows)).

(** The five content cells of a row (protocol, group key, direction,
    counterpart, port). *)
Definition contentCells (row : list cell) : list cell :=
  [rowCell row 1; rowCell row 2; rowCell row 3; rowCell row 4; rowCell row 5].

(** A cell that is empty after trimming: an absent cell, or one whose
    text [String(c)] is empty once trimmed.  The number 0 and [false]
    are not: their texts are [0] and [false]. *)
Definition emptyAfterTrim (c : cell) : Prop :=
  match c with
  | CUndef => True
  | CString _ | CNumber _ | CBool _ => trim (cellString c) = []
  end.

(** A cell without content in the sense of the extraction: an absent
    cell, a string that is empty once trimmed, the number 0, or [false];
    and a row all of whose content cells are such. *)
Definition withoutContent (c : cell) : Prop :=
  match c with
  | CUndef => True
  | CString s => trim s = []
  | CNumber z => z = 0%Z
  | CBool b => b = false
  end.

Definition blankRow (row : list cell) : Prop :=
  Forall withoutContent (contentCells row).

(** The list case of the classifier: more than one item, every item a
    dotted quad, bare or prefixed. *)
Definition QuadList (its : list jsstring) : Prop :=
  (1 < List.length its)%nat /\
  Forall (fun it => BareQuad it \/ PrefixedQuad it) its.

(** A bare address gets [/32]; a prefixed one is kept. *)
Definition Normalized (it out : jsstring) : Prop :=
  (BareQuad it /\ out = it ++ lit "/32") \/ (PrefixedQuad it /\ out = it).

Definition HasLetter (v : jsstring) : Prop :=
  exists c, In c v /\ isLetter c = true.

(** A string with no white space at its ends. *)
Definition noLeadingWs (s : jsstring) : Prop :=
  match s with c :: _ => isWhiteSpace c = false | [] => True end.

Definition Trimmed (s : jsstring) : Prop :=
  noLeadingWs s /\ noLeadingWs (rev s).

(** A label as an operator writes it, [key:value]: no white space around
    the key or the value, no comma or line feed in them, no colon in the
    key, and a key other than [__proto__]. *)
Definition cleanLabel (kv : jsstring * jsstring) : Prop :=
  Trimmed (fst kv) /\ Trimmed (snd kv) /\
  forallb (fun c => negb (sepLabels c)) (fst kv) = true /\
  forallb (fun c => negb (sepLabels c)) (snd kv) = true /\
  ~ In ch_colon (fst kv) /\ fst kv <> lit "__proto__".

Definition writeLabel (kv : jsstring * jsstring) : jsstring :=
  fst kv ++ ch_colon :: snd kv.

(** How many selector keys a rule object has. *)
Definition present (A : Type) (o : option A) : nat :=
  match o with Some _ => 1 | None => 0 end.

Definition selectorCount (r : rule) : nat :=
  (present (fromEndpoints r) + present (toEndpoints r)
   + present (fromFQDNs r) + present (toFQDNs r)
   + present (fromCIDR r) + present (toCIDR r))%nat.

(** The CIDR array of a rule, on either side. *)
Definition cidrOf (r : rule) : list jsstring :=
  match fromCIDR r, toCIDR r with
  | Some l, _ => l
  | None, Some l => l
  | None, None => []
  end.

(** A dotted quad occurs somewhere in the text. *)
Definition ContainsQuad (s : jsstring) : Prop :=
  exists a m b, s = a ++ m ++ b /\ BareQuad m.

(** The group key of an entry: the label cell that is not the peer's. *)
Definition entryGroupKey (e : entry) : jsstring :=
  if isIngress e then destLabel e else sourceLabel e.

(** The entries of a group, in order. *)
Definition groupOf (k : jsstring) (es : list entry) : list entry :=
  filter (fun e => str_eqb (entryGroupKey e) k) es.

(** A property that is absent for the empty list. *)
Definition whenNonEmpty (A : Type) (l : list A) : option (list A) :=
  match l with [] => None | _ => Some l end.

(** The number of entries held by the groups. *)
Definition groupedRows (g : obj (list entry)) : nat :=
  list_sum (map (fun kv => List.length (snd kv)) g).

(** The state the loop of [parseExcel] keeps: the groups are an object
    whose keys are no inherited names, each group holds the entries with
    its key in their order, and the groups hold as many entries as the
    entry list. *)
Definition groupsAgree (g : obj (list entry)) (es : list entry) : Prop :=
  wellFormed g /\
  (forall k, obj_get k g = whenNonEmpty (groupOf k es)) /\
  (forall k, obj_get k g <> None -> isProtoName k = false) /\
  groupedRows g = List.length es.

(** A Cyrillic letter (one of those [validate] looks for) occurs in one
    of the five text fields of the entry. *)
Definition CyrillicIn (e : entry) : Prop :=
  exists c, isCyrillic c = true /\
    (In c (sourceLabel e) \/ In c (destLabel e) \/ In c (protocol e)
     \/ In c (direction e) \/ In c (port e)).

(** The rule fragments a document carries. *)
Definition fragmentsOf (d : Convert.document) : nat :=
  match d with
  | Convert.Generated p =>
      (List.length (ingressOf p) + List.length (egressOf p))%nat
  | Convert.Baseline _ => 0%nat
  end.

(** The metadata every rewritten baseline document gets. *)
Definition defaultMetadata (ns : jsstring) : yamlValue :=
  YMap [ (lit "name", YString (ns ++ lit "-default"));
         (lit "namespace", YString ns) ].

(** [o || ''] for a field of an entry of [converter_03_07_2025.js], and
    the agreement of an entry of [convert.js] with one of that version:
    the same fields, an [undefined] one read as the empty text. *)
Definition orEmpty (o : option jsstring) : jsstring :=
  match o with Some s => s | None => [] end.

Definition sameRow (e : entry) (e' : Converter0307.rawEntry) : Prop :=
  protocol e = orEmpty (Converter0307.rProtocol e') /\
  sourceLabel e = orEmpty (Converter0307.rSourceLabel e') /\
  destLabel e = orEmpty (Converter0307.rDestLabel e') /\
  direction e = Converter0307.rDirection e' /\
  port e = orEmpty (Converter0307.rPort e') /\
  rowNum e = Converter0307.rRowNum e'.

(** An item of a port cell as an operator writes it: not empty, without
    separators, with no white space around it. *)
Definition cleanItem (it : jsstring) : Prop :=
  it <> [] /\ trim it = it /\ forallb (fun c => negb (sepItems c)) it = true.

(* ================================================================== *)
(** ** Properties of the JavaScript primitives *)

Lemma str_eqb_eq (a b : jsstring) : str_eqb a b = true <-> a = b.
Proof.
  unfold str_eqb. destruct (list_eq_dec N.eq_dec a b); split; congruence.
Qed.

Lemma str_eqb_refl (a : jsstring) : str_eqb a a = true.
Proof. now apply str_eqb_eq. Qed.

Lemma str_eqb_neq (a b : jsstring) : str_eqb a b = false <-> a <> b.
Proof.
  unfold str_eqb. destruct (list_eq_dec N.eq_dec a b); split; congruence.
Qed.

Lemma nonEmpty_true (A : Type) (l : list A) : nonEmpty l = true <-> l <> [].
Proof. destruct l; simpl; split; congruence. Qed.

Lemma nonEmpty_false (A : Type) (l : list A) : nonEmpty l = false <-> l = [].
Proof. destruct l; simpl; split; congruence. Qed.

Lemma includes_In (c : code_unit) (s : jsstring) :
  includes c s = true <-> In c s.
Proof.
  unfold includes. rewrite existsb_exists. split.
  - intros [x [Hx Heq]]. apply N.eqb_eq in Heq. now subst.
  - intros H. exists c. split; [assumption | apply N.eqb_refl].
Qed.

Lemma includes_app (c : code_unit) (a b : jsstring) :
  includes c (a ++ b) = includes c a || includes c b.
Proof. unfold includes. apply existsb_app. Qed.

(** *** Objects *)

Section ObjectFacts.
Variable V : Type.
Implicit Types (o : obj V) (k : jsstring) (v : V).

Lemma obj_get_put_same o k v : obj_get k (obj_put k v o) = Some v.
Proof.
  induction o as [|[k' v'] o IH]; simpl.
  - now rewrite str_eqb_refl.
  - destruct (str_eqb k k') eqn:E; simpl; rewrite E; auto.
Qed.

Lemma obj_get_put_other o k k' v :
  k' <> k -> obj_get k' (obj_put k v o) = obj_get k' o.
Proof.
  intros Hne. induction o as [|[k0 v0] o IH]; simpl.
  - apply str_eqb_neq in Hne. now rewrite Hne.
  - destruct (str_eqb k k0) eqn:E; simpl.
    + apply str_eqb_eq in E. subst k0.
      apply str_eqb_neq in Hne. now rewrite Hne.
    + now rewrite IH.
Qed.

Lemma obj_get_app o1 o2 k :
  obj_get k (o1 ++ o2) =
  match obj_get k o1 with Some v => Some v | None => obj_get k o2 end.
Proof.
  induction o1 as [|[k0 v0] o1 IH]; simpl; auto.
  destruct (str_eqb k k0); auto.
Qed.

Lemma obj_get_filter (p : jsstring -> bool) o k :
  obj_get k (filter (fun kv => p (fst kv)) o) =
  if p k then obj_get k o else None.
Proof.
  induction o as [|[k0 v0] o IH]; simpl.
  - now destruct (p k).
  - destruct (p k0) eqn:Ep; simpl.
    + destruct (str_eqb k k0) eqn:E.
      * apply str_eqb_eq in E. subst. now rewrite Ep.
      * exact IH.
    + destruct (str_eqb k k0) eqn:E.
      * apply str_eqb_eq in E. subst. now rewrite Ep in IH |- *.
      * exact IH.
Qed.

Lemma obj_get_insertIndexed (x : jsstring * V) o k :
  obj_get k (insertIndexed x o) =
  if str_eqb k (fst x) then Some (snd x) else obj_get k o.
Proof.
  destruct x as [kx vx]. induction o as [|[k0 v0] o IH]; simpl; auto.
  simpl in *.
  destruct (digitsValue kx <=? digitsValue k0) eqn:Ele; simpl; auto.
  rewrite IH.
  destruct (str_eqb k k0) eqn:E0; destruct (str_eqb k kx) eqn:Ex; auto.
  apply str_eqb_eq in E0, Ex. subst.
  rewrite N.leb_refl in Ele. discriminate.
Qed.

Lemma obj_get_sortIndexed o k : obj_get k (sortIndexed o) = obj_get k o.
Proof.
  induction o as [|[k0 v0] o IH]; simpl; auto.
  rewrite obj_get_insertIndexed. simpl. now rewrite IH.
Qed.

(** Listing the properties in the order of [Object.entries] changes no
    lookup. *)
Lemma obj_get_ownEntries o k : obj_get k (ownEntries o) = obj_get k o.
Proof.
  unfold ownEntries. rewrite obj_get_app, obj_get_sortIndexed.
  rewrite (obj_get_filter isArrayIndex).
  rewrite (obj_get_filter (fun k => negb (isArrayIndex k))).
  destruct (isArrayIndex k); simpl; auto.
  now destruct (obj_get k o).
Qed.

Lemma length_insertIndexed (x : jsstring * V) o :
  List.length (insertIndexed x o) = S (List.length o).
Proof.
  induction o as [|y o IH]; simpl; auto.
  destruct (digitsValue (fst x) <=? digitsValue (fst y)); simpl; auto.
Qed.

Lemma length_ownEntries o : List.length (ownEntries o) = List.length o.
Proof.
  unfold ownEntries. rewrite length_app.
  assert (Hs : forall l : obj V, List.length (sortIndexed l) = List.length l).
  { induction l as [|x l IH]; simpl; auto.
    now rewrite length_insertIndexed, IH. }
  rewrite Hs. induction o as [|[k0 v0] o IH]; simpl; auto.
  destruct (isArrayIndex k0); simpl; lia.
Qed.

Lemma ownKeys_nil o : ownKeys o = [] <-> o = [].
Proof.
  unfold ownKeys. split; intros H.
  - apply (f_equal (@List.length _)) in H.
    rewrite length_map, length_ownEntries in H. now destruct o.
  - now subst.
Qed.

Lemma ownValues_nil o : ownValues o = [] <-> o = [].
Proof.
  unfold ownValues. split; intros H.
  - apply (f_equal (@List.length _)) in H.
    rewrite length_map, length_ownEntries in H. now destruct o.
  - now subst.
Qed.
End ObjectFacts.

(** *** Regular expressions: [matches] decides [lang] *)

Lemma lang_cat_inv r1 r2 s :
  lang (RCat r1 r2) s <->
  exists s1 s2, s = s1 ++ s2 /\ lang r1 s1 /\ lang r2 s2.
Proof.
  split.
  - intros H. inversion H; subst. eauto.
  - intros (s1 & s2 & -> & H1 & H2). now constructor.
Qed.

Lemma lang_alt_inv r1 r2 s :
  lang (RAlt r1 r2) s <-> lang r1 s \/ lang r2 s.
Proof.
  split.
  - intros H. inversion H; subst; auto.
  - intros [H | H]; [now apply LAltL | now apply LAltR].
Qed.

Lemma lang_class_inv p s :
  lang (RClass p) s <-> exists c, s = [c] /\ p c = true.
Proof.
  split.
  - intros H. inversion H; subst. eauto.
  - intros (c & -> & H). now constructor.
Qed.

Lemma lang_eps_inv s : lang REps s <-> s = [].
Proof.
  split.
  - intros H. now inversion H.
  - intros ->. constructor.
Qed.

Lemma lang_star_cons r c s :
  lang (RStar r) (c :: s) ->
  exists s1 s2, s = s1 ++ s2 /\ lang r (c :: s1) /\ lang (RStar r) s2.
Proof.
  intros H. remember (RStar r) as r0 eqn:Er. remember (c :: s) as s0 eqn:Es.
  revert c s Er Es.
  induction H; intros c0 s0 Er Es; try discriminate.
  inversion Er; subst r0. destruct s1 as [|x s1]; simpl in Es.
  - subst s2. now apply IHlang2.
  - inversion Es; subst. exists s1, s2. auto.
Qed.

Lemma nullable_lang r : nullable r = true <-> lang r [].
Proof.
  induction r; simpl.
  - split; [discriminate | intros H; inversion H].
  - split; [constructor | reflexivity].
  - split; [discriminate | intros H; inversion H].
  - rewrite andb_true_iff, IHr1, IHr2, lang_cat_inv. split.
    + intros [H1 H2]. exists [], []. auto.
    + intros (s1 & s2 & E & H1 & H2). symmetry in E.
      apply app_eq_nil in E. destruct E; subst. auto.
  - now rewrite orb_true_iff, IHr1, IHr2, lang_alt_inv.
  - split; [constructor | reflexivity].
Qed.

Lemma deriv_lang r : forall c s, lang (deriv c r) s <-> lang r (c :: s).
Proof.
  induction r; intros c s; simpl.
  - split; intros H; inversion H.
  - split; intros H; inversion H.
  - destruct (p c) eqn:Ep.
    + rewrite lang_eps_inv, lang_class_inv. split.
      * intros ->. eauto.
      * intros (c' & E & _). now inversion E.
    + split; [intros H; inversion H|].
      rewrite lang_class_inv. intros (c' & E & Hp). inversion E; subst.
      congruence.
  - assert (Hcat : lang (RCat (deriv c r1) r2) s <->
                   exists s1 s2, s = s1 ++ s2 /\ lang r1 (c :: s1) /\ lang r2 s2).
    { rewrite lang_cat_inv. split; intros (s1 & s2 & E & H1 & H2);
        exists s1, s2; (split; [assumption|split; [|assumption]]);
        now apply IHr1. }
    destruct (nullable r1) eqn:En.
    + rewrite lang_alt_inv, Hcat, IHr2, (lang_cat_inv r1 r2 (c :: s)). split.
      * intros [(s1 & s2 & -> & H1 & H2) | H].
        -- exists (c :: s1), s2. auto.
        -- exists [], (c :: s). apply nullable_lang in En. auto.
      * intros (s1 & s2 & E & H1 & H2). destruct s1 as [|x s1]; simpl in E.
        -- subst s2. now right.
        -- inversion E; subst. left. eauto.
    + rewrite Hcat, (lang_cat_inv r1 r2 (c :: s)). split.
      * intros (s1 & s2 & -> & H1 & H2). exists (c :: s1), s2. auto.
      * intros (s1 & s2 & E & H1 & H2). destruct s1 as [|x s1]; simpl in E.
        -- apply nullable_lang in H1. congruence.
        -- inversion E; subst. eauto.
  - now rewrite !lang_alt_inv, IHr1, IHr2.
  - rewrite lang_cat_inv. split.
    + intros (s1 & s2 & -> & H1 & H2). apply IHr in H1.
      change (c :: s1 ++ s2) with ((c :: s1) ++ s2). now constructor.
    + intros H. apply lang_star_cons in H.
      destruct H as (s1 & s2 & -> & H1 & H2). exists s1, s2.
      split; [reflexivity|]. split; [now apply IHr | assumption].
Qed.

Lemma matches_lang s : forall r, matches r s = true <-> lang r s.
Proof.
  induction s as [|c s IH]; intros r; simpl.
  - apply nullable_lang.
  - rewrite IH. apply deriv_lang.
Qed.

Lemma lang_star_class p s :
  lang (RStar (RClass p)) s <-> forallb p s = true.
Proof.
  split.
  - intros H. remember (RStar (RClass p)) as r eqn:Er.
    induction H; try discriminate; auto.
    inversion Er; subst r. apply lang_class_inv in H.
    destruct H as (c & -> & Hc). simpl. rewrite Hc. now apply IHlang2.
  - induction s as [|c s IH]; simpl; intros H.
    + constructor.
    + apply andb_true_iff in H. destruct H as [Hc Hs].
      change (c :: s) with ([c] ++ s). constructor; auto. now constructor.
Qed.

Lemma lang_plus_class p s :
  lang (RPlus (RClass p)) s <-> s <> [] /\ forallb p s = true.
Proof.
  unfold RPlus. rewrite lang_cat_inv. split.
  - intros (s1 & s2 & -> & H1 & H2). apply lang_class_inv in H1.
    destruct H1 as (c & -> & Hc). apply lang_star_class in H2.
    simpl. rewrite Hc, H2. split; [discriminate | reflexivity].
  - intros [Hne H]. destruct s as [|c s]; [congruence|].
    simpl in H. apply andb_true_iff in H. destruct H as [Hc Hs].
    exists [c], s. split; [reflexivity|]. split.
    + now constructor.
    + now apply lang_star_class.
Qed.

Lemma lang_digits s : lang re_digits s <-> Digits s.
Proof. apply lang_plus_class. Qed.

Lemma lang_char c s : lang (RChar c) s <-> s = [c].
Proof.
  unfold RChar. rewrite lang_class_inv. split.
  - intros (c' & -> & E). apply N.eqb_eq in E. now subst.
  - intros ->. exists c. split; [reflexivity | apply N.eqb_refl].
Qed.

Lemma lang_dot_then r c s :
  lang (RCat (RChar c) r) s <-> exists t, s = c :: t /\ lang r t.
Proof.
  rewrite lang_cat_inv. split.
  - intros (s1 & s2 & -> & H1 & H2). apply lang_char in H1. subst.
    exists s2. split; [reflexivity | assumption].
  - intros (t & -> & H). exists [c], t. split; [reflexivity|].
    split; [now apply lang_char | assumption].
Qed.

Lemma lang_quad s : lang re_quad s <-> BareQuad s.
Proof.
  unfold re_quad, BareQuad. split.
  - intros H.
    apply lang_cat_inv in H. destruct H as (a & s1 & -> & Ha & H).
    apply lang_dot_then in H. destruct H as (t1 & -> & H).
    apply lang_cat_inv in H. destruct H as (b & s2 & -> & Hb & H).
    apply lang_dot_then in H. destruct H as (t2 & -> & H).
    apply lang_cat_inv in H. destruct H as (c & s3 & -> & Hc & H).
    apply lang_dot_then in H. destruct H as (d & -> & Hd).
    apply lang_digits in Ha, Hb, Hc, Hd. exists a, b, c, d.
    repeat (split; [assumption|]). reflexivity.
  - intros (a & b & c & d & Ha & Hb & Hc & Hd & ->).
    apply lang_digits in Ha, Hb, Hc, Hd.
    constructor; [assumption|]. apply lang_dot_then. eexists. split; [reflexivity|].
    constructor; [assumption|]. apply lang_dot_then. eexists. split; [reflexivity|].
    constructor; [assumption|]. apply lang_dot_then. eexists. split; [reflexivity|].
    assumption.
Qed.

Lemma lang_quad_prefix s : lang re_quad_prefix s <-> PrefixedQuad s.
Proof.
  unfold re_quad_prefix, PrefixedQuad. rewrite lang_cat_inv. split.
  - intros (q & t & -> & Hq & H). apply lang_dot_then in H.
    destruct H as (n & -> & Hn). exists q, n.
    split; [now apply lang_quad|]. split; [now apply lang_digits | reflexivity].
  - intros (q & n & Hq & Hn & ->). exists q, (ch_slash :: n).
    split; [reflexivity|]. split; [now apply lang_quad|].
    apply lang_dot_then. exists n. split; [reflexivity | now apply lang_digits].
Qed.

Lemma lang_quad_opt_prefix s :
  lang re_quad_opt_prefix s <-> BareQuad s \/ PrefixedQuad s.
Proof.
  unfold re_quad_opt_prefix, ROpt. split.
  - intros H. apply lang_cat_inv in H. destruct H as (q & t & -> & Hq & H).
    apply lang_alt_inv in H. destruct H as [H | H].
    + right. apply lang_quad_prefix. unfold re_quad_prefix. now constructor.
    + apply lang_eps_inv in H. subst. rewrite app_nil_r. left.
      now apply lang_quad.
  - intros [H | H].
    + rewrite <- (app_nil_r s). constructor; [now apply lang_quad|].
      apply LAltR. constructor.
    + apply lang_quad_prefix in H. unfold re_quad_prefix in H.
      apply lang_cat_inv in H. destruct H as (q & t & -> & Hq & H).
      constructor; [assumption|]. now apply LAltL.
Qed.

(** The three tests of the source on dotted quads. *)
Lemma matches_quad s : matches re_quad s = true <-> BareQuad s.
Proof. now rewrite matches_lang, lang_quad. Qed.

Lemma matches_quad_prefix s : matches re_quad_prefix s = true <-> PrefixedQuad s.
Proof. now rewrite matches_lang, lang_quad_prefix. Qed.

Lemma matches_quad_opt_prefix s :
  matches re_quad_opt_prefix s = true <-> BareQuad s \/ PrefixedQuad s.
Proof. now rewrite matches_lang, lang_quad_opt_prefix. Qed.

Lemma lang_star_any s : lang (RStar RAny) s.
Proof. apply lang_star_class. induction s; simpl; auto. Qed.

Lemma search_lang r s :
  search r s = true <-> exists a m b, s = a ++ m ++ b /\ lang r m.
Proof.
  unfold search. rewrite matches_lang, lang_cat_inv. split.
  - intros (a & t & -> & _ & H). apply lang_cat_inv in H.
    destruct H as (m & b & -> & Hm & _). eauto.
  - intros (a & m & b & -> & Hm). exists a, (m ++ b).
    split; [reflexivity|]. split; [apply lang_star_any|].
    constructor; [assumption | apply lang_star_any].
Qed.

(** [/[...]/.test(s)]: some code unit of [s] is in the class. *)
Lemma search_class p s : search (RClass p) s = existsb p s.
Proof.
  apply eq_true_iff_eq. rewrite search_lang, existsb_exists. split.
  - intros (a & m & b & -> & H). apply lang_class_inv in H.
    destruct H as (c & -> & Hc). exists c. split; [|assumption].
    apply in_or_app. right. now left.
  - intros (c & Hin & Hc). apply in_split in Hin.
    destruct Hin as (a & b & ->). exists a, [c], b.
    split; [reflexivity | now constructor].
Qed.

(* ================================================================== *)
(** ** Policy assembly *)

Section AssemblyFacts.
Variable mk : entry -> rule.

Lemma fold_routeRule ents : forall ing eg,
  fold_left (routeRule mk) ents (ing, eg) =
  (ing ++ map mk (filter isIngress ents),
   eg ++ map mk (filter notIngress ents)).
Proof.
  induction ents as [|e ents IH]; intros ing eg; simpl.
  - now rewrite !app_nil_r.
  - unfold notIngress at 1. destruct (isIngress e); simpl; rewrite IH;
      now rewrite <- app_assoc.
Qed.

Lemma optional_list (l : list rule) :
  ruleList (if nonEmpty l then Some l else None) = l.
Proof. now destruct l. Qed.

Lemma ingressOf_buildPolicy ns key ents :
  ingressOf (buildPolicyWith mk ns key ents) = map mk (filter isIngress ents).
Proof.
  unfold ingressOf, buildPolicyWith. rewrite fold_routeRule. simpl.
  apply optional_list.
Qed.

Lemma egressOf_buildPolicy ns key ents :
  egressOf (buildPolicyWith mk ns key ents) = map mk (filter notIngress ents).
Proof.
  unfold egressOf, buildPolicyWith. rewrite fold_routeRule. simpl.
  apply optional_list.
Qed.

Lemma ingress_key_buildPolicy ns key ents :
  ingress (spec (buildPolicyWith mk ns key ents)) =
  match map mk (filter isIngress ents) with
  | [] => None
  | l => Some l
  end.
Proof.
  unfold buildPolicyWith. rewrite fold_routeRule. simpl.
  now destruct (map mk (filter isIngress ents)).
Qed.

Lemma egress_key_buildPolicy ns key ents :
  egress (spec (buildPolicyWith mk ns key ents)) =
  match map mk (filter notIngress ents) with
  | [] => None
  | l => Some l
  end.
Proof.
  unfold buildPolicyWith. rewrite fold_routeRule. simpl.
  now destruct (map mk (filter notIngress ents)).
Qed.

Lemma empty_direction_egress ns key ents e :
  In e ents -> direction e = [] ->
  isIngress e = false /\
  In (mk e) (egressOf (buildPolicyWith mk ns key ents)) /\
  ingressOf (buildPolicyWith mk ns key ents) = map mk (filter isIngress ents).
Proof.
  intros Hin Hdir.
  assert (Hni : isIngress e = false) by (unfold isIngress; now rewrite Hdir).
  split; [assumption|]. split; [|apply ingressOf_buildPolicy].
  rewrite egressOf_buildPolicy. apply in_map, filter_In.
  split; [assumption|]. unfold notIngress. now rewrite Hni.
Qed.
End AssemblyFacts.

(** C1, as the code has it: a row whose direction cell is empty is not an
    ingress row; its rule fragment is placed in the egress list of the
    assembled document, and the ingress list holds exactly the fragments of
    the rows whose direction is [ingress].  This holds for [buildPolicy] of
    [convert.js] and of [converter_03_07_2025.js]. *)
Theorem empty_direction_routed_to_egress ns key ents e :
  In e ents -> direction e = [] ->
  isIngress e = false /\
  (In (Convert.makeRule e) (egressOf (Convert.buildPolicy ns key ents)) /\
   ingressOf (Convert.buildPolicy ns key ents)
   = map Convert.makeRule (filter isIngress ents)) /\
  (In (Converter0307.makeRule e)
      (egressOf (Converter0307.buildPolicy ns key ents)) /\
   ingressOf (Converter0307.buildPolicy ns key ents)
   = map Converter0307.makeRule (filter isIngress ents)).
Proof.
  intros Hin Hdir.
  destruct (empty_direction_egress Convert.makeRule ns key Hin Hdir)
    as (H0 & H1 & H2).
  destruct (empty_direction_egress Converter0307.makeRule ns key Hin Hdir)
    as (_ & H3 & H4).
  repeat split; assumption.
Qed.

Lemma empty_direction_routed_to_egress_witness :
  let e := mkEntry (lit "tcp") (lit "app:web") (lit "app:db") []
                   (lit "5432") 3 in
  isIngress e = false /\
  In (Convert.makeRule e)
     (egressOf (Convert.buildPolicy (lit "prod") (lit "app:web") [e])).
Proof.
  intros e.
  destruct (@empty_direction_routed_to_egress
              (lit "prod") (lit "app:web") [e] e)
    as (H0 & (H1 & _) & _).
  - simpl. left. reflexivity.
  - reflexivity.
  - split; assumption.
Defined.

(** C1, as stated, fails: the table with header [namespace:prod] and the
    one row [1, tcp, app:web, (empty), app:db, 5432] is extracted to one
    entry with the empty direction, and the group's document has that
    entry's fragment as its egress list. *)
Lemma empty_direction_not_dropped :
  let table :=
    [ [CString (lit "rules")];
      [CString (lit "namespace:prod")];
      [CNumber 1; CString (lit "tcp"); CString (lit "app:web"); CUndef;
       CString (lit "app:db"); CNumber 5432] ] in
  exists res e,
    Convert.parseExcel table = inr res /\
    groups res = [(lit "app:web", [e])] /\
    direction e = [] /\
    let p := Convert.buildPolicy (namespace res) (lit "app:web") [e] in
    egress (spec p) = Some [Convert.makeRule e] /\
    ~ (~ In (Convert.makeRule e) (ingressOf p) /\
       ~ In (Convert.makeRule e) (egressOf p)).
Proof.
  intros table.
  set (e := mkEntry (lit "tcp") (lit "app:web") (lit "app:db") []
                    (lit "5432") 3).
  exists (mkParsed (lit "prod") [(lit "app:web", [e])] [e] []), e.
  split; [vm_compute; reflexivity|].
  split; [reflexivity|]. split; [reflexivity|].
  split; [vm_compute; reflexivity|].
  intros [_ H]. apply H. vm_compute. left. reflexivity.
Qed.

Lemma map_eq_nil_iff (A B : Type) (f : A -> B) (l : list A) :
  map f l = [] <-> l = [].
Proof. destruct l; simpl; split; congruence. Qed.

Lemma part001b_fold_routeRule ents : forall ing eg,
  fold_left Part001b.routeRule ents (ing, eg) =
  (ing ++ map Part001b.makeRule (filter isIngress ents),
   eg ++ map Part001b.makeRule (filter notIngress ents)).
Proof.
  induction ents as [|e ents IH]; intros ing eg; simpl.
  - now rewrite !app_nil_r.
  - unfold notIngress at 1. destruct (isIngress e); simpl; rewrite IH;
      now rewrite <- app_assoc.
Qed.

Lemma optional_key (A : Type) (l : list A) :
  ((if nonEmpty l then Some l else None) = None <-> l = []) /\
  (forall l', (if nonEmpty l then Some l else None) = Some l' ->
     l' <> [] /\ l' = l).
Proof.
  destruct l as [|x l]; simpl; split.
  - tauto.
  - intros l' H. discriminate.
  - split; discriminate.
  - intros l' H. inversion H; subst. split; [discriminate | reflexivity].
Qed.

(** C8, as the code has it: the document [buildPolicy] assembles for a
    group.  In [convert.js] its [endpointSelector] is [{ matchLabels }]
    over the labels parsed from the group key when there is at least one,
    and the empty object otherwise; its name is the namespace, [-], and
    the label values joined by [-], or the namespace and [-default] when
    there is no label; the [ingress] key is absent exactly when no row of
    the group is an ingress row and otherwise holds the fragments of the
    ingress rows, and likewise the [egress] key with the other rows; so a
    group with the empty key and one ingress row gets the empty selector
    and no [egress] key.  [buildPolicy] of the second script of
    [src/unnamed/part_001] builds the selector and the two keys the same
    way, but it names the document after the first label value only, and
    takes [default] also when that value is empty. *)
Theorem buildPolicy_document ns key ents :
  let p := Convert.buildPolicy ns key ents in
  let labels := splitLabels key in
  metaNamespace p = ns /\
  (labels <> [] ->
     endpointSelector (spec p) = SelMatchLabels labels /\
     metaName p = ns ++ lit "-" ++ join (lit "-") (ownValues labels)) /\
  (labels = [] ->
     endpointSelector (spec p) = SelEmpty /\
     metaName p = ns ++ lit "-default") /\
  (ingress (spec p) = None <-> filter isIngress ents = []) /\
  (forall l, ingress (spec p) = Some l ->
     l <> [] /\ l = map Convert.makeRule (filter isIngress ents)) /\
  (egress (spec p) = None <-> filter notIngress ents = []) /\
  (forall l, egress (spec p) = Some l ->
     l <> [] /\ l = map Convert.makeRule (filter notIngress ents)) /\
  (forall e, isIngress e = true ->
     let q := Convert.buildPolicy ns [] [e] in
     endpointSelector (spec q) = SelEmpty /\
     egress (spec q) = None /\
     ingress (spec q) = Some [Convert.makeRule e]) /\
  (let q := Part001b.buildPolicy ns key ents in
   Part001b.metaNamespace q = ns /\
   (labels <> [] ->
      Part001b.endpointSelector (Part001b.spec q) = SelMatchLabels labels) /\
   (labels = [] ->
      Part001b.endpointSelector (Part001b.spec q) = SelEmpty /\
      Part001b.metaName q = ns ++ lit "-default") /\
   (forall v rest, ownValues labels = v :: rest -> v <> [] ->
      Part001b.metaName q = ns ++ lit "-" ++ v) /\
   (forall rest, ownValues labels = [] :: rest ->
      Part001b.metaName q = ns ++ lit "-default") /\
   (Part001b.ingress (Part001b.spec q) = None
    <-> filter isIngress ents = []) /\
   (forall l, Part001b.ingress (Part001b.spec q) = Some l ->
      l <> [] /\ l = map Part001b.makeRule (filter isIngress ents)) /\
   (Part001b.egress (Part001b.spec q) = None
    <-> filter notIngress ents = []) /\
   (forall l, Part001b.egress (Part001b.spec q) = Some l ->
      l <> [] /\ l = map Part001b.makeRule (filter notIngress ents))).
Proof.
  intros p labels. subst p. unfold Convert.buildPolicy.
  split; [unfold buildPolicyWith; rewrite fold_routeRule; reflexivity|].
  split.
  { intros Hne. unfold buildPolicyWith. rewrite fold_routeRule. simpl.
    fold labels.
    destruct (nonEmpty (ownKeys labels)) eqn:Ek.
    2:{ apply nonEmpty_false, ownKeys_nil in Ek. contradiction. }
    destruct (nonEmpty (ownValues labels)) eqn:Ev.
    2:{ apply nonEmpty_false, ownValues_nil in Ev. contradiction. }
    split; reflexivity. }
  split.
  { intros He. unfold buildPolicyWith. rewrite fold_routeRule. simpl.
    fold labels. rewrite He. split; reflexivity. }
  rewrite ingress_key_buildPolicy, egress_key_buildPolicy.
  split.
  { rewrite <- (map_eq_nil_iff Convert.makeRule).
    destruct (map Convert.makeRule (filter isIngress ents));
      split; congruence. }
  split.
  { intros l. destruct (map Convert.makeRule (filter isIngress ents));
      intros H; inversion H; subst. split; [discriminate | reflexivity]. }
  split.
  { rewrite <- (map_eq_nil_iff Convert.makeRule).
    destruct (map Convert.makeRule (filter notIngress ents));
      split; congruence. }
  split.
  { intros l. destruct (map Convert.makeRule (filter notIngress ents));
      intros H; inversion H; subst. split; [discriminate | reflexivity]. }
  split.
  { intros e He. unfold buildPolicyWith. simpl.
    unfold routeRule. rewrite He. simpl. repeat split. }
  unfold Part001b.buildPolicy. rewrite part001b_fold_routeRule.
  fold labels.
  cbn [app Part001b.metaNamespace Part001b.metaName Part001b.spec
       Part001b.endpointSelector Part001b.ingress Part001b.egress].
  split; [reflexivity|]. split.
  { intros Hne. destruct (nonEmpty (ownKeys labels)) eqn:Ek; [reflexivity|].
    apply nonEmpty_false, ownKeys_nil in Ek. contradiction. }
  split.
  { intros He. rewrite He. split; reflexivity. }
  split.
  { intros v rest Hv Hne. rewrite Hv. apply nonEmpty_true in Hne.
    now rewrite Hne. }
  split.
  { intros rest Hv. rewrite Hv. reflexivity. }
  destruct (optional_key (map Part001b.makeRule (filter isIngress ents)))
    as [Hi1 Hi2].
  destruct (optional_key (map Part001b.makeRule (filter notIngress ents)))
    as [He1 He2].
  rewrite map_eq_nil_iff in Hi1, He1.
  repeat split; try apply Hi1; try apply He1;
    try (now apply Hi2); now apply He2.
Qed.

Lemma buildPolicy_document_witness :
  let key := lit "app:ois-mntr,tier:webapi" in
  let e := mkEntry (lit "tcp") (lit "10.1.0.0/16") key (lit "ingress")
                   (lit "443") 3 in
  metaName (Convert.buildPolicy (lit "billing") key [e])
  = lit "billing-ois-mntr-webapi" /\
  egress (spec (Convert.buildPolicy (lit "billing") [] [e])) = None.
Proof.
  intros key e.
  destruct (@buildPolicy_document (lit "billing") key [e])
    as (_ & Hsome & _ & _ & _ & _ & _ & Hone & _).
  split.
  - destruct Hsome as [_ Hname].
    + vm_compute. discriminate.
    + rewrite Hname. vm_compute. reflexivity.
  - destruct (Hone e) as (_ & Heg & _).
    + vm_compute. reflexivity.
    + exact Heg.
Defined.

(** C8, as stated, fails for [buildPolicy] of the second script of
    [src/unnamed/part_001]: for the group key [app:ois-mntr,tier:webapi]
    the document is named after the first label value alone. *)
Lemma part001_name_first_value :
  let key := lit "app:ois-mntr,tier:webapi" in
  ownValues (splitLabels key) = [lit "ois-mntr"; lit "webapi"] /\
  Part001b.metaName (Part001b.buildPolicy (lit "billing") key [])
  = lit "billing-ois-mntr".
Proof. split; vm_compute; reflexivity. Qed.

(* ================================================================== *)
(** ** Splitting and the ports block *)

Section SplitFacts.
Variable sep : code_unit -> bool.

Lemma splitRuns_field (it : jsstring) : forall prev,
  forallb (fun c => negb (sep c)) it = true ->
  splitRuns sep prev it = [it].
Proof.
  induction it as [|x it IH]; intros prev H; simpl in *; auto.
  apply andb_true_iff in H. destruct H as [Hx Hit].
  apply negb_true_iff in Hx. rewrite Hx, (IH false Hit). reflexivity.
Qed.

Lemma splitRuns_field_sep (it : jsstring) c rest :
  forallb (fun c => negb (sep c)) it = true -> sep c = true ->
  splitRuns sep false (it ++ c :: rest) = it :: splitRuns sep true rest.
Proof.
  intros H Hc. induction it as [|x it IH]; simpl in *.
  - now rewrite Hc.
  - apply andb_true_iff in H. destruct H as [Hx Hit].
    apply negb_true_iff in Hx. rewrite Hx, (IH Hit). reflexivity.
Qed.

Lemma splitRuns_item_sep (it : jsstring) c rest prev :
  it <> [] ->
  forallb (fun c => negb (sep c)) it = true -> sep c = true ->
  splitRuns sep prev (it ++ c :: rest) = it :: splitRuns sep true rest.
Proof.
  intros Hne H Hc. destruct it as [|x it]; [congruence|].
  simpl in *. apply andb_true_iff in H. destruct H as [Hx Hit].
  apply negb_true_iff in Hx. rewrite Hx.
  now rewrite (splitRuns_field_sep rest Hit Hc).
Qed.

Lemma splitRuns_join c (l : list jsstring) : forall prev,
  sep c = true -> l <> [] ->
  Forall (fun it => it <> [] /\ forallb (fun c => negb (sep c)) it = true) l ->
  splitRuns sep prev (join [c] l) = l.
Proof.
  induction l as [|x l IH]; intros prev Hc Hne Hall; [congruence|].
  inversion Hall as [|? ? [Hx Hfree] Hl]; subst.
  destruct l as [|y l].
  - simpl. now apply splitRuns_field.
  - change (join [c] (x :: y :: l)) with (x ++ c :: join [c] (y :: l)).
    rewrite (splitRuns_item_sep _ _ Hx Hfree Hc).
    f_equal. apply IH; [assumption | discriminate | assumption].
Qed.
End SplitFacts.

(** Items written one after the other with commas are read back as they
    were written: same items, same order, repetitions kept. *)
Lemma portList_join (l : list jsstring) :
  Forall cleanItem l -> portList (join [ch_comma] l) = l.
Proof.
  intros Hall. unfold portList, splitClass.
  destruct l as [|x l]; [reflexivity|].
  rewrite splitRuns_join; [| reflexivity | discriminate |].
  - induction Hall as [|it l' (Hne & Htrim & _) _ IH]; [reflexivity|].
    simpl. rewrite Htrim. destruct it; [congruence|]. simpl. now f_equal.
  - eapply Forall_impl; [|exact Hall]. intros it (Hne & _ & Hfree). auto.
Qed.

Lemma map_portValue_portsArray proto port :
  map portValue (portsArray proto port) = portList port.
Proof. unfold portsArray. rewrite map_map. simpl. apply map_id. Qed.

Lemma toPorts_makeRule e :
  toPorts (Convert.makeRule e) = portsArray (protocol e) (port e).
Proof.
  unfold Convert.makeRule. destruct (Convert.readCell (selectorCell e)).
  now destruct (isIngress e).
Qed.

Lemma toPorts_makeRule0307 e :
  toPorts (Converter0307.makeRule e) = portsArray (protocol e) (port e).
Proof. unfold Converter0307.makeRule. now destruct (isIngress e). Qed.




(* ================================================================== *)
(** ** Validation *)

Lemma obj_get_assign_other (V : Type) (o : obj V) k k' v :
  k' <> k -> obj_get k' (assign k v o) = obj_get k' o.
Proof.
  intros H. unfold assign. destruct (str_eqb k (lit "__proto__")); auto.
  now apply obj_get_put_other.
Qed.

Lemma obj_get_assign_same (V : Type) (o : obj V) k v :
  k <> lit "__proto__" -> obj_get k (assign k v o) = Some v.
Proof.
  intros H. unfold assign. apply str_eqb_neq in H. rewrite H.
  apply obj_get_put_same.
Qed.

Lemma hasCyrillic_existsb e :
  Convert.hasCyrillic e = existsb isCyrillic (Convert.entryText e).
Proof. apply search_class. Qed.

(** Rows with pairwise different keys leave the duplicate list as it was. *)
Lemma fold_dupStep_distinct es : forall seen dups,
  (forall e, In e es -> obj_get (Convert.signatureKey e) seen = None) ->
  NoDup (map Convert.signatureKey es) ->
  snd (fold_left Convert.dupStep es (seen, dups)) = dups.
Proof.
  induction es as [|e es IH]; intros seen dups Hnew Hnd; simpl; auto.
  rewrite (Hnew e) by now left.
  inversion Hnd as [|? ? Hnotin Hnd']; subst.
  apply IH; [|assumption].
  intros e' Hin. rewrite obj_get_assign_other.
  - apply Hnew. now right.
  - intros Heq. apply Hnotin. rewrite <- Heq. now apply in_map.
Qed.

Lemma filter_none (A : Type) (p : A -> bool) (l : list A) :
  Forall (fun x => p x = false) l -> filter p l = [].
Proof.
  induction 1 as [|x l Hx _ IH]; simpl; auto. now rewrite Hx.
Qed.

(** *** Duplicates *)

Lemma find_app_first (A : Type) (p : A -> bool) (l1 l2 : list A) :
  find p (l1 ++ l2) =
  match find p l1 with Some x => Some x | None => find p l2 end.
Proof.
  induction l1 as [|x l1 IH]; simpl; auto. now destruct (p x).
Qed.

Lemma signatureKey_has_pipe e : includes ch_pipe (Convert.signatureKey e) = true.
Proof.
  unfold Convert.signatureKey.
  change (join [ch_pipe] (direction e :: ?l)) with (direction e ++ [ch_pipe] ++ join [ch_pipe] l).
  cbn [join]. rewrite !includes_app. simpl. now rewrite orb_true_r.
Qed.

(** No key is a property name inherited from [Object.prototype], so
    [seen[key]] reads own properties only. *)
Lemma signatureKey_not_inherited e : isProtoName (Convert.signatureKey e) = false.
Proof.
  unfold isProtoName. apply not_true_iff_false. intros H.
  apply existsb_exists in H. destruct H as (n & Hin & Heq).
  apply str_eqb_eq in Heq. pose proof (signatureKey_has_pipe e) as Hp.
  rewrite Heq in Hp.
  assert (Hall : forallb (fun n => negb (includes ch_pipe n)) protoNames = true)
    by (vm_compute; reflexivity).
  rewrite forallb_forall in Hall. apply Hall in Hin. now rewrite Hp in Hin.
Qed.

Lemma signatureKey_not_proto e : Convert.signatureKey e <> lit "__proto__".
Proof.
  intros H. pose proof (signatureKey_has_pipe e) as Hp. rewrite H in Hp.
  vm_compute in Hp. discriminate.
Qed.

(** What the loop of [validate] computes: with row numbers that are not
    0, [seen] holds for each key the number of the first row with that key,
    and the list grows by one pair for each row whose key was seen. *)
Lemma fold_dupStep_first es : forall before seen dups,
  (forall k, obj_get k seen = option_map rowNum (find (hasKey k) before)) ->
  Forall (fun e => rowNum e <> 0) (before ++ es) ->
  snd (fold_left Convert.dupStep es (seen, dups)) = dups ++ dupsFrom before es.
Proof.
  induction es as [|e es IH]; intros before seen dups Hinv Hnz; simpl.
  - now rewrite app_nil_r.
  - assert (Hnz' : Forall (fun e => rowNum e <> 0) ((before ++ [e]) ++ es))
      by now rewrite <- app_assoc.
    rewrite (Hinv (Convert.signatureKey e)).
    destruct (find (hasKey (Convert.signatureKey e)) before) as [f|] eqn:Ef;
      simpl.
    + assert (Hf : rowNum f <> 0).
      { apply find_some in Ef. destruct Ef as [Hin _].
        rewrite Forall_forall in Hnz. apply Hnz, in_or_app. now left. }
      apply N.eqb_neq in Hf. rewrite Hf.
      rewrite (IH (before ++ [e]) seen _); [now rewrite <- app_assoc | | assumption].
      intros k. rewrite find_app_first, Hinv.
      destruct (find (hasKey k) before) as [g|] eqn:Eg; [reflexivity|].
      simpl. unfold hasKey at 1. destruct (str_eqb (Convert.signatureKey e) k) eqn:Ek;
        [|reflexivity].
      apply str_eqb_eq in Ek. subst k. congruence.
    + rewrite (IH (before ++ [e]) _ dups); [reflexivity | | assumption].
      intros k. rewrite find_app_first. simpl. unfold hasKey at 2.
      destruct (str_eqb (Convert.signatureKey e) k) eqn:Ek.
      * apply str_eqb_eq in Ek. subst k. rewrite Ef.
        apply obj_get_assign_same, signatureKey_not_proto.
      * apply str_eqb_neq in Ek. rewrite obj_get_assign_other by congruence.
        rewrite Hinv. now destruct (find (hasKey k) before).
Qed.

Lemma duplicates_by_key es :
  Forall (fun e => rowNum e <> 0) es ->
  Convert.duplicates es = dupsFrom [] es.
Proof.
  intros H. unfold Convert.duplicates.
  apply (@fold_dupStep_first es [] [] []).
  - reflexivity.
  - exact H.
Qed.

(** Rows with the same signature have the same key. *)
Lemma signature_key e f :
  signature e = signature f -> Convert.signatureKey e = Convert.signatureKey f.
Proof.
  unfold signature, Convert.signatureKey. intros H. inversion H.
  congruence.
Qed.

Lemma app_cons_inj (c : code_unit) (a : jsstring) : forall b x y,
  ~ In c a -> ~ In c b -> a ++ c :: x = b ++ c :: y -> a = b /\ x = y.
Proof.
  induction a as [|a0 a IH]; intros [|b0 b] x y Ha Hb H; simpl in *.
  - inversion H. auto.
  - inversion H; subst. exfalso. apply Hb. now left.
  - inversion H; subst. exfalso. apply Ha. now left.
  - inversion H; subst. destruct (IH b x y) as [-> ->]; auto.
Qed.

(** Where no cell holds a [|], rows with the same key have the same
    signature: the key stands for the tuple. *)
Lemma signatureKey_injective e f :
  pipeFree e -> pipeFree f ->
  Convert.signatureKey e = Convert.signatureKey f -> signature e = signature f.
Proof.
  intros (Hd & Hs & Ht & Hp) (Hd' & Hs' & Ht' & Hp') H.
  unfold Convert.signatureKey in H. cbn [join app] in H.
  apply app_cons_inj in H; [|assumption|assumption]. destruct H as [E1 H].
  apply app_cons_inj in H; [|assumption|assumption]. destruct H as [E2 H].
  apply app_cons_inj in H; [|assumption|assumption]. destruct H as [E3 H].
  apply app_cons_inj in H; [|assumption|assumption]. destruct H as [E4 H].
  unfold signature. congruence.
Qed.

(** Where no cell holds a [|], the rows the loop takes for earlier
    occurrences of a row are the rows with its signature. *)
Lemma hasKey_signature e f :
  pipeFree e -> pipeFree f ->
  (hasKey (Convert.signatureKey e) f = true <-> signature f = signature e).
Proof.
  intros He Hf. unfold hasKey. rewrite str_eqb_eq. split.
  - now apply signatureKey_injective.
  - apply signature_key.
Qed.

Lemma NoDup_map_same (A B C : Type) (f : A -> B) (g : A -> C) (l : list A) :
  (forall x y, In x l -> In y l -> (f x = f y <-> g x = g y)) ->
  NoDup (map f l) -> NoDup (map g l).
Proof.
  induction l as [|x l IH]; intros Hfg H; simpl; [constructor|].
  inversion H as [|? ? Hnotin Hnd]; subst. constructor.
  - intros Hin. apply in_map_iff in Hin. destruct Hin as (y & Heq & Hy).
    apply Hnotin. apply in_map_iff. exists y. split; [|assumption].
    symmetry. apply (Hfg x y); [now left | now right | now symmetry].
  - apply IH; [|assumption]. intros a b Ha Hb. apply Hfg; now right.
Qed.

(** C3, as the code has it: [validate] never looks at the port cell.  Rows
    free of Cyrillic letters and of [|] whose signatures (direction,
    source, destination, port, upper-cased protocol with [ANY] for none)
    differ pairwise pass validation with no report at all, and any of
    them whose port cell has no item is translated to a fragment with an
    empty ports list. *)
Theorem validate_ignores_ports es :
  Forall (fun e => Convert.hasCyrillic e = false) es ->
  Forall pipeFree es ->
  NoDup (map signature es) ->
  Convert.validate es = Returned [] /\
  (forall e, In e es -> portList (port e) = [] ->
     toPorts (Convert.makeRule e) = []).
Proof.
  intros Hcyr Hpipe Hsig.
  assert (Hnd : NoDup (map Convert.signatureKey es)).
  { rewrite Forall_forall in Hpipe.
    apply (NoDup_map_same (f := signature)); [|exact Hsig].
    intros x y Hx Hy. split.
    - apply signature_key.
    - apply signatureKey_injective; auto. }
  split.
  - unfold Convert.validate.
    replace (filter Convert.hasCyrillic es) with (@nil entry).
    + simpl. unfold Convert.duplicates.
      now rewrite fold_dupStep_distinct.
    + symmetry. now apply filter_none.
  - intros e _ Hp. rewrite toPorts_makeRule. unfold portsArray.
    now rewrite Hp.
Qed.

Lemma validate_ignores_ports_witness :
  let e1 := mkEntry (lit "tcp") (lit "app:web") (lit "app:db")
                    (lit "egress") (lit " , ") 3 in
  let e2 := mkEntry (lit "tcp") (lit "app:web") (lit "app:db")
                    (lit "egress") (lit "80") 4 in
  Convert.validate [e1; e2] = Returned [] /\
  toPorts (Convert.makeRule e1) = [].
Proof.
  intros e1 e2.
  destruct (@validate_ignores_ports [e1; e2]) as [Hv Hp].
  - repeat constructor.
  - constructor; [|constructor; [|constructor]];
      unfold pipeFree; repeat split; vm_compute; intuition discriminate.
  - constructor; [|repeat constructor; simpl; tauto].
    simpl. intros [H | []]. vm_compute in H. discriminate.
  - split; [exact Hv|]. apply Hp; [now left | reflexivity].
Defined.

(** C3, as stated, fails: the row [1, tcp, app:web, egress, app:db,
    (empty)] is extracted with an empty port, its fragment has an empty
    ports list, and [validate] returns without any report. *)
Lemma empty_port_row_passes_validation :
  let table :=
    [ [CString (lit "rules")];
      [CString (lit "namespace:prod")];
      [CNumber 1; CString (lit "tcp"); CString (lit "app:web");
       CString (lit "egress"); CString (lit "app:db")] ] in
  exists res e,
    Convert.parseExcel table = inr res /\
    entries res = [e] /\ missingNums res = [] /\
    port e = [] /\
    toPorts (Convert.makeRule e) = [] /\
    Convert.validate (entries res) = Returned [].
Proof.
  intros table.
  set (e := mkEntry (lit "tcp") (lit "app:web") (lit "app:db")
                    (lit "egress") [] 3).
  exists (mkParsed (lit "prod") [(lit "app:web", [e])] [e] []), e.
  repeat split; vm_compute; reflexivity.
Qed.

(** C6, the code at a failing input: the rows
    [1, tcp, a|b, egress, c, 80] and [2, tcp, a, egress, b|c, 80] are
    extracted as rows 3 and 4 with different signatures, each the first
    row with its signature, and [validate] returns with the duplicate
    warning pairing 3 and 4, because both keys are [egress|a|b|c|80|TCP]. *)
Theorem validate_pipe_collision :
  let table :=
    [ [CString (lit "rules")];
      [CString (lit "namespace:prod")];
      [CNumber 1; CString (lit "tcp"); CString (lit "a|b");
       CString (lit "egress"); CString (lit "c"); CNumber 80];
      [CNumber 2; CString (lit "tcp"); CString (lit "a");
       CString (lit "egress"); CString (lit "b|c"); CNumber 80] ] in
  exists res e1 e2,
    Convert.parseExcel table = inr res /\
    entries res = [e1; e2] /\
    rowNum e1 = 3 /\ rowNum e2 = 4 /\
    signature e1 <> signature e2 /\
    Convert.signatureKey e1 = lit "egress|a|b|c|80|TCP" /\
    Convert.signatureKey e2 = lit "egress|a|b|c|80|TCP" /\
    Convert.validate (entries res) = Returned [(3, 4)].
Proof.
  intros table.
  set (e1 := mkEntry (lit "tcp") (lit "a|b") (lit "c") (lit "egress")
                     (lit "80") 3).
  set (e2 := mkEntry (lit "tcp") (lit "a") (lit "b|c") (lit "egress")
                     (lit "80") 4).
  exists (mkParsed (lit "prod") [(lit "a|b", [e1]); (lit "a", [e2])]
                   [e1; e2] []), e1, e2.
  split; [vm_compute; reflexivity|].
  repeat (split; [reflexivity|]).
  split; [vm_compute; congruence|].
  repeat split; vm_compute; reflexivity.
Qed.

(* ================================================================== *)
(** ** Baseline documents *)

Section SpreadFacts.
Variable V : Type.
Implicit Types (o : obj V) (k : jsstring).

Lemma insertIndexed_perm (x : jsstring * V) o :
  Permutation (insertIndexed x o) (x :: o).
Proof.
  induction o as [|y o IH]; simpl; auto.
  destruct (digitsValue (fst x) <=? digitsValue (fst y)); auto.
  rewrite IH. apply perm_swap.
Qed.

Lemma sortIndexed_perm o : Permutation (sortIndexed o) o.
Proof.
  induction o as [|x o IH]; simpl; auto.
  rewrite insertIndexed_perm. now constructor.
Qed.

Lemma ownEntries_perm o : Permutation (ownEntries o) o.
Proof.
  unfold ownEntries. rewrite sortIndexed_perm.
  induction o as [|x o IH]; simpl; auto.
  destruct (isArrayIndex (fst x)); simpl.
  - now constructor.
  - rewrite <- Permutation_middle. now constructor.
Qed.

Lemma wellFormed_ownEntries o : wellFormed o -> wellFormed (ownEntries o).
Proof.
  unfold wellFormed. intros H.
  eapply Permutation_NoDup; [|exact H].
  apply Permutation_map. symmetry. apply ownEntries_perm.
Qed.

Lemma obj_put_fresh o k (v : V) :
  ~ In k (map fst o) -> obj_put k v o = o ++ [(k, v)].
Proof.
  induction o as [|[k0 v0] o IH]; simpl; intros H; auto.
  destruct (str_eqb k k0) eqn:E.
  - apply str_eqb_eq in E. subst. exfalso. apply H. now left.
  - rewrite IH; auto.
Qed.

(** Copying the properties of an object one by one, in order, onto
    properties with other keys appends them as they are. *)
Lemma fold_put_fresh (l : obj V) : forall o,
  wellFormed (o ++ l) ->
  fold_left (fun o kv => obj_put (fst kv) (snd kv) o) l o = o ++ l.
Proof.
  unfold wellFormed.
  induction l as [|[k v] l IH]; intros o H; simpl.
  - now rewrite app_nil_r.
  - rewrite obj_put_fresh.
    + rewrite IH; rewrite <- app_assoc; auto.
    + rewrite map_app in H. simpl in H. apply NoDup_remove_2 in H.
      intros Hin. apply H, in_or_app. now left.
Qed.

(** [{ ...o }] has the properties of [o] in the order of
    [Object.entries]. *)
Lemma spreadInto_empty o : wellFormed o -> spreadInto [] o = ownEntries o.
Proof.
  intros H. unfold spreadInto. rewrite fold_put_fresh; auto.
  simpl. now apply wellFormed_ownEntries.
Qed.
End SpreadFacts.

(** C4, as the code has it: the emitted copy of a baseline document has
    [metadata] equal to the object [{ name: <namespace>-default,
    namespace: <namespace> }] and nothing else in it, so any other field
    the baseline had under [metadata] is gone; every top-level part of
    the document other than [metadata] is unchanged. *)
Theorem rewriteDefault_frame ns (doc : obj yamlValue) :
  wellFormed doc ->
  let out := Convert.rewriteDefault ns doc in
  obj_get (lit "metadata") out
  = Some (YMap [ (lit "name", YString (ns ++ lit "-default"));
                 (lit "namespace", YString ns) ]) /\
  (forall k, k <> lit "metadata" -> obj_get k out = obj_get k doc) /\
  (forall m k, obj_get (lit "metadata") out = Some m ->
     k <> lit "name" -> k <> lit "namespace" -> yamlField k m = None).
Proof.
  intros Hwf out. subst out. unfold Convert.rewriteDefault.
  rewrite spreadInto_empty by assumption.
  split; [apply obj_get_put_same|]. split.
  - intros k Hk. rewrite obj_get_put_other by assumption.
    apply obj_get_ownEntries.
  - intros m k Hm Hn Hs. rewrite obj_get_put_same in Hm.
    inversion Hm; subst m. simpl.
    apply str_eqb_neq in Hn, Hs. now rewrite Hn, Hs.
Qed.

Lemma rewriteDefault_frame_witness :
  let doc :=
    [ (lit "apiVersion", YString (lit "cilium.io/v2"));
      (lit "kind", YString (lit "CiliumNetworkPolicy"));
      (lit "metadata", YMap [ (lit "name", YString (lit "allow-dns"));
                              (lit "namespace", YString (lit "default")) ]);
      (lit "spec", YMap [ (lit "endpointSelector", YMap []) ]) ] in
  obj_get (lit "spec") (Convert.rewriteDefault (lit "billing") doc)
  = Some (YMap [ (lit "endpointSelector", YMap []) ]).
Proof.
  intros doc.
  destruct (@rewriteDefault_frame (lit "billing") doc) as (_ & Hframe & _).
  - unfold wellFormed. simpl.
    repeat (constructor; [simpl; intuition discriminate|]). constructor.
  - rewrite Hframe; [reflexivity | discriminate].
Defined.

(** C4, as stated, fails: a baseline document whose [metadata] also
    holds [labels] is emitted without them. *)
Lemma metadata_labels_dropped :
  let doc :=
    [ (lit "apiVersion", YString (lit "cilium.io/v2"));
      (lit "kind", YString (lit "CiliumNetworkPolicy"));
      (lit "metadata",
       YMap [ (lit "name", YString (lit "allow-dns"));
              (lit "namespace", YString (lit "default"));
              (lit "labels", YMap [ (lit "team", YString (lit "net")) ]) ]);
      (lit "spec", YMap [ (lit "endpointSelector", YMap []) ]) ] in
  exists m m',
    obj_get (lit "metadata") doc = Some m /\
    obj_get (lit "metadata") (Convert.rewriteDefault (lit "billing") doc)
    = Some m' /\
    yamlField (lit "labels") m
    = Some (YMap [ (lit "team", YString (lit "net")) ]) /\
    yamlField (lit "labels") m' = None.
Proof.
  intros doc. eexists. eexists.
  split; [vm_compute; reflexivity|].
  split; [vm_compute; reflexivity|].
  split; vm_compute; reflexivity.
Qed.

(* ================================================================== *)
(** ** Label parsing *)

Lemma splitChar_nonempty c s : splitChar c s <> [].
Proof.
  destruct s as [|x s]; simpl; [discriminate|].
  destruct (x =? c); [discriminate|].
  destruct (splitChar c s); discriminate.
Qed.

Lemma splitChar_first c (a b : jsstring) :
  ~ In c a -> splitChar c (a ++ c :: b) = a :: splitChar c b.
Proof.
  induction a as [|x a IH]; simpl; intros H.
  - now rewrite N.eqb_refl.
  - destruct (x =? c) eqn:E.
    + apply N.eqb_eq in E. subst. exfalso. apply H. now left.
    + rewrite IH; auto.
Qed.

Lemma join_cons (sep x : jsstring) (l : list jsstring) :
  l <> [] -> join sep (x :: l) = x ++ sep ++ join sep l.
Proof. destruct l; [congruence | reflexivity]. Qed.

(** Joining the pieces with the separator gives the string back. *)
Lemma join_splitChar c s : join [c] (splitChar c s) = s.
Proof.
  induction s as [|x s IH]; simpl; auto.
  destruct (x =? c) eqn:E.
  - apply N.eqb_eq in E. subst.
    rewrite join_cons by apply splitChar_nonempty. simpl. now rewrite IH.
  - destruct (splitChar c s) as [|f fs] eqn:Es.
    + now destruct (splitChar_nonempty Es).
    + destruct fs as [|g fs].
      * simpl in *. now subst.
      * rewrite join_cons by discriminate.
        rewrite join_cons in IH by discriminate.
        rewrite <- IH. reflexivity.
Qed.

(** A kept segment is cut at its first colon; both sides are trimmed. *)
Lemma labelPair_first_colon (a b : jsstring) :
  ~ In ch_colon a -> labelPair (a ++ ch_colon :: b) = (trim a, trim b).
Proof.
  intros H. unfold labelPair. rewrite splitChar_first by assumption.
  now rewrite join_splitChar.
Qed.

(** The object [splitLabels] returns, looked up at a key: [__proto__]
    is never an own property; any other key has the value of the last
    kept segment with that key. *)
Lemma fold_assign_labels k (segs : list jsstring) : forall o,
  obj_get k (fold_left (fun o p => let (k, v) := labelPair p in assign k v o)
                       segs o) =
  if str_eqb k (lit "__proto__") then obj_get k o
  else match obj_get k (rev (map labelPair segs)) with
       | Some v => Some v
       | None => obj_get k o
       end.
Proof.
  induction segs as [|p segs IH]; intros o; simpl.
  - now destruct (str_eqb k (lit "__proto__")).
  - rewrite IH. destruct (str_eqb k (lit "__proto__")) eqn:Ep.
    + destruct (labelPair p) as [kp vp]. unfold assign.
      destruct (str_eqb kp (lit "__proto__")) eqn:Ekp; auto.
      apply obj_get_put_other. apply str_eqb_eq in Ep. apply str_eqb_neq in Ekp.
      congruence.
    + rewrite obj_get_app.
      destruct (obj_get k (rev (map labelPair segs))); auto.
      destruct (labelPair p) as [kp vp]. simpl.
      destruct (str_eqb k kp) eqn:Ek.
      * apply str_eqb_eq in Ek. subst kp. apply obj_get_assign_same.
        now apply str_eqb_neq.
      * apply obj_get_assign_other. now apply str_eqb_neq.
Qed.

Lemma splitLabels_lookup raw k :
  obj_get k (splitLabels raw) =
  if str_eqb k (lit "__proto__") then None
  else obj_get k (rev (map labelPair (labelSegments raw))).
Proof.
  unfold splitLabels. rewrite fold_assign_labels. simpl.
  destruct (str_eqb k (lit "__proto__")); auto.
  now destruct (obj_get k (rev (map labelPair (labelSegments raw)))).
Qed.

(** C9, the code at a failing input: the cell [__proto__:x] has one kept
    segment, cut into the key [__proto__] and the value [x], yet the
    object returned has no property at all, also when the key repeats;
    next to another label the segment is lost alone.  The cell [key:a:b] maps [key] to [a:b], and
    of two segments with one key the last gives the value. *)
Theorem splitLabels_proto_key :
  labelSegments (lit "__proto__:x") = [lit "__proto__:x"] /\
  labelPair (lit "__proto__:x") = (lit "__proto__", lit "x") /\
  splitLabels (lit "__proto__:x") = [] /\
  splitLabels (lit "__proto__:a,__proto__:b") = [] /\
  splitLabels (lit "app:web,__proto__:x") = [(lit "app", lit "web")] /\
  splitLabels (lit "key:a:b") = [(lit "key", lit "a:b")] /\
  splitLabels (lit "app:web, app : db") = [(lit "app", lit "db")].
Proof. repeat split; vm_compute; reflexivity. Qed.

(* ================================================================== *)
(** ** Row extraction *)

Lemma namespace_extractRows rows : forall i st st',
  Convert.extractRows i rows st = inr st' -> namespace st' = namespace st.
Proof.
  induction rows as [|row rows IH]; intros i st st' H; simpl in H.
  - now inversion H.
  - destruct (negb (Convert.hasData row)).
    + apply IH in H. exact H.
    + destruct (Convert.pushGroup _ _ _); [|discriminate].
      apply IH in H. exact H.
Qed.

(** The loop over the rows throws nothing but the error of [push]. *)
Lemma extractRows_error rows : forall i st x,
  Convert.extractRows i rows st = inl x -> x = TypeErrorPush.
Proof.
  induction rows as [|row rows IH]; intros i st x H; simpl in H.
  - discriminate.
  - destruct (negb (Convert.hasData row)); [now apply IH in H|].
    destruct (Convert.pushGroup _ _ _); [now apply IH in H|].
    now inversion H.
Qed.

Lemma after_first_colon (a b : jsstring) :
  ~ In ch_colon a ->
  join [ch_colon] (tl (splitChar ch_colon (a ++ ch_colon :: b))) = b.
Proof.
  intros H. rewrite splitChar_first by assumption. simpl.
  apply join_splitChar.
Qed.

Lemma parseNamespace_header rows :
  Convert.parseNamespace rows =
  if negb (truthy (headerCell rows)) then inl NamespaceNotFound
  else if negb (includes ch_colon (trim (cellString (headerCell rows))))
       then inl NamespaceBadFormat
  else inr (trim (join [ch_colon]
                   (tl (splitChar ch_colon
                          (trim (cellString (headerCell rows))))))).
Proof.
  unfold Convert.parseNamespace, headerCell.
  destruct (nth_error rows 1); reflexivity.
Qed.

(** C10: the header of row 2 in [parseExcel] of [convert.js].  A header
    cell that is absent (or otherwise falsy) throws the not-found error;
    one whose trimmed text has no colon throws the bad-format error; any
    header whose trimmed text is some label, a colon and a rest is
    accepted whatever the label is, never throws one of the two header
    errors, and the namespace of every result is the rest, trimmed; so
    the header [ns:a:b] gives the namespace [a:b]. *)
Theorem parseExcel_namespace rows :
  let header := headerCell rows in
  let nsRaw := trim (cellString header) in
  (truthy header = false -> Convert.parseExcel rows = inl NamespaceNotFound) /\
  (truthy header = true -> ~ In ch_colon nsRaw ->
     Convert.parseExcel rows = inl NamespaceBadFormat) /\
  (forall label rest,
     truthy header = true -> ~ In ch_colon label ->
     nsRaw = label ++ ch_colon :: rest ->
     Convert.parseNamespace rows = inr (trim rest) /\
     Convert.parseExcel rows <> inl NamespaceNotFound /\
     Convert.parseExcel rows <> inl NamespaceBadFormat /\
     (forall res, Convert.parseExcel rows = inr res ->
        namespace res = trim rest)) /\
  (Convert.parseExcel rows = inl NamespaceNotFound \/
   Convert.parseExcel rows = inl NamespaceBadFormat ->
   truthy header = false \/ ~ In ch_colon nsRaw) /\
  (forall title,
     Convert.parseExcel [title; [CString (lit "ns:a:b")]]
     = inr (mkParsed (lit "a:b") [] [] [])).
Proof.
  intros header nsRaw. subst header nsRaw.
  unfold Convert.parseExcel. rewrite parseNamespace_header.
  split; [intros ->; reflexivity|].
  split.
  { intros -> Hno. simpl.
    destruct (includes ch_colon _) eqn:E; [|reflexivity].
    apply includes_In in E. contradiction. }
  split.
  { intros label rest -> Hlab Hraw. simpl.
    assert (Hinc : includes ch_colon (trim (cellString (headerCell rows))) = true).
    { apply includes_In. rewrite Hraw. apply in_or_app. right. now left. }
    rewrite Hinc. simpl. rewrite Hraw, after_first_colon by assumption.
    split; [reflexivity|].
    split; [intros H; apply extractRows_error in H; discriminate|].
    split; [intros H; apply extractRows_error in H; discriminate|].
    intros res H. now apply namespace_extractRows in H. }
  split.
  { destruct (truthy (headerCell rows)); simpl; [|now left].
    destruct (includes ch_colon _) eqn:E; simpl.
    - intros [H | H]; apply extractRows_error in H; discriminate.
    - intros _. right. intros Hin. apply includes_In in Hin. congruence. }
  intros title. vm_compute. reflexivity.
Qed.

Lemma parseExcel_namespace_witness :
  let table := [ [CString (lit "rules")];
                 [CString (lit " tenant : billing ")] ] in
  Convert.parseNamespace table = inr (lit "billing").
Proof.
  intros table.
  destruct (parseExcel_namespace table) as (_ & _ & Hok & _).
  destruct (Hok (lit "tenant ") (lit " billing")) as (Hns & _).
  - reflexivity.
  - vm_compute. intuition discriminate.
  - reflexivity.
  - exact Hns.
Defined.

Lemma trim_cellText c :
  truthy c && nonEmpty (trim (cellString c)) = nonEmpty (trim (cellText c)).
Proof. unfold cellText. now destruct (truthy c). Qed.

Lemma In_trimStart c s : In c (trimStart s) -> In c s.
Proof.
  induction s as [|x s IH]; simpl; auto.
  destruct (isWhiteSpace x); simpl; auto.
Qed.

Lemma In_trim c s : In c (trim s) -> In c s.
Proof.
  unfold trim, trimEnd. intros H. apply in_rev in H.
  apply In_trimStart in H. apply in_rev in H. now apply In_trimStart.
Qed.

Lemma In_trimStart_keep c s :
  In c s -> isWhiteSpace c = false -> In c (trimStart s).
Proof.
  induction s as [|x s IH]; simpl; auto.
  intros [-> | H] Hc.
  - rewrite Hc. now left.
  - destruct (isWhiteSpace x); [auto | now right].
Qed.

Lemma In_trim_keep c s : In c s -> isWhiteSpace c = false -> In c (trim s).
Proof.
  intros H Hc. unfold trim, trimEnd. apply in_rev.
  rewrite rev_involutive.
  apply In_trimStart_keep; [|assumption].
  apply -> in_rev. now apply In_trimStart_keep.
Qed.

Lemma uint_head d :
  d <> Decimal.Nil ->
  exists c s, NilEmpty.string_of_uint d = String c s /\
              isWhiteSpace (N_of_ascii c) = false.
Proof.
  destruct d; intros H; [congruence|..]; simpl; eexists; eexists;
    (split; [reflexivity | vm_compute; reflexivity]).
Qed.

(** The text of a number has a character that is not white space, so it
    is not empty once trimmed. *)
Lemma numberToString_nonblank z : trim (numberToString z) <> [].
Proof.
  assert (H : exists c, In c (numberToString z) /\ isWhiteSpace c = false).
  { unfold numberToString. destruct z as [|p|p]; simpl.
    - exists 48. split; [now left | reflexivity].
    - destruct (uint_head (DecimalPos.Unsigned.to_uint_nonnil p))
        as (c & s & -> & Hc).
      exists (N_of_ascii c). split; [now left | exact Hc].
    - exists 45. split; [now left | reflexivity]. }
  destruct H as (c & Hin & Hc). intros E.
  pose proof (In_trim_keep Hin Hc) as Hk. now rewrite E in Hk.
Qed.

Lemma withoutContent_text c :
  nonEmpty (trim (cellText c)) = false <-> withoutContent c.
Proof.
  rewrite nonEmpty_false. unfold cellText.
  destruct c as [|s|z|[|]]; simpl.
  - tauto.
  - destruct s as [|a s]; simpl; [tauto | reflexivity].
  - destruct (Z.eqb_spec z 0) as [->|Hz]; simpl; [tauto|].
    split; [intros H; now apply numberToString_nonblank in H | congruence].
  - split; [vm_compute; discriminate | discriminate].
  - tauto.
Qed.

Lemma hasData_content row :
  Convert.hasData row
  = existsb (fun c => nonEmpty (trim (cellText c))) (contentCells row).
Proof.
  unfold Convert.hasData, contentCells, rowCell.
  destruct row as [|c0 [|c1 [|c2 [|c3 [|c4 [|c5 r]]]]]]; simpl;
    rewrite ?trim_cellText, ?orb_false_r; reflexivity.
Qed.

(** A row is skipped exactly when its five content cells read as empty. *)
Lemma hasData_blank row : Convert.hasData row = false <-> blankRow row.
Proof.
  rewrite hasData_content. unfold blankRow.
  rewrite <- not_true_iff_false, existsb_exists, Forall_forall. split.
  - intros H c Hin. apply withoutContent_text. apply not_true_iff_false.
    intros Hc. apply H. now exists c.
  - intros H (c & Hin & Hc). apply H, withoutContent_text in Hin.
    rewrite Hin in Hc. discriminate.
Qed.

Lemma indexFrom_ge rows : forall i j row,
  In (j, row) (indexFrom i rows) -> i <= j.
Proof.
  induction rows as [|r rows IH]; intros i j row H; simpl in H; [contradiction|].
  destruct H as [H | H].
  - inversion H. lia.
  - apply IH in H. lia.
Qed.

Lemma indexFrom_functional rows : forall i j row row',
  In (j, row) (indexFrom i rows) -> In (j, row') (indexFrom i rows) ->
  row = row'.
Proof.
  induction rows as [|r rows IH]; intros i j row row' H H'; simpl in *;
    [contradiction|].
  destruct H as [H | H]; destruct H' as [H' | H'].
  - congruence.
  - inversion H; subst. apply indexFrom_ge in H'. lia.
  - inversion H'; subst. apply indexFrom_ge in H. lia.
  - eapply IH; eassumption.
Qed.

(** What the loop adds to the entries and to the defects. *)
Lemma extractRows_lists rows : forall i st st',
  Convert.extractRows i rows st = inr st' ->
  let data := filter (fun ir => Convert.hasData (snd ir)) (indexFrom i rows) in
  entries st'
  = entries st ++ map (fun ir => Convert.rowEntry (fst ir) (snd ir)) data /\
  missingNums st'
  = missingNums st
    ++ map (fun ir => fst ir + 1)
           (filter (fun ir => negb (truthy (rowCell (snd ir) 0))) data).
Proof.
  induction rows as [|row rows IH]; intros i st st' H; simpl in H.
  - inversion H; subst. simpl. now rewrite !app_nil_r.
  - simpl. destruct (Convert.hasData row) eqn:Ed; simpl in H.
    + destruct (Convert.pushGroup _ _ _) as [g|]; [|discriminate].
      apply IH in H. simpl in H. destruct H as [He Hm]. simpl.
      rewrite He, Hm, <- app_assoc. split; [reflexivity|].
      destruct (truthy (rowCell row 0)); simpl; [reflexivity|].
      now rewrite <- app_assoc.
    + apply IH in H. simpl in H. exact H.
Qed.

(** The loop returns when no row with data has a group key that names a
    property inherited from [Object.prototype]. *)
Lemma extractRows_returns rows : forall i st,
  (forall row, In row rows -> Convert.hasData row = true ->
     isProtoName (Convert.rowGroupKey row) = false) ->
  exists st', Convert.extractRows i rows st = inr st'.
Proof.
  induction rows as [|row rows IH]; intros i st H; simpl.
  - eauto.
  - destruct (Convert.hasData row) eqn:Ed; simpl.
    + unfold Convert.pushGroup.
      rewrite (H row (or_introl eq_refl) Ed).
      destruct (obj_get _ _); apply IH; intros r Hr; apply H; now right.
    + apply IH. intros r Hr. apply H. now right.
Qed.

Lemma rowNum_rowEntry i row : rowNum (Convert.rowEntry i row) = i + 1.
Proof.
  unfold Convert.rowEntry.
  now destruct (str_eqb (trim (toLowerCase (cellText (rowCell row 3))))
                        (lit "ingress")).
Qed.

(** C7, as the code has it: the rows [parseExcel] of [convert.js] keeps.
    A rule row (index 2 and on) is skipped exactly when each of its five
    content cells (protocol, group key, direction, counterpart, port) is
    without content: empty after trimming, or the number 0, or [false];
    a skipped row leaves no entry and no defect.
    A row that is not blank gives its entry, numbered by its 1-based
    position, and when its rule-number cell is absent (or otherwise
    falsy) its position is also in the defect list.  The extraction
    returns whenever the header is accepted and no kept row has a group
    key naming a property inherited from [Object.prototype]. *)
Theorem parseExcel_rows rows :
  (forall row, Convert.hasData row = false <-> blankRow row) /\
  (forall c, withoutContent c <->
             emptyAfterTrim c \/ c = CNumber 0 \/ c = CBool false) /\
  (forall ns, Convert.parseNamespace rows = inr ns ->
     (forall ir, In ir (dataRows rows) ->
        isProtoName (Convert.rowGroupKey (snd ir)) = false) ->
     exists res, Convert.parseExcel rows = inr res) /\
  (forall res, Convert.parseExcel rows = inr res ->
     entries res
     = map (fun ir => Convert.rowEntry (fst ir) (snd ir)) (dataRows rows) /\
     missingNums res
     = map (fun ir => fst ir + 1)
           (filter (fun ir => negb (truthy (rowCell (snd ir) 0)))
                   (dataRows rows)) /\
     forall i row, In (i, row) (indexFrom 2 (skipn 2 rows)) ->
       (blankRow row ->
          ~ In (i + 1) (map rowNum (entries res)) /\
          ~ In (i + 1) (missingNums res)) /\
       (~ blankRow row ->
          In (Convert.rowEntry i row) (entries res) /\
          rowNum (Convert.rowEntry i row) = i + 1 /\
          (truthy (rowCell row 0) = false -> In (i + 1) (missingNums res)))).
Proof.
  split; [apply hasData_blank|]. split.
  { intros [|s|z|[|]]; simpl.
    - tauto.
    - split; [tauto|]. intros [H | [H | H]]; [exact H | discriminate..].
    - split.
      + intros ->. right. now left.
      + intros [H | [H | H]];
          [now apply numberToString_nonblank in H | congruence | discriminate].
    - split; [discriminate|].
      intros [H | [H | H]]; [vm_compute in H|..]; discriminate.
    - split; [tauto | reflexivity]. }
  split.
  { intros ns Hns Hkeys. unfold Convert.parseExcel. rewrite Hns.
    apply extractRows_returns. intros row Hin Hd.
    assert (Hex : exists i, In (i, row) (indexFrom 2 (skipn 2 rows))).
    { clear - Hin. generalize (2 : N).
      induction (skipn 2 rows) as [|r l IH]; intros i; simpl in *;
        [contradiction|].
      destruct Hin as [-> | Hin]; [exists i; now left|].
      destruct (IH Hin (i + 1)) as [j Hj]. exists j. now right. }
    destruct Hex as [i Hi].
    apply (Hkeys (i, row)). unfold dataRows. apply filter_In. now split. }
  intros res Hres. unfold Convert.parseExcel in Hres.
  destruct (Convert.parseNamespace rows) as [x|ns]; [discriminate|].
  apply extractRows_lists in Hres. simpl in Hres.
  destruct Hres as [He Hm]. fold (dataRows rows) in He, Hm.
  split; [exact He|]. split; [exact Hm|].
  intros i row Hin. split.
  - intros Hblank. apply hasData_blank in Hblank.
    assert (Hno : forall ir, In ir (dataRows rows) -> fst ir + 1 <> i + 1).
    { intros [j r] Hj Heq. simpl in Heq. assert (j = i) by lia. subst j.
      unfold dataRows in Hj. apply filter_In in Hj. destruct Hj as [Hj Hd].
      simpl in Hd. rewrite (indexFrom_functional Hin Hj) in Hblank.
      congruence. }
    split.
    + rewrite He, map_map. intros H. apply in_map_iff in H.
      destruct H as (ir & Heq & Hir). rewrite rowNum_rowEntry in Heq.
      now apply (Hno ir).
    + rewrite Hm. intros H. apply in_map_iff in H.
      destruct H as (ir & Heq & Hir). apply filter_In in Hir.
      now apply (Hno ir).
  - intros Hnb.
    assert (Hd : Convert.hasData row = true).
    { destruct (Convert.hasData row) eqn:E; [reflexivity|].
      now apply hasData_blank in E. }
    assert (Hdata : In (i, row) (dataRows rows)).
    { unfold dataRows. apply filter_In. now split. }
    split; [|split].
    + rewrite He.
      apply (in_map (fun ir => Convert.rowEntry (fst ir) (snd ir)) _ _ Hdata).
    + apply rowNum_rowEntry.
    + intros Hnum. rewrite Hm.
      apply (in_map (fun ir => fst ir + 1) _ (i, row)).
      apply filter_In. split; [assumption|]. simpl. now rewrite Hnum.
Qed.

Lemma parseExcel_rows_witness :
  let table :=
    [ [CString (lit "rules")];
      [CString (lit "namespace:prod")];
      [CNumber 1; CString (lit "tcp"); CString (lit "app:web");
       CString (lit "ingress"); CString (lit "10.0.0.0/8"); CNumber 443];
      [CUndef; CString (lit "  "); CUndef; CString (lit "")];
      [CUndef; CString (lit "udp"); CString (lit "app:web");
       CString (lit "egress"); CString (lit "dns.example"); CNumber 53] ] in
  exists res,
    Convert.parseExcel table = inr res /\
    map rowNum (entries res) = [3; 5] /\
    missingNums res = [5].
Proof.
  intros table.
  destruct (parseExcel_rows table) as (_ & _ & Hret & Hrows).
  destruct (Hret (lit "prod")) as [res Hres].
  - reflexivity.
  - intros ir Hin. vm_compute in Hin.
    destruct Hin as [<- | [<- | []]]; reflexivity.
  - exists res. split; [exact Hres|].
    destruct (Hrows res Hres) as (He & Hm & _).
    rewrite He, Hm. split; reflexivity.
Defined.


(** C7, as stated, fails: in the row [7, , , , , 0] the port cell is not
    empty after trimming, its text is [0], and yet the row is skipped:
    it leaves no entry. *)
Lemma zero_cell_row_skipped :
  let row := [CNumber 7; CUndef; CUndef; CUndef; CUndef; CNumber 0] in
  let table := [ [CString (lit "rules")];
                 [CString (lit "namespace:prod")];
                 row ] in
  trim (cellString (rowCell row 5)) = lit "0" /\
  ~ Forall emptyAfterTrim (contentCells row) /\
  Convert.hasData row = false /\
  Convert.parseExcel table = inr (mkParsed (lit "prod") [] [] []).
Proof.
  intros row table. split; [reflexivity|]. split.
  - intros H. rewrite Forall_forall in H.
    assert (Hin : In (CNumber 0) (contentCells row))
      by (do 4 right; left; reflexivity).
    apply H in Hin. vm_compute in Hin. discriminate.
  - split; vm_compute; reflexivity.
Qed.

(* ================================================================== *)
(** ** Cell classification *)

Lemma Digits_no (c : code_unit) (s : jsstring) :
  isDigit c = false -> Digits s -> ~ In c s.
Proof.
  intros Hc [_ Hd] Hin. rewrite forallb_forall in Hd.
  apply Hd in Hin. congruence.
Qed.

Lemma BareQuad_no_slash s : BareQuad s -> includes ch_slash s = false.
Proof.
  intros (a & b & c & d & Ha & Hb & Hc & Hd & ->).
  apply not_true_iff_false. intros H. apply includes_In in H.
  assert (Hs : isDigit ch_slash = false) by reflexivity.
  apply in_app_or in H. destruct H as [H | [H | H]];
    [exact (Digits_no Hs Ha H) | cbv in H; discriminate |].
  apply in_app_or in H. destruct H as [H | [H | H]];
    [exact (Digits_no Hs Hb H) | cbv in H; discriminate |].
  apply in_app_or in H. destruct H as [H | [H | H]];
    [exact (Digits_no Hs Hc H) | cbv in H; discriminate |].
  exact (Digits_no Hs Hd H).
Qed.

Lemma PrefixedQuad_slash s : PrefixedQuad s -> includes ch_slash s = true.
Proof.
  intros (q & n & _ & _ & ->). apply includes_In, in_or_app. right. now left.
Qed.

Lemma QuadList_test its :
  forallb (matches re_quad_opt_prefix) its && (1 <? List.length its)%nat = true
  <-> QuadList its.
Proof.
  unfold QuadList. rewrite andb_true_iff, Nat.ltb_lt, forallb_forall, Forall_forall.
  split; intros [H1 H2].
  - split; [assumption|]. intros it Hin. now apply matches_quad_opt_prefix, H1.
  - split; [|assumption]. intros it Hin. now apply matches_quad_opt_prefix, H2.
Qed.

Lemma normalize_items its :
  Forall (fun it => BareQuad it \/ PrefixedQuad it) its ->
  Forall2 Normalized its
    (map (fun it => if includes ch_slash it then it else it ++ lit "/32") its).
Proof.
  induction 1 as [|it its Hit _ IH]; simpl; constructor; auto.
  destruct Hit as [Hb | Hp].
  - left. rewrite (BareQuad_no_slash Hb). auto.
  - right. rewrite (PrefixedQuad_slash Hp). auto.
Qed.

Lemma letter_dot_test v :
  search (RClass isLetter) v && includes ch_dot v = true
  <-> HasLetter v /\ In ch_dot v.
Proof.
  rewrite andb_true_iff, search_class, existsb_exists, includes_In.
  reflexivity.
Qed.

Lemma test_false (b : bool) (P : Prop) : (b = true <-> P) -> ~ P -> b = false.
Proof. intros H Hn. destruct b; [now destruct Hn; apply H | reflexivity]. Qed.

Lemma BareQuad_not_prefixed s : BareQuad s -> ~ PrefixedQuad s.
Proof.
  intros Hb Hp. apply BareQuad_no_slash in Hb. apply PrefixedQuad_slash in Hp.
  congruence.
Qed.




(* ================================================================== *)
(** ** Further properties: trimming *)

Lemma trimStart_split s :
  exists w, s = w ++ trimStart s /\ forallb isWhiteSpace w = true.
Proof.
  induction s as [|c s (w & Hs & Hw)].
  - exists []. auto.
  - simpl. destruct (isWhiteSpace c) eqn:E.
    + exists (c :: w). simpl. rewrite E, Hw. split; [now f_equal | reflexivity].
    + exists []. auto.
Qed.

Lemma noLeadingWs_trimStart s : noLeadingWs (trimStart s).
Proof.
  induction s as [|c s IH]; simpl; auto.
  destruct (isWhiteSpace c) eqn:E; simpl; auto.
Qed.

Lemma trimStart_id s : noLeadingWs s -> trimStart s = s.
Proof. destruct s as [|c s]; simpl; auto. now intros ->. Qed.

Lemma trimEnd_split s :
  exists w, s = trimEnd s ++ w /\ forallb isWhiteSpace w = true.
Proof.
  unfold trimEnd. destruct (trimStart_split (rev s)) as (w & Hs & Hw).
  exists (rev w). split.
  - rewrite <- rev_app_distr, <- Hs. now rewrite rev_involutive.
  - rewrite forallb_forall in *. intros c Hc. apply Hw. now apply in_rev.
Qed.

Lemma noLeadingWs_prefix (a b : jsstring) :
  noLeadingWs (a ++ b) -> a <> [] -> noLeadingWs a.
Proof. destruct a; simpl; [congruence | auto]. Qed.

Lemma Trimmed_trim s : Trimmed (trim s).
Proof.
  unfold Trimmed, trim. split.
  - destruct (trimEnd (trimStart s)) as [|c u] eqn:E; [exact I|].
    destruct (trimEnd_split (trimStart s)) as (w & Hs & _).
    rewrite E in Hs. pose proof (noLeadingWs_trimStart s) as H.
    rewrite Hs in H. exact H.
  - unfold trimEnd. rewrite rev_involutive. apply noLeadingWs_trimStart.
Qed.

Lemma trim_Trimmed s : Trimmed s -> trim s = s.
Proof.
  intros [H1 H2]. unfold trim, trimEnd.
  rewrite (trimStart_id H1), (trimStart_id H2). apply rev_involutive.
Qed.

Lemma trim_idempotent s : trim (trim s) = trim s.
Proof. apply trim_Trimmed, Trimmed_trim. Qed.

(** A word joined to another by a character that is not white space is
    trimmed when both are. *)
Lemma Trimmed_join (a b : jsstring) c :
  isWhiteSpace c = false -> Trimmed a -> Trimmed b -> Trimmed (a ++ c :: b).
Proof.
  intros Hc [Ha _] [_ Hb]. split.
  - destruct a; simpl in *; auto.
  - rewrite rev_app_distr. simpl. rewrite <- app_assoc. simpl.
    destruct (rev b); simpl in *; auto.
Qed.

(* ================================================================== *)
(** ** Further properties: label parsing *)

Lemma keys_obj_put (V : Type) (o : obj V) k v :
  map fst (obj_put k v o)
  = if existsb (str_eqb k) (map fst o) then map fst o else map fst o ++ [k].
Proof.
  induction o as [|[k0 v0] o IH]; simpl; auto.
  destruct (str_eqb k k0) eqn:E; simpl; auto.
  rewrite IH. now destruct (existsb (str_eqb k) (map fst o)).
Qed.

Lemma wellFormed_obj_put (V : Type) (o : obj V) k v :
  wellFormed o -> wellFormed (obj_put k v o).
Proof.
  unfold wellFormed. intros H. rewrite keys_obj_put.
  destruct (existsb (str_eqb k) (map fst o)) eqn:E; auto.
  apply NoDup_app; auto.
  - repeat constructor. simpl. tauto.
  - intros x Hx [Heq | []]. subst x.
    assert (existsb (str_eqb k) (map fst o) = true); [|congruence].
    apply existsb_exists. exists k. split; [assumption | apply str_eqb_refl].
Qed.

Lemma wellFormed_assign (V : Type) (o : obj V) k v :
  wellFormed o -> wellFormed (assign k v o).
Proof.
  unfold assign. destruct (str_eqb k (lit "__proto__")); auto.
  apply wellFormed_obj_put.
Qed.

Lemma In_obj_put (V : Type) (o : obj V) k v x :
  In x (obj_put k v o) -> x = (k, v) \/ In x o.
Proof.
  induction o as [|[k0 v0] o IH]; simpl.
  - intros [<- | []]. now left.
  - destruct (str_eqb k k0) eqn:E; simpl.
    + apply str_eqb_eq in E. subst. intros [<- | H]; auto.
    + intros [<- | H]; auto. destruct (IH H); auto.
Qed.

Lemma labelPair_Trimmed p : Trimmed (fst (labelPair p)) /\ Trimmed (snd (labelPair p)).
Proof.
  unfold labelPair. destruct (splitChar ch_colon p); simpl.
  - split; split; exact I.
  - split; apply Trimmed_trim.
Qed.

Lemma fold_assign_invariant (P : jsstring * jsstring -> Prop) (segs : list jsstring) :
  (forall p, In p segs -> fst (labelPair p) <> lit "__proto__" -> P (labelPair p)) ->
  forall o, wellFormed o -> Forall P o ->
  let r := fold_left (fun o p => let (k, v) := labelPair p in assign k v o)
                     segs o in
  wellFormed r /\ Forall P r.
Proof.
  induction segs as [|p segs IH]; intros HP o Hwf Ho; simpl; auto.
  apply IH.
  - intros q Hq. apply HP. now right.
  - destruct (labelPair p). now apply wellFormed_assign.
  - specialize (HP p (or_introl eq_refl)).
    destruct (labelPair p) as [k v] eqn:E. unfold assign.
    destruct (str_eqb k (lit "__proto__")) eqn:Ek; auto.
    apply str_eqb_neq in Ek. apply Forall_forall. intros x Hx.
    apply In_obj_put in Hx. destruct Hx as [-> | Hx]; auto.
    rewrite Forall_forall in Ho. auto.
Qed.

(** X1: what [splitLabels] returns is an object: no key occurs twice.
    Each of its properties is the key and the value of a kept segment,
    both without white space around them, and the key is never
    [__proto__]; looked up at a key other than [__proto__] it gives the
    value of the last kept segment with that key, and nothing when there
    is none. *)
Theorem splitLabels_object raw :
  wellFormed (splitLabels raw) /\
  (forall k v, In (k, v) (splitLabels raw) ->
     Trimmed k /\ Trimmed v /\ k <> lit "__proto__" /\
     exists seg, In seg (labelSegments raw) /\ labelPair seg = (k, v)) /\
  (forall k, k <> lit "__proto__" ->
     obj_get k (splitLabels raw)
     = obj_get k (rev (map labelPair (labelSegments raw)))) /\
  obj_get (lit "__proto__") (splitLabels raw) = None.
Proof.
  set (P := fun kv : jsstring * jsstring =>
              Trimmed (fst kv) /\ Trimmed (snd kv) /\
              fst kv <> lit "__proto__" /\
              exists seg, In seg (labelSegments raw) /\ labelPair seg = kv).
  assert (Hsegs : forall p, In p (labelSegments raw) ->
            fst (labelPair p) <> lit "__proto__" -> P (labelPair p)).
  { intros p Hin Hne. unfold P. destruct (labelPair_Trimmed p) as [H1 H2].
    split; [exact H1|]. split; [exact H2|]. split; [exact Hne|].
    exists p. split; [assumption | reflexivity]. }
  pose proof (fold_assign_invariant Hsegs (o := [])
                (NoDup_nil _) (Forall_nil _)) as H.
  cbv zeta in H. fold (splitLabels raw) in H. destruct H as [Hwf HP].
  split; [exact Hwf|]. split.
  - intros k v Hin. rewrite Forall_forall in HP. exact (HP (k, v) Hin).
  - split.
    + intros k Hk. rewrite splitLabels_lookup.
      apply str_eqb_neq in Hk. now rewrite Hk.
    + now rewrite splitLabels_lookup.
Qed.

Lemma splitLabels_object_witness :
  obj_get (lit "app") (splitLabels (lit "app:web, env:prod ,app: db"))
  = Some (lit "db").
Proof.
  destruct (splitLabels_object (lit "app:web, env:prod ,app: db"))
    as (_ & _ & Hlookup & _).
  rewrite Hlookup; [reflexivity | discriminate].
Defined.

Lemma labelPair_writeLabel kv : cleanLabel kv -> labelPair (writeLabel kv) = kv.
Proof.
  intros (Hk & Hv & _ & _ & Hcolon & _). unfold writeLabel.
  rewrite labelPair_first_colon by assumption.
  rewrite (trim_Trimmed Hk), (trim_Trimmed Hv). now destruct kv.
Qed.

Lemma fold_assign_fresh (pairs : list (jsstring * jsstring)) : forall o,
  Forall cleanLabel pairs -> wellFormed (o ++ pairs) ->
  fold_left (fun o p => let (k, v) := labelPair p in assign k v o)
            (map writeLabel pairs) o = o ++ pairs.
Proof.
  induction pairs as [|[k v] pairs IH]; intros o Hall Hwf; simpl.
  - now rewrite app_nil_r.
  - inversion Hall as [|? ? Hkv Hrest]; subst.
    rewrite (labelPair_writeLabel Hkv).
    destruct Hkv as (_ & _ & _ & _ & _ & Hproto). simpl in Hproto.
    unfold assign. apply str_eqb_neq in Hproto. rewrite Hproto.
    unfold wellFormed in Hwf. rewrite obj_put_fresh.
    + rewrite IH; [now rewrite <- app_assoc | assumption |].
      unfold wellFormed. now rewrite <- app_assoc.
    + rewrite map_app in Hwf. simpl in Hwf. apply NoDup_remove_2 in Hwf.
      intros Hin. apply Hwf, in_or_app. now left.
Qed.

Lemma labelSegments_write (pairs : list (jsstring * jsstring)) :
  Forall cleanLabel pairs ->
  labelSegments (join [ch_comma] (map writeLabel pairs)) = map writeLabel pairs.
Proof.
  intros Hall. unfold labelSegments, splitClass.
  destruct pairs as [|kv pairs]; [reflexivity|].
  rewrite splitRuns_join; [| reflexivity | discriminate |].
  - induction Hall as [|x l Hx _ IH]; [reflexivity|].
    simpl. destruct Hx as (Hk & Hv & _).
    assert (Hc : includes ch_colon (writeLabel x) = true).
    { apply includes_In, in_or_app. right. now left. }
    rewrite trim_Trimmed by (apply Trimmed_join; auto).
    rewrite Hc. now f_equal.
  - apply Forall_map. eapply Forall_impl; [|exact Hall].
    intros x (_ & _ & Hfk & Hfv & _). unfold writeLabel. split.
    + now destruct (fst x).
    + rewrite forallb_app. simpl. now rewrite Hfk, Hfv.
Qed.

Lemma ownEntries_no_index (V : Type) (o : obj V) :
  Forall (fun kv => isArrayIndex (fst kv) = false) o -> ownEntries o = o.
Proof.
  intros H. unfold ownEntries.
  rewrite (filter_none H). simpl.
  induction H as [|x l Hx _ IH]; simpl; [reflexivity|].
  rewrite Hx. simpl. now f_equal.
Qed.

(** X2: labels written one after the other as [key:value], joined by
    commas, are read back by [splitLabels] as they were written, when
    the labels are clean and no key is written twice: each written key
    looks up its written value and no other key is defined, so
    [Object.entries] of the result lists exactly the written labels; it
    lists them in the written order when no key is an array index (keys
    that are array indices come first, in numeric order, as for any
    object). *)
Theorem splitLabels_round_trip (pairs : list (jsstring * jsstring)) :
  Forall cleanLabel pairs -> NoDup (map fst pairs) ->
  let o := splitLabels (join [ch_comma] (map writeLabel pairs)) in
  (forall k, obj_get k o = obj_get k pairs) /\
  Permutation (ownEntries o) pairs /\
  (Forall (fun kv => isArrayIndex (fst kv) = false) pairs ->
     ownEntries o = pairs).
Proof.
  intros Hall Hnd o.
  assert (Ho : o = pairs).
  { subst o. unfold splitLabels.
    rewrite labelSegments_write by assumption.
    now rewrite fold_assign_fresh. }
  rewrite Ho. split; [reflexivity|]. split.
  - apply ownEntries_perm.
  - apply ownEntries_no_index.
Qed.

Lemma splitLabels_round_trip_witness :
  ownEntries (splitLabels (lit "app:ois-mntr,tier:webapi"))
  = [(lit "app", lit "ois-mntr"); (lit "tier", lit "webapi")] /\
  Permutation (ownEntries (splitLabels (lit "b:x,1:y")))
              [(lit "b", lit "x"); (lit "1", lit "y")] /\
  ownKeys (splitLabels (lit "b:x,1:y")) = [lit "1"; lit "b"].
Proof.
  split; [|split].
  - destruct (@splitLabels_round_trip
                [(lit "app", lit "ois-mntr"); (lit "tier", lit "webapi")])
      as (_ & _ & Hord).
    + constructor; [|constructor; [|constructor]];
        (unfold cleanLabel, Trimmed; repeat split; try reflexivity;
         vm_compute; intuition discriminate).
    + constructor; [|constructor; [|constructor]]; simpl;
        intuition discriminate.
    + apply Hord. repeat constructor.
  - destruct (@splitLabels_round_trip
                [(lit "b", lit "x"); (lit "1", lit "y")])
      as (_ & Hperm & _).
    + constructor; [|constructor; [|constructor]];
        (unfold cleanLabel, Trimmed; repeat split; try reflexivity;
         vm_compute; intuition discriminate).
    + constructor; [|constructor; [|constructor]]; simpl;
        intuition discriminate.
    + exact Hperm.
  - vm_compute. reflexivity.
Defined.

(* ================================================================== *)
(** ** Further properties: classification and translation *)

(** X3: the cascade of [detectType] in [convert.js], on the trimmed cell
    [v]: a dotted quad with a prefix is [Cidr v]; a bare dotted quad is
    [Cidr] of [v] and [/32]; any other text with a dot and no colon is
    [Fqdn] of [v] in lower case, letters or not; everything else is
    [Label v], the empty text included. *)
Theorem convert_detectType_cascade v0 :
  let v := trim v0 in
  (PrefixedQuad v -> Convert.detectType v0 = Convert.Cidr v) /\
  (BareQuad v -> Convert.detectType v0 = Convert.Cidr (v ++ lit "/32")) /\
  (~ PrefixedQuad v -> ~ BareQuad v -> In ch_dot v -> ~ In ch_colon v ->
     Convert.detectType v0 = Convert.Fqdn (toLowerCase v)) /\
  (~ PrefixedQuad v -> ~ BareQuad v -> ~ (In ch_dot v /\ ~ In ch_colon v) ->
     Convert.detectType v0 = Convert.Label v) /\
  (v = [] -> Convert.detectType v0 = Convert.Label []).
Proof.
  intros v. subst v. unfold Convert.detectType.
  split.
  { intros Hp. apply matches_quad_prefix in Hp. now rewrite Hp. }
  split.
  { intros Hb. rewrite (test_false (matches_quad_prefix _) (BareQuad_not_prefixed Hb)).
    apply matches_quad in Hb. now rewrite Hb. }
  split.
  { intros Hp Hb Hd Hc.
    rewrite (test_false (matches_quad_prefix _) Hp).
    rewrite (test_false (matches_quad _) Hb).
    apply includes_In in Hd. rewrite Hd.
    rewrite (test_false (includes_In _ _) Hc). reflexivity. }
  split.
  { intros Hp Hb Hn.
    rewrite (test_false (matches_quad_prefix _) Hp).
    rewrite (test_false (matches_quad _) Hb).
    destruct (includes ch_dot (trim v0)) eqn:Ed; [|reflexivity].
    destruct (includes ch_colon (trim v0)) eqn:Ec; [reflexivity|].
    exfalso. apply Hn. split.
    - now apply includes_In.
    - intros H. apply includes_In in H. congruence. }
  intros ->. reflexivity.
Qed.

Lemma convert_detectType_cascade_witness :
  Convert.detectType (lit " 10.0.0.1,10.0.0.2 ")
  = Convert.Fqdn (lit "10.0.0.1,10.0.0.2").
Proof.
  destruct (convert_detectType_cascade (lit " 10.0.0.1,10.0.0.2 "))
    as (_ & _ & Hfqdn & _).
  apply Hfqdn.
  - intros Hp. apply matches_quad_prefix in Hp. vm_compute in Hp. discriminate.
  - intros Hb. apply matches_quad in Hb. vm_compute in Hb. discriminate.
  - vm_compute. tauto.
  - vm_compute. intuition discriminate.
Defined.

Lemma readCell_one_kind cell :
  fst (Convert.readCell cell) = [] \/ snd (Convert.readCell cell) = [].
Proof.
  unfold Convert.readCell. destruct (nonEmpty cell); [|now left].
  destruct (search re_quad cell); [now left|].
  destruct (_ && _); now right.
Qed.

(** X4: a rule object of [makeRule] has at most one selector key, in
    [convert.js] and in [converter_03_07_2025.js]; the key is a [from...]
    key for a row whose direction is [ingress] and a [to...] key for any
    other row; and [convert.js] never emits an FQDN selector. *)
Theorem makeRule_one_selector e :
  (selectorCount (Convert.makeRule e) <= 1)%nat /\
  (selectorCount (Converter0307.makeRule e) <= 1)%nat /\
  (isIngress e = true ->
     forall r, r = Convert.makeRule e \/ r = Converter0307.makeRule e ->
     toEndpoints r = None /\ toFQDNs r = None /\ toCIDR r = None) /\
  (isIngress e = false ->
     forall r, r = Convert.makeRule e \/ r = Converter0307.makeRule e ->
     fromEndpoints r = None /\ fromFQDNs r = None /\ fromCIDR r = None) /\
  fromFQDNs (Convert.makeRule e) = None /\
  toFQDNs (Convert.makeRule e) = None.
Proof.
  assert (H1 : (selectorCount (Convert.makeRule e) <= 1)%nat).
  { unfold Convert.makeRule.
    destruct (readCell_one_kind (selectorCell e)) as [H | H];
      destruct (Convert.readCell (selectorCell e)) as [labels cidrs];
      simpl in H; subst;
      destruct (isIngress e); unfold selectorCount; simpl;
      repeat match goal with |- context [nonEmpty ?l] => destruct (nonEmpty l) end;
      simpl; lia. }
  assert (H2 : (selectorCount (Converter0307.makeRule e) <= 1)%nat).
  { unfold Converter0307.makeRule.
    destruct (nonEmpty (selectorCell e)).
    - destruct (Converter0307.detectType (selectorCell e));
        destruct (isIngress e); unfold selectorCount; simpl;
        repeat match goal with |- context [nonEmpty ?l] => destruct (nonEmpty l) end;
        simpl; lia.
    - destruct (isIngress e); unfold selectorCount; simpl; lia. }
  split; [exact H1|]. split; [exact H2|].
  split; [|split].
  - intros Hi r [-> | ->].
    + unfold Convert.makeRule.
      destruct (Convert.readCell (selectorCell e)). rewrite Hi. auto.
    + unfold Converter0307.makeRule. rewrite Hi. auto.
  - intros Hi r [-> | ->].
    + unfold Convert.makeRule.
      destruct (Convert.readCell (selectorCell e)). rewrite Hi. auto.
    + unfold Converter0307.makeRule. rewrite Hi. auto.
  - unfold Convert.makeRule.
    destruct (Convert.readCell (selectorCell e)).
    destruct (isIngress e); auto.
Qed.

Lemma makeRule_one_selector_witness :
  let e := mkEntry (lit "tcp") (lit "10.1.0.0/16") (lit "app:billing")
                   (lit "ingress") (lit "443") 3 in
  toCIDR (Convert.makeRule e) = None /\ toCIDR (Converter0307.makeRule e) = None.
Proof.
  intros e. destruct (makeRule_one_selector e) as (_ & _ & Hin & _).
  split.
  - apply (Hin eq_refl (Convert.makeRule e)). now left.
  - apply (Hin eq_refl (Converter0307.makeRule e)). now right.
Defined.

Lemma Digits_32 : Digits (lit "32").
Proof. split; [discriminate | reflexivity]. Qed.

Lemma Normalized_prefixed it out : Normalized it out -> PrefixedQuad out.
Proof.
  intros [[Hb ->] | [Hp ->]]; [|assumption].
  exists it, (lit "32"). split; [assumption|]. split; [apply Digits_32 | reflexivity].
Qed.

Lemma detectType0307_cidrs cell :
  match Converter0307.detectType cell with
  | Converter0307.CidrList l => l <> [] /\ Forall PrefixedQuad l
  | Converter0307.Cidr v => PrefixedQuad v
  | _ => True
  end.
Proof.
  unfold Converter0307.detectType.
  destruct (negb (nonEmpty (trim cell))); [exact I|].
  destruct (_ && (1 <? _)%nat) eqn:El.
  - apply QuadList_test in El. destruct El as [Hlen Hall]. split.
    + intros H. apply map_eq_nil_iff in H. rewrite H in Hlen. simpl in Hlen. lia.
    + apply normalize_items in Hall.
      remember (map _ (Converter0307.items (trim cell))) as outs eqn:Eo.
      clear Eo Hlen.
      induction Hall as [|it out its outs' Hn _ IH]; constructor; auto.
      now apply (Normalized_prefixed Hn).
  - destruct (matches re_quad_prefix (trim cell)) eqn:Ep.
    + now apply matches_quad_prefix.
    + destruct (matches re_quad (trim cell)) eqn:Eb.
      * apply matches_quad in Eb.
        apply (@Normalized_prefixed (trim cell)). left. auto.
      * destruct (search (RClass isLetter) (trim cell)
                  && includes ch_dot (trim cell)); exact I.
Qed.

Lemma cidrList_slash cell :
  Forall (fun c => includes ch_slash c = true) (Convert.cidrList cell).
Proof.
  unfold Convert.cidrList. apply Forall_map, Forall_forall. intros ip _.
  destruct (includes ch_slash ip) eqn:E; [assumption|].
  rewrite includes_app. simpl. now rewrite orb_true_r.
Qed.

(** X5: the CIDR array of a rule.  In [convert.js] every entry holds a
    [/]; in [converter_03_07_2025.js] every entry is a dotted quad with a
    prefix length, [a.b.c.d/n]; and in both a CIDR key that is present
    holds at least one entry. *)
Theorem makeRule_cidr_entries e :
  Forall (fun c => includes ch_slash c = true) (cidrOf (Convert.makeRule e)) /\
  Forall PrefixedQuad (cidrOf (Converter0307.makeRule e)) /\
  (forall r l, r = Convert.makeRule e \/ r = Converter0307.makeRule e ->
     fromCIDR r = Some l \/ toCIDR r = Some l -> l <> []).
Proof.
  split; [|split].
  - unfold Convert.makeRule, Convert.readCell.
    destruct (nonEmpty (selectorCell e)).
    + destruct (search re_quad (selectorCell e)).
      * pose proof (cidrList_slash (selectorCell e)) as H.
        destruct (Convert.cidrList (selectorCell e)); simpl;
          destruct (isIngress e); simpl; auto;
          destruct (nonEmpty _); auto.
      * destruct (_ && _); destruct (nonEmpty _); destruct (isIngress e);
          constructor.
    + simpl. destruct (isIngress e); constructor.
  - unfold Converter0307.makeRule.
    destruct (nonEmpty (selectorCell e)).
    + pose proof (detectType0307_cidrs (selectorCell e)) as H.
      destruct (Converter0307.detectType (selectorCell e));
        destruct (isIngress e); unfold cidrOf; simpl; auto;
        try constructor; auto; now destruct H.
    + destruct (isIngress e); constructor.
  - intros r l [-> | ->].
    + unfold Convert.makeRule.
      destruct (Convert.readCell (selectorCell e)) as [labels cidrs].
      destruct cidrs; destruct (isIngress e); simpl;
        intros [H | H]; inversion H; discriminate.
    + unfold Converter0307.makeRule.
      destruct (nonEmpty (selectorCell e)).
      * pose proof (detectType0307_cidrs (selectorCell e)) as H.
        destruct (Converter0307.detectType (selectorCell e));
          destruct (isIngress e); simpl;
          intros [H' | H']; inversion H'; subst;
          solve [now destruct H | discriminate].
      * destruct (isIngress e); simpl; intros [H | H]; discriminate.
Qed.

Lemma makeRule_cidr_entries_witness :
  let e := mkEntry (lit "tcp") (lit "app:web") (lit "10.0.0.1, 10.2.0.0/16")
                   (lit "egress") (lit "443") 3 in
  toCIDR (Converter0307.makeRule e)
  = Some [lit "10.0.0.1/32"; lit "10.2.0.0/16"] /\
  [lit "10.0.0.1/32"; lit "10.2.0.0/16"] <> [].
Proof.
  intros e. destruct (makeRule_cidr_entries e) as (_ & _ & Hne).
  assert (H : toCIDR (Converter0307.makeRule e)
              = Some [lit "10.0.0.1/32"; lit "10.2.0.0/16"]) by reflexivity.
  split; [exact H|].
  apply (Hne (Converter0307.makeRule e)); [now right | right; exact H].
Defined.

Lemma In_splitRuns sep c s : forall prev piece,
  In piece (splitRuns sep prev s) -> In c piece -> In c s.
Proof.
  induction s as [|x s IH]; intros prev piece Hp Hc; simpl in Hp.
  - destruct Hp as [<- | []]. contradiction.
  - destruct (sep x).
    + destruct prev.
      * right. eapply IH; eassumption.
      * destruct Hp as [<- | Hp]; [contradiction|]. right. eapply IH; eassumption.
    + destruct (splitRuns sep false s) as [|f fs] eqn:Es.
      * destruct Hp as [<- | []]. destruct Hc as [-> | []]. now left.
      * destruct Hp as [<- | Hp].
        -- destruct Hc as [-> | Hc]; [now left|]. right.
           apply (IH false f); [rewrite Es; now left | assumption].
        -- right. apply (IH false piece); [rewrite Es; now right | assumption].
Qed.

(** A piece of text with a code unit that is no separator has that code
    unit in one of its pieces. *)
Lemma splitRuns_cover sep c s : forall prev,
  In c s -> sep c = false ->
  exists piece, In piece (splitRuns sep prev s) /\ In c piece.
Proof.
  induction s as [|x s IH]; intros prev Hc Hs; [contradiction|].
  simpl. destruct Hc as [-> | Hc].
  - rewrite Hs. destruct (splitRuns sep false s) as [|f fs].
    + exists [c]. split; now left.
    + exists (c :: f). split; now left.
  - destruct (sep x).
    + destruct prev.
      * now apply IH.
      * destruct (IH true Hc Hs) as (p & Hp & Hin). exists p. split; [now right | assumption].
    + destruct (IH false Hc Hs) as (p & Hp & Hin).
      destruct (splitRuns sep false s) as [|f fs]; [contradiction|].
      destruct Hp as [<- | Hp].
      * exists (x :: f). split; [now left | now right].
      * exists p. split; [now right | assumption].
Qed.

Lemma splitLabels_no_colon raw : ~ In ch_colon raw -> splitLabels raw = [].
Proof.
  intros H. unfold splitLabels.
  replace (labelSegments raw) with (@nil jsstring); [reflexivity|].
  symmetry. unfold labelSegments. apply filter_none, Forall_map, Forall_forall.
  intros piece Hp. apply not_true_iff_false. intros Hc.
  apply includes_In, In_trim in Hc. apply H.
  eapply In_splitRuns; eassumption.
Qed.

Lemma search_quad cell : search re_quad cell = true <-> ContainsQuad cell.
Proof.
  rewrite search_lang. unfold ContainsQuad.
  split; intros (a & m & b & Hs & Hm); exists a, m, b; split; auto;
    now apply lang_quad.
Qed.

(** X6: in [convert.js] a selector cell without a colon, without a slash
    and without a dotted quad in it (a domain name, a bare word) gives a
    rule object with no selector key at all, only [toPorts]. *)
Theorem convert_makeRule_no_selector e :
  ~ In ch_colon (selectorCell e) -> ~ In ch_slash (selectorCell e) ->
  ~ ContainsQuad (selectorCell e) ->
  Convert.makeRule e
  = mkRule None None None None None None (portsArray (protocol e) (port e)).
Proof.
  intros Hc Hs Hq. unfold Convert.makeRule, Convert.readCell.
  rewrite (test_false (search_quad _) Hq).
  rewrite (test_false (includes_In _ _) Hs). simpl.
  rewrite (splitLabels_no_colon Hc).
  destruct (nonEmpty (selectorCell e)); simpl; now destruct (isIngress e).
Qed.

Lemma convert_makeRule_no_selector_witness :
  let e := mkEntry (lit "tcp") (lit "app:web") (lit "api.internal.example")
                   (lit "egress") (lit "443") 3 in
  selectorCount (Convert.makeRule e) = 0%nat.
Proof.
  intros e. rewrite (@convert_makeRule_no_selector e).
  - reflexivity.
  - vm_compute. intuition discriminate.
  - vm_compute. intuition discriminate.
  - intros H. apply search_quad in H. vm_compute in H. discriminate.
Defined.

Lemma letter_plain c :
  isLetter c = true ->
  isDigit c = false /\ isWhiteSpace c = false /\ sepItems c = false /\
  c <> ch_dot /\ c <> ch_slash.
Proof.
  unfold isLetter, isUpperAZ, isLowerAZ. intros H.
  rewrite orb_true_iff, !andb_true_iff, !N.leb_le in H.
  repeat split;
    try (apply not_true_iff_false;
         unfold isDigit, isWhiteSpace, sepItems, ch_CR, ch_LF, ch_comma;
         rewrite ?orb_true_iff, ?andb_true_iff, ?N.leb_le, ?N.eqb_eq; lia);
    unfold ch_dot, ch_slash; lia.
Qed.

Lemma quad_no_letter c s :
  BareQuad s \/ PrefixedQuad s -> isLetter c = true -> ~ In c s.
Proof.
  intros Hq Hl. destruct (letter_plain Hl) as (Hd & _ & _ & Hdot & Hslash).
  assert (Hbare : forall q, BareQuad q -> ~ In c q).
  { intros q (a & b & x & d & Ha & Hb & Hx & Hdd & ->) H.
    apply in_app_or in H. destruct H as [H | [H | H]];
      [exact (Digits_no Hd Ha H) | congruence |].
    apply in_app_or in H. destruct H as [H | [H | H]];
      [exact (Digits_no Hd Hb H) | congruence |].
    apply in_app_or in H. destruct H as [H | [H | H]];
      [exact (Digits_no Hd Hx H) | congruence |].
    exact (Digits_no Hd Hdd H). }
  destruct Hq as [Hq | (q & n & Hq & Hn & ->)]; [now apply Hbare|].
  intros H. apply in_app_or in H. destruct H as [H | [H | H]].
  - exact (Hbare q Hq H).
  - congruence.
  - exact (Digits_no Hd Hn H).
Qed.

Lemma letter_item c v :
  In c v -> isLetter c = true -> exists it, In it (Converter0307.items v) /\ In c it.
Proof.
  intros Hin Hl. destruct (letter_plain Hl) as (_ & Hws & Hsep & _).
  destruct (@splitRuns_cover sepItems c v false Hin Hsep) as (piece & Hp & Hc).
  exists (trim piece). split.
  - unfold Converter0307.items, splitClass. apply filter_In. split.
    + now apply in_map.
    + apply nonEmpty_true. intros He.
      apply (In_trim_keep Hc) in Hws. rewrite He in Hws. contradiction.
  - now apply In_trim_keep.
Qed.

Lemma startsWith_In p s c : startsWith p s = true -> In c p -> In c s.
Proof.
  revert s. induction p as [|a p IH]; intros s H Hc; [contradiction|].
  destruct s as [|b s]; simpl in H; [discriminate|].
  apply andb_true_iff in H. destruct H as [Hab Hp]. apply N.eqb_eq in Hab.
  subst b. destruct Hc as [-> | Hc]; [now left | right; now apply IH].
Qed.

(** X7: in [converter_03_07_2025.js] a selector cell whose trimmed text
    holds a letter and a dot always becomes an FQDN selector with that
    text in lower case, on the side of the direction, and nothing else;
    so a label whose key has dots, such as one that starts with
    [app.kubernetes.io/], is never read as a label: the rule has no
    endpoints key. *)
Theorem fqdn_selector_0307 e :
  let v := trim (selectorCell e) in
  (HasLetter v -> In ch_dot v ->
     Converter0307.makeRule e
     = if isIngress e
       then mkRule None None (Some [toLowerCase v]) None None None
                   (portsArray (protocol e) (port e))
       else mkRule None None None (Some [toLowerCase v]) None None
                   (portsArray (protocol e) (port e))) /\
  (startsWith (lit "app.kubernetes.io/") (selectorCell e) = true ->
     fromEndpoints (Converter0307.makeRule e) = None /\
     toEndpoints (Converter0307.makeRule e) = None).
Proof.
  intros v.
  assert (Hmain : HasLetter v -> In ch_dot v ->
     Converter0307.makeRule e
     = if isIngress e
       then mkRule None None (Some [toLowerCase v]) None None None
                   (portsArray (protocol e) (port e))
       else mkRule None None None (Some [toLowerCase v]) None None
                   (portsArray (protocol e) (port e))).
  { intros (c & Hc & Hl) Hdot. subst v.
    unfold Converter0307.makeRule.
    assert (Hcell : nonEmpty (selectorCell e) = true).
    { apply nonEmpty_true. intros He. apply In_trim in Hc. now rewrite He in Hc. }
    rewrite Hcell.
    assert (Hdet : Converter0307.detectType (selectorCell e)
                   = Converter0307.Fqdn (toLowerCase (trim (selectorCell e)))).
    { unfold Converter0307.detectType.
      assert (Hv : nonEmpty (trim (selectorCell e)) = true).
      { apply nonEmpty_true. intros He. now rewrite He in Hc. }
      rewrite Hv. simpl.
      rewrite (test_false (QuadList_test _)).
      2:{ intros [_ Hall]. destruct (letter_item Hc Hl) as (it & Hit & Hcit).
          rewrite Forall_forall in Hall.
          exact (quad_no_letter (Hall it Hit) Hl Hcit). }
      rewrite (test_false (matches_quad_prefix _)).
      2:{ intros H. exact (quad_no_letter (or_intror H) Hl Hc). }
      rewrite (test_false (matches_quad _)).
      2:{ intros H. exact (quad_no_letter (or_introl H) Hl Hc). }
      assert (Ht : search (RClass isLetter) (trim (selectorCell e))
                   && includes ch_dot (trim (selectorCell e)) = true).
      { apply letter_dot_test. split; [now exists c | assumption]. }
      now rewrite Ht. }
    rewrite Hdet. simpl. reflexivity. }
  split; [exact Hmain|].
  intros Hs.
  assert (Ha : In 97 (selectorCell e)).
  { apply (startsWith_In Hs). vm_compute. tauto. }
  assert (Hd : In ch_dot (selectorCell e)).
  { apply (startsWith_In Hs). vm_compute. tauto. }
  rewrite Hmain.
  - now destruct (isIngress e).
  - exists 97. split; [apply In_trim_keep; auto | reflexivity].
  - apply In_trim_keep; auto.
Qed.

Lemma fqdn_selector_0307_witness :
  let e := mkEntry (lit "tcp") (lit "app:web")
                   (lit "app.kubernetes.io/name:db") (lit "egress")
                   (lit "5432") 3 in
  toFQDNs (Converter0307.makeRule e) = Some [lit "app.kubernetes.io/name:db"] /\
  toEndpoints (Converter0307.makeRule e) = None.
Proof.
  intros e. destruct (fqdn_selector_0307 e) as [Hf Hs]. split.
  - rewrite Hf.
    + reflexivity.
    + exists 97. split; [vm_compute; tauto | reflexivity].
    + vm_compute. tauto.
  - apply Hs. reflexivity.
Defined.

Lemma splitChar_none c s : ~ In c s -> splitChar c s = [s].
Proof.
  induction s as [|x s IH]; simpl; intros H; auto.
  destruct (x =? c) eqn:E.
  - apply N.eqb_eq in E. subst. exfalso. apply H. now left.
  - rewrite IH; auto.
Qed.

Lemma wellFormed_splitLabels raw : wellFormed (splitLabels raw).
Proof.
  pose proof (@fold_assign_invariant (fun _ => True) (labelSegments raw)
                (fun _ _ _ => I) [] (NoDup_nil _) (Forall_nil _)) as H.
  cbv zeta in H. exact (proj1 H).
Qed.

Lemma obj_get_fold_put_distinct (V : Type) (l : obj V) : forall o k,
  wellFormed l ->
  obj_get k (fold_left (fun o kv => obj_put (fst kv) (snd kv) o) l o)
  = match obj_get k l with Some v => Some v | None => obj_get k o end.
Proof.
  unfold wellFormed.
  induction l as [|[k0 v0] l IH]; intros o k Hnd; simpl; auto.
  inversion Hnd as [|? ? Hnotin Hnd']; subst. rewrite IH by assumption.
  destruct (str_eqb k k0) eqn:E.
  - apply str_eqb_eq in E. subst k0.
    assert (Hnone : obj_get k l = None).
    { clear - Hnotin. induction l as [|[k1 v1] l IH]; simpl; auto.
      destruct (str_eqb k k1) eqn:E.
      - apply str_eqb_eq in E. subst. exfalso. apply Hnotin. now left.
      - apply IH. intros H. apply Hnotin. now right. }
    rewrite Hnone. apply obj_get_put_same.
  - destruct (obj_get k l); auto.
    apply obj_get_put_other. now apply str_eqb_neq.
Qed.

(** Spreading an object over another: its properties win, the others
    stay. *)
Lemma obj_get_spreadInto (V : Type) (dst src : obj V) k :
  wellFormed src ->
  obj_get k (spreadInto dst src)
  = match obj_get k src with Some v => Some v | None => obj_get k dst end.
Proof.
  intros H. unfold spreadInto.
  rewrite obj_get_fold_put_distinct by now apply wellFormed_ownEntries.
  now rewrite obj_get_ownEntries.
Qed.

(** X8: the labels read from a cell of the form [namespace/labels].
    The text before the first slash, trimmed, is the value of
    [io.kubernetes.pod.namespace] unless the labels set that key
    themselves; every other key comes from the labels between the first
    and the second slash; whatever follows a second slash is not read. *)
Theorem namespacedLabels_lookup (a b : jsstring) :
  ~ In ch_slash a -> ~ In ch_slash b ->
  (forall k,
     obj_get k (namespacedLabels (a ++ ch_slash :: b))
     = match obj_get k (splitLabels b) with
       | Some v => Some v
       | None => if str_eqb k (lit "io.kubernetes.pod.namespace")
                 then Some (trim a) else None
       end) /\
  (forall c, namespacedLabels (a ++ ch_slash :: b ++ ch_slash :: c)
             = namespacedLabels (a ++ ch_slash :: b)).
Proof.
  intros Ha Hb. split.
  - intros k. unfold namespacedLabels.
    rewrite splitChar_first, splitChar_none by assumption.
    rewrite obj_get_spreadInto by apply wellFormed_splitLabels.
    reflexivity.
  - intros c. unfold namespacedLabels.
    rewrite !splitChar_first by assumption.
    rewrite splitChar_none by assumption.
    destruct (splitChar ch_slash c); reflexivity.
Qed.

Lemma namespacedLabels_lookup_witness :
  namespacedLabels (lit "monitoring/app.kubernetes.io/name:grafana")
  = [(lit "io.kubernetes.pod.namespace", lit "monitoring")].
Proof.
  destruct (@namespacedLabels_lookup (lit "monitoring") (lit "app.kubernetes.io"))
    as [_ Hcut].
  - vm_compute. intuition discriminate.
  - vm_compute. intuition discriminate.
  - change (namespacedLabels (lit "monitoring" ++ ch_slash
              :: lit "app.kubernetes.io" ++ ch_slash :: lit "name:grafana")
            = [(lit "io.kubernetes.pod.namespace", lit "monitoring")]).
    rewrite (Hcut (lit "name:grafana")). reflexivity.
Defined.

(* ================================================================== *)
(** ** Further properties: row extraction *)

Lemma entryGroupKey_rowEntry i row :
  entryGroupKey (Convert.rowEntry i row) = Convert.rowGroupKey row.
Proof.
  unfold entryGroupKey, isIngress, Convert.rowEntry, Convert.rowGroupKey.
  destruct (str_eqb (trim (toLowerCase (cellText (rowCell row 3)))) (lit "ingress")) eqn:E;
    simpl; now rewrite E.
Qed.

Lemma selectorCell_rowEntry i row :
  selectorCell (Convert.rowEntry i row) = trim (cellText (rowCell row 4)).
Proof.
  unfold selectorCell, isIngress, Convert.rowEntry.
  destruct (str_eqb (trim (toLowerCase (cellText (rowCell row 3)))) (lit "ingress")) eqn:E;
    simpl; now rewrite E.
Qed.

Lemma groupOf_app k es e :
  groupOf k (es ++ [e])
  = groupOf k es ++ (if str_eqb (entryGroupKey e) k then [e] else []).
Proof. unfold groupOf. rewrite filter_app. reflexivity. Qed.

Lemma groupedRows_put (g : obj (list entry)) k l :
  match obj_get k g with
  | Some l0 =>
      (groupedRows (obj_put k l g) + List.length l0
       = groupedRows g + List.length l)%nat
  | None => groupedRows (obj_put k l g) = (groupedRows g + List.length l)%nat
  end.
Proof.
  unfold groupedRows. induction g as [|[k0 l0] g IH]; simpl.
  - lia.
  - destruct (str_eqb k k0) eqn:E; simpl.
    + lia.
    + destruct (obj_get k g); lia.
Qed.

Lemma whenNonEmpty_Some (A : Type) (l l' : list A) :
  Some l = whenNonEmpty l' -> l' = l /\ l <> [].
Proof.
  destruct l'; simpl; intros H; inversion H; subst.
  split; [reflexivity | discriminate].
Qed.

Lemma whenNonEmpty_None (A : Type) (l' : list A) :
  None = whenNonEmpty l' -> l' = [].
Proof. destruct l'; simpl; [reflexivity | discriminate]. Qed.

Lemma whenNonEmpty_snoc (A : Type) (l : list A) x :
  whenNonEmpty (l ++ [x]) = Some (l ++ [x]).
Proof. now destruct l. Qed.

Lemma pushGroup_agree g es e :
  groupsAgree g es ->
  match Convert.pushGroup (entryGroupKey e) e g with
  | Some g' => groupsAgree g' (es ++ [e])
                /\ isProtoName (entryGroupKey e) = false
  | None => isProtoName (entryGroupKey e) = true
  end.
Proof.
  intros (Hwf & Hget & Hproto & Hcount). unfold Convert.pushGroup.
  set (k := entryGroupKey e).
  assert (Hother : forall k' l, k' <> k ->
            obj_get k' (obj_put k l g) = whenNonEmpty (groupOf k' (es ++ [e]))).
  { intros k' l Hne. rewrite obj_get_put_other by assumption.
    rewrite groupOf_app. fold k.
    assert (E : str_eqb k k' = false) by (apply str_eqb_neq; congruence).
    rewrite E, app_nil_r. apply Hget. }
  pose proof (groupedRows_put g k) as Hput.
  destruct (obj_get k g) as [l|] eqn:Eg.
  - assert (Hk : isProtoName k = false) by (apply Hproto; congruence).
    split; [|exact Hk].
    pose proof (Hget k) as Hl. rewrite Eg in Hl.
    apply whenNonEmpty_Some in Hl. destruct Hl as [Hl Hne].
    split; [now apply wellFormed_obj_put|]. split; [|split].
    + intros k'. destruct (str_eqb k' k) eqn:E.
      * apply str_eqb_eq in E. subst k'. rewrite obj_get_put_same.
        rewrite groupOf_app. fold k. rewrite str_eqb_refl, Hl.
        symmetry. apply whenNonEmpty_snoc.
      * apply Hother. now apply str_eqb_neq.
    + intros k' Hk'. destruct (str_eqb k' k) eqn:E.
      * apply str_eqb_eq in E. now subst.
      * apply str_eqb_neq in E. rewrite obj_get_put_other in Hk' by assumption.
        now apply Hproto.
    + specialize (Hput (l ++ [e])). rewrite !length_app in *. simpl in *. lia.
  - destruct (isProtoName k) eqn:Ek; [reflexivity|].
    split; [|reflexivity].
    pose proof (Hget k) as Hl. rewrite Eg in Hl. apply whenNonEmpty_None in Hl.
    split; [now apply wellFormed_obj_put|]. split; [|split].
    + intros k'. destruct (str_eqb k' k) eqn:E.
      * apply str_eqb_eq in E. subst k'. rewrite obj_get_put_same.
        rewrite groupOf_app. fold k. now rewrite str_eqb_refl, Hl.
      * apply Hother. now apply str_eqb_neq.
    + intros k' Hk'. destruct (str_eqb k' k) eqn:E.
      * apply str_eqb_eq in E. now subst.
      * apply str_eqb_neq in E. rewrite obj_get_put_other in Hk' by assumption.
        now apply Hproto.
    + specialize (Hput [e]). rewrite length_app. simpl in *. lia.
Qed.

Lemma extractRows_agree rows : forall i st st',
  groupsAgree (groups st) (entries st) ->
  Convert.extractRows i rows st = inr st' ->
  groupsAgree (groups st') (entries st').
Proof.
  induction rows as [|row rows IH]; intros i st st' Hinv H; simpl in H.
  - now inversion H; subst.
  - destruct (negb (Convert.hasData row)).
    + apply IH in H; auto.
    + pose proof (@pushGroup_agree (groups st) (entries st)
                    (Convert.rowEntry i row) Hinv) as Hp.
      rewrite entryGroupKey_rowEntry in Hp.
      destruct (Convert.pushGroup _ _ _) as [g|]; [|discriminate].
      apply IH in H; auto. simpl. now destruct Hp.
Qed.

(** X9: the groups [parseExcel] returns partition the entries by group
    key: the group under a key holds exactly the entries with that group
    key, in their order, and a key without entries has no group; no key
    occurs twice, none is a name inherited from [Object.prototype], and
    the groups hold as many entries as the entry list. *)
Theorem parseExcel_groups rows res :
  Convert.parseExcel rows = inr res ->
  wellFormed (groups res) /\
  (forall k, obj_get k (groups res) = whenNonEmpty (groupOf k (entries res))) /\
  (forall k, obj_get k (groups res) <> None -> isProtoName k = false) /\
  groupedRows (groups res) = List.length (entries res).
Proof.
  unfold Convert.parseExcel. destruct (Convert.parseNamespace rows) as [x|ns];
    [discriminate|].
  intros H. apply extractRows_agree in H; [exact H|].
  simpl. repeat split; try constructor. intros k H0. now contradiction H0.
Qed.

Lemma parseExcel_groups_witness :
  let table :=
    [ [CString (lit "rules")];
      [CString (lit "namespace:prod")];
      [CNumber 1; CString (lit "tcp"); CString (lit "app:web");
       CString (lit "ingress"); CString (lit "10.0.0.0/8"); CNumber 443];
      [CNumber 2; CString (lit "udp"); CString (lit "app:db");
       CString (lit "egress"); CString (lit "dns.example"); CNumber 53];
      [CNumber 3; CString (lit "tcp"); CString (lit "app:web");
       CString (lit "egress"); CString (lit "app:db"); CNumber 5432] ] in
  exists res,
    Convert.parseExcel table = inr res /\
    option_map (map rowNum) (obj_get (lit "app:web") (groups res))
    = Some [3; 5].
Proof.
  intros table.
  destruct (Convert.parseExcel table) as [x|res] eqn:E;
    [vm_compute in E; discriminate|].
  exists res. split; [reflexivity|].
  destruct (parseExcel_groups E) as (_ & Hget & _).
  rewrite Hget. vm_compute in E. inversion E. reflexivity.
Defined.

Lemma indexFrom_nth rows : forall j i row,
  In (i, row) (indexFrom j rows) ->
  exists n, i = j + N.of_nat n /\ nth_error rows n = Some row.
Proof.
  induction rows as [|r rows IH]; intros j i row H; simpl in H; [contradiction|].
  destruct H as [H | H].
  - inversion H; subst. exists 0%nat. split; [simpl; lia | reflexivity].
  - apply IH in H. destruct H as (n & -> & Hn). exists (S n).
    split; [lia | exact Hn].
Qed.

Lemma sheet_row rows i row :
  In (i, row) (indexFrom 2 (skipn 2 rows)) ->
  2 <= i /\ nth_error rows (N.to_nat i) = Some row.
Proof.
  intros H. apply indexFrom_nth in H. destruct H as (n & -> & Hn).
  split; [lia|]. rewrite nth_error_skipn in Hn.
  replace (N.to_nat (2 + N.of_nat n)) with (2 + n)%nat by lia. exact Hn.
Qed.

Lemma rowNums_sorted (p : N * list cell -> bool) rows : forall i,
  let ns := map (fun ir => fst ir + 1) (filter p (indexFrom i rows)) in
  StronglySorted N.lt ns /\ Forall (fun n => i < n) ns.
Proof.
  induction rows as [|r rows IH]; intros i; simpl.
  - split; constructor.
  - destruct (IH (i + 1)) as [Hs Hf]. simpl in Hs, Hf.
    assert (Hf' : Forall (fun n => i < n)
                    (map (fun ir => fst ir + 1) (filter p (indexFrom (i + 1) rows)))).
    { eapply Forall_impl; [|exact Hf]. intros n Hn. simpl in Hn. lia. }
    destruct (p (i, r)); simpl.
    + split.
      * constructor; [assumption|].
        eapply Forall_impl; [|exact Hf]. intros n Hn. simpl in Hn. lia.
      * constructor; [lia | assumption].
    + split; assumption.
Qed.

(** X10: the row numbers [parseExcel] hands out.  The entries carry
    strictly increasing row numbers, each at least 3, so no two entries
    share one and none is 0; the defect list is strictly increasing too,
    and every row number in it is the number of an entry. *)
Theorem parseExcel_row_numbers rows res :
  Convert.parseExcel rows = inr res ->
  StronglySorted N.lt (map rowNum (entries res)) /\
  Forall (fun n => 3 <= n) (map rowNum (entries res)) /\
  NoDup (map rowNum (entries res)) /\
  StronglySorted N.lt (missingNums res) /\
  incl (missingNums res) (map rowNum (entries res)).
Proof.
  unfold Convert.parseExcel. destruct (Convert.parseNamespace rows) as [x|ns];
    [discriminate|].
  intros H. apply extractRows_lists in H. simpl in H. destruct H as [He Hm].
  assert (Hnums : map rowNum (entries res)
                  = map (fun ir => fst ir + 1)
                        (filter (fun ir => Convert.hasData (snd ir))
                                (indexFrom 2 (skipn 2 rows)))).
  { rewrite He, map_map. apply map_ext. intros ir. apply rowNum_rowEntry. }
  destruct (rowNums_sorted (fun ir => Convert.hasData (snd ir)) (skipn 2 rows) 2)
    as [Hs Hf].
  rewrite <- Hnums in Hs, Hf.
  split; [exact Hs|]. split.
  { eapply Forall_impl; [|exact Hf]. intros n Hn. simpl in Hn. lia. }
  split.
  { clear - Hs. induction Hs as [|n l _ IH Hall]; constructor; auto.
    intros Hin. rewrite Forall_forall in Hall. apply Hall in Hin. lia. }
  split.
  { rewrite Hm.
    assert (Hff : forall l : list (N * list cell),
              filter (fun ir => negb (truthy (rowCell (snd ir) 0)))
                     (filter (fun ir => Convert.hasData (snd ir)) l)
              = filter (fun ir => Convert.hasData (snd ir)
                                  && negb (truthy (rowCell (snd ir) 0))) l).
    { induction l as [|x l IH]; simpl; auto.
      destruct (Convert.hasData (snd x)); simpl; rewrite IH; reflexivity. }
    rewrite Hff.
    apply (rowNums_sorted
             (fun ir => Convert.hasData (snd ir)
                        && negb (truthy (rowCell (snd ir) 0)))
             (skipn 2 rows) 2). }
  intros n Hn. rewrite Hm in Hn. rewrite Hnums.
  apply in_map_iff in Hn. destruct Hn as (ir & Heq & Hir).
  apply filter_In in Hir. destruct Hir as [Hir _].
  apply in_map_iff. now exists ir.
Qed.

Lemma parseExcel_row_numbers_witness :
  let table :=
    [ [CString (lit "rules")];
      [CString (lit "namespace:prod")];
      [CUndef; CString (lit "tcp"); CString (lit "app:web");
       CString (lit "ingress"); CString (lit "10.0.0.0/8"); CNumber 443];
      [];
      [CNumber 2; CString (lit "udp"); CString (lit "app:db");
       CString (lit "egress"); CString (lit "dns.example"); CNumber 53] ] in
  exists res,
    Convert.parseExcel table = inr res /\
    NoDup (map rowNum (entries res)) /\
    map rowNum (entries res) = [3; 5] /\ missingNums res = [3].
Proof.
  intros table.
  destruct (Convert.parseExcel table) as [x|res] eqn:E;
    [vm_compute in E; discriminate|].
  exists res. split; [reflexivity|].
  destruct (parseExcel_row_numbers E) as (_ & _ & Hnd & _).
  split; [exact Hnd|].
  vm_compute in E. inversion E. split; reflexivity.
Defined.

(** X11: where an entry of [parseExcel] comes from.  Each entry is the
    reading of one rule row of the sheet, numbered by the row's 1-based
    position; whatever its direction, the cell [makeRule] takes the peer
    from is the counterpart cell (column E), trimmed, and its group key
    is the group cell (column C), trimmed; its direction is the direction
    cell in lower case, without white space around it. *)
Theorem parseExcel_entry_roles rows res e :
  Convert.parseExcel rows = inr res -> In e (entries res) ->
  exists i row,
    2 <= i /\ nth_error rows (N.to_nat i) = Some row /\
    rowNum e = i + 1 /\
    selectorCell e = trim (cellText (rowCell row 4)) /\
    entryGroupKey e = trim (cellText (rowCell row 2)) /\
    direction e = trim (toLowerCase (cellText (rowCell row 3))) /\
    Trimmed (direction e).
Proof.
  unfold Convert.parseExcel. destruct (Convert.parseNamespace rows) as [x|ns];
    [discriminate|].
  intros H Hin. apply extractRows_lists in H. simpl in H. destruct H as [He _].
  rewrite He in Hin. apply in_map_iff in Hin.
  destruct Hin as ([i row] & <- & Hir). apply filter_In in Hir.
  destruct Hir as [Hir _]. apply sheet_row in Hir. destruct Hir as [Hi Hrow].
  exists i, row. simpl.
  assert (Hdir : direction (Convert.rowEntry i row)
                 = trim (toLowerCase (cellText (rowCell row 3)))).
  { unfold Convert.rowEntry. now destruct (str_eqb _ _). }
  repeat split; auto.
  - apply rowNum_rowEntry.
  - apply selectorCell_rowEntry.
  - apply entryGroupKey_rowEntry.
  - rewrite Hdir. apply Trimmed_trim.
  - rewrite Hdir. apply Trimmed_trim.
Qed.

Lemma parseExcel_entry_roles_witness :
  let table :=
    [ [CString (lit "rules")];
      [CString (lit "namespace:prod")];
      [CNumber 1; CString (lit "tcp"); CString (lit "app:web");
       CString (lit " Ingress "); CString (lit "10.0.0.0/8"); CNumber 443] ] in
  exists res e,
    Convert.parseExcel table = inr res /\ In e (entries res) /\
    exists i row, rowNum e = i + 1 /\
      selectorCell e = trim (cellText (rowCell row 4)).
Proof.
  intros table.
  destruct (Convert.parseExcel table) as [x|res] eqn:E;
    [vm_compute in E; discriminate|].
  assert (He : exists e, In e (entries res)).
  { vm_compute in E. inversion E. eexists. now left. }
  destruct He as [e He]. exists res, e.
  split; [reflexivity|]. split; [exact He|].
  destruct (parseExcel_entry_roles E He) as (i & row & _ & _ & Hn & Hs & _).
  now exists i, row.
Defined.

Lemma In_indexFrom rows row : forall j,
  In row rows -> exists i, In (i, row) (indexFrom j rows).
Proof.
  induction rows as [|r rows IH]; intros j H; [contradiction|].
  destruct H as [-> | H].
  - exists j. now left.
  - destruct (IH (j + 1) H) as [i Hi]. exists i. now right.
Qed.

Lemma In_indexFrom_row rows : forall j i row,
  In (i, row) (indexFrom j rows) -> In row rows.
Proof.
  induction rows as [|r rows IH]; intros j i row H; [contradiction|].
  destruct H as [H | H]; [inversion H; now left | right; eauto].
Qed.

Lemma extractRows_throws rows : forall i st,
  groupsAgree (groups st) (entries st) ->
  (exists row, In row rows /\ Convert.hasData row = true /\
               isProtoName (Convert.rowGroupKey row) = true) ->
  Convert.extractRows i rows st = inl TypeErrorPush.
Proof.
  induction rows as [|row rows IH]; intros i st Hinv (r & Hin & Hd & Hp);
    [contradiction|].
  simpl.
  pose proof (@pushGroup_agree (groups st) (entries st)
                (Convert.rowEntry i row) Hinv) as Hpush.
  rewrite entryGroupKey_rowEntry in Hpush.
  destruct (Convert.hasData row) eqn:Ed; simpl.
  - destruct (Convert.pushGroup _ _ _) as [g|]; [|reflexivity].
    destruct Hpush as [Hagree Hk].
    destruct Hin as [-> | Hin]; [congruence|].
    apply IH; [exact Hagree | now exists r].
  - destruct Hin as [-> | Hin]; [congruence|].
    apply IH; [exact Hinv | now exists r].
Qed.

(** X12: when [parseExcel] of [convert.js] throws on a rule row.  With an
    accepted header, the extraction throws the [TypeError] of
    [(groups[groupKey] ||= []).push] exactly when some kept row has a
    group key that names a property every object inherits
    ([constructor], [toString], [__proto__], ...); otherwise it returns. *)
Theorem parseExcel_throws rows :
  Convert.parseExcel rows = inl TypeErrorPush <->
  (exists ns, Convert.parseNamespace rows = inr ns) /\
  (exists ir, In ir (dataRows rows) /\
              isProtoName (Convert.rowGroupKey (snd ir)) = true).
Proof.
  unfold Convert.parseExcel. split.
  - destruct (Convert.parseNamespace rows) as [x|ns] eqn:En.
    + intros H. inversion H; subst.
      unfold Convert.parseNamespace in En.
      destruct (nth_error rows 1); [|discriminate].
      destruct (negb _); [discriminate|]. destruct (negb _); discriminate.
    + intros H. split; [now exists ns|].
      destruct (existsb (fun ir => isProtoName (Convert.rowGroupKey (snd ir)))
                        (dataRows rows)) eqn:E.
      * apply existsb_exists in E. exact E.
      * exfalso.
        destruct (@extractRows_returns (skipn 2 rows) 2 (mkParsed ns [] [] []))
          as [st Hst]; [|congruence].
        intros row Hin Hd. apply (In_indexFrom 2) in Hin. destruct Hin as [i Hi].
        apply not_true_iff_false. intros Hp.
        apply not_true_iff_false in E. apply E.
        apply existsb_exists. exists (i, row). split; [|exact Hp].
        unfold dataRows. apply filter_In. now split.
  - intros [[ns Hns] ([i row] & Hin & Hp)]. rewrite Hns.
    unfold dataRows in Hin. apply filter_In in Hin. destruct Hin as [Hin Hd].
    apply extractRows_throws.
    + simpl. repeat split; try constructor. intros k H0. now contradiction H0.
    + exists row. split; [|split; assumption].
      eapply In_indexFrom_row; eassumption.
Qed.

Lemma parseExcel_throws_witness :
  Convert.parseExcel
    [ [CString (lit "rules")];
      [CString (lit "namespace:prod")];
      [CNumber 1; CString (lit "tcp"); CString (lit "constructor");
       CString (lit "egress"); CString (lit "app:db"); CNumber 5432] ]
  = inl TypeErrorPush.
Proof.
  apply parseExcel_throws. split.
  - exists (lit "prod"). reflexivity.
  - eexists. split; [vm_compute; left; reflexivity | reflexivity].
Defined.

(* ================================================================== *)
(** ** Further properties: validation *)

Lemma hasCyrillic_iff e : Convert.hasCyrillic e = true <-> CyrillicIn e.
Proof.
  rewrite hasCyrillic_existsb, existsb_exists. unfold CyrillicIn, Convert.entryText.
  split; intros (c & H1 & H2); exists c.
  - split; [assumption|]. rewrite !in_app_iff in H1. tauto.
  - split; [|assumption]. rewrite !in_app_iff. tauto.
Qed.

(** X13: the forbidden-character check of [validate].  When at least
    one row has a Cyrillic letter in one of its five text fields,
    [validate] ends the process and names every such row, in row order,
    and no other row; when no row has one, it returns. *)
Theorem validate_forbidden es :
  ((exists e, In e es /\ CyrillicIn e) ->
     exists l, Convert.validate es = Exit1 l /\ l <> [] /\
       l = map rowNum (filter Convert.hasCyrillic es) /\
       (forall e, In e es -> CyrillicIn e -> In (rowNum e) l) /\
       (forall n, In n l -> exists e, In e es /\ CyrillicIn e /\ rowNum e = n)) /\
  ((forall e, In e es -> ~ CyrillicIn e) ->
     Convert.validate es = Returned (Convert.duplicates es)).
Proof.
  unfold Convert.validate. split.
  - intros (e & Hin & Hc). apply hasCyrillic_iff in Hc.
    assert (Hbad : In e (filter Convert.hasCyrillic es)) by (apply filter_In; auto).
    destruct (filter Convert.hasCyrillic es) as [|b bad] eqn:Eb; [contradiction|].
    simpl nonEmpty. cbv iota. eexists. split; [reflexivity|].
    split; [discriminate|]. split; [reflexivity|]. split.
    + intros e' Hin' Hc'. apply hasCyrillic_iff in Hc'. apply in_map.
      rewrite <- Eb. apply filter_In. auto.
    + intros n Hn. apply in_map_iff in Hn. destruct Hn as (e' & Hn & He').
      rewrite <- Eb in He'. apply filter_In in He'. destruct He' as [H1 H2].
      exists e'. split; [assumption|]. split; [now apply hasCyrillic_iff | assumption].
  - intros Hno. rewrite filter_none; [reflexivity|].
    apply Forall_forall. intros e Hin. apply not_true_iff_false.
    intros H. apply hasCyrillic_iff in H. exact (Hno e Hin H).
Qed.

Lemma validate_forbidden_witness :
  let ok := mkEntry (lit "tcp") (lit "app:web") (lit "app:db")
                    (lit "egress") (lit "5432") 3 in
  let bad1 := mkEntry (lit "tcp") [1072; 1073] (lit "app:db")
                      (lit "egress") (lit "80") 4 in
  let bad2 := mkEntry (lit "tcp") (lit "app:web") (lit "app:db")
                      (lit "egress") [1025] 5 in
  Convert.validate [ok; bad1; bad2] = Exit1 [4; 5].
Proof.
  intros ok bad1 bad2.
  destruct (validate_forbidden [ok; bad1; bad2]) as [Hbad _].
  destruct Hbad as (l & Hv & _ & Hl & _).
  - exists bad1. split; [simpl; tauto|].
    exists 1072. split; [reflexivity | left; simpl; tauto].
  - rewrite Hv, Hl. reflexivity.
Defined.

Lemma dupsFrom_In es : forall before a b,
  In (a, b) (dupsFrom before es) <->
  exists mid e post f,
    es = mid ++ e :: post /\
    find (hasKey (Convert.signatureKey e)) (before ++ mid) = Some f /\
    a = rowNum f /\ b = rowNum e.
Proof.
  induction es as [|e0 es IH]; intros before a b; simpl.
  - split; [contradiction|]. intros (mid & e & post & f & H & _).
    now destruct mid.
  - split.
    + intros H.
      assert (Htail : In (a, b) (dupsFrom (before ++ [e0]) es) ->
                exists mid e post f,
                  e0 :: es = mid ++ e :: post /\
                  find (hasKey (Convert.signatureKey e)) (before ++ mid) = Some f /\
                  a = rowNum f /\ b = rowNum e).
      { intros Ht. apply IH in Ht.
        destruct Ht as (mid & e & post & f & -> & Hf & Ha & Hb).
        exists (e0 :: mid), e, post, f. rewrite <- app_assoc in Hf. auto. }
      destruct (find (hasKey (Convert.signatureKey e0)) before) as [f0|] eqn:Ef;
        [|now apply Htail].
      destruct H as [H | H]; [|now apply Htail].
      inversion H; subst. exists [], e0, es, f0. rewrite app_nil_r. auto.
    + intros (mid & e & post & f & Hes & Hf & Ha & Hb).
      destruct mid as [|m mid]; simpl in Hes; inversion Hes; subst.
      * rewrite app_nil_r in Hf. rewrite Hf. now left.
      * assert (Ht : In (rowNum f, rowNum e) (dupsFrom (before ++ [m]) (mid ++ e :: post))).
        { apply IH. exists mid, e, post, f. rewrite <- app_assoc. auto. }
        destruct (find (hasKey (Convert.signatureKey m)) before); [now right | assumption].
Qed.

Lemma dupsFrom_nil es : forall before,
  dupsFrom before es = [] <->
  (forall e, In e es -> find (hasKey (Convert.signatureKey e)) before = None) /\
  NoDup (map Convert.signatureKey es).
Proof.
  induction es as [|e0 es IH]; intros before; simpl.
  - split; [intros _; split; [contradiction | constructor] | reflexivity].
  - assert (Hstep : forall e,
              find (hasKey (Convert.signatureKey e)) (before ++ [e0]) = None <->
              find (hasKey (Convert.signatureKey e)) before = None /\
              Convert.signatureKey e0 <> Convert.signatureKey e).
    { intros e. rewrite find_app_first. simpl. unfold hasKey at 2.
      destruct (find (hasKey (Convert.signatureKey e)) before).
      - split; [discriminate | intros [H _]; discriminate].
      - destruct (str_eqb (Convert.signatureKey e0) (Convert.signatureKey e)) eqn:E.
        + apply str_eqb_eq in E. split; [discriminate | intros [_ H]; contradiction].
        + apply str_eqb_neq in E. tauto. }
    split.
    + intros H.
      destruct (find (hasKey (Convert.signatureKey e0)) before) eqn:Ef;
        [discriminate|].
      apply IH in H. destruct H as [Hnone Hnd]. split.
      * intros e [<- | Hin]; [assumption|]. now apply Hstep, Hnone.
      * constructor; [|assumption]. intros Hin. apply in_map_iff in Hin.
        destruct Hin as (e & Heq & Hin). apply Hnone, Hstep in Hin.
        destruct Hin as [_ Hne]. congruence.
    + intros [Hnone Hnd]. rewrite (Hnone e0) by now left.
      inversion Hnd as [|? ? Hnotin Hnd']; subst. apply IH. split; [|assumption].
      intros e Hin. apply Hstep. split; [apply Hnone; now right|].
      intros Heq. apply Hnotin. rewrite Heq. now apply in_map.
Qed.

(** X14: the duplicate check of [validate], for rows without Cyrillic
    letters and with row numbers other than 0 (as [parseExcel] numbers
    them).  [validate] returns, and a pair [(a, b)] is among its warnings
    exactly when [b] is the number of a row that comes after some row
    with the same key and [a] is the number of the first row with that
    key. *)
Theorem validate_warnings es :
  Forall (fun e => Convert.hasCyrillic e = false) es ->
  Forall (fun e => rowNum e <> 0) es ->
  exists dups,
    Convert.validate es = Returned dups /\
    forall a b,
      In (a, b) dups <->
      exists mid e post f,
        es = mid ++ e :: post /\
        find (hasKey (Convert.signatureKey e)) mid = Some f /\
        a = rowNum f /\ b = rowNum e.
Proof.
  intros Hc Hn. exists (dupsFrom [] es). split.
  - unfold Convert.validate. rewrite (filter_none Hc). simpl.
    now rewrite duplicates_by_key.
  - intros a b. apply dupsFrom_In.
Qed.

Lemma validate_warnings_witness :
  let e1 := mkEntry (lit "tcp") (lit "app:web") (lit "app:db")
                    (lit "egress") (lit "5432") 3 in
  let e2 := mkEntry (lit "udp") (lit "app:web") (lit "dns.example")
                    (lit "egress") (lit "53") 4 in
  let e3 := mkEntry (lit "TCP") (lit "app:web") (lit "app:db")
                    (lit "egress") (lit "5432") 5 in
  exists dups, Convert.validate [e1; e2; e3] = Returned dups /\ In (3, 5) dups.
Proof.
  intros e1 e2 e3.
  destruct (@validate_warnings [e1; e2; e3]) as (dups & Hv & Hin).
  - repeat constructor.
  - repeat constructor; discriminate.
  - exists dups. split; [exact Hv|]. apply Hin.
    exists [e1; e2], e3, [], e1. repeat split; reflexivity.
Defined.

(** X15: when [validate] is silent.  For rows without Cyrillic letters
    and with row numbers other than 0, [validate] returns without any
    duplicate warning exactly when the keys of the rows differ pairwise;
    where no cell holds a [|], that is exactly when the signatures
    (direction, source, destination, port, upper-cased protocol with
    [ANY] for none) differ pairwise. *)
Theorem validate_silent es :
  Forall (fun e => Convert.hasCyrillic e = false) es ->
  Forall (fun e => rowNum e <> 0) es ->
  (Convert.validate es = Returned [] <-> NoDup (map Convert.signatureKey es)) /\
  (Forall pipeFree es ->
     (Convert.validate es = Returned [] <-> NoDup (map signature es))).
Proof.
  intros Hc Hn.
  assert (Hv : Convert.validate es = Returned (dupsFrom [] es)).
  { unfold Convert.validate. rewrite (filter_none Hc). simpl.
    now rewrite duplicates_by_key. }
  assert (Hkeys : Convert.validate es = Returned [] <->
                  NoDup (map Convert.signatureKey es)).
  { rewrite Hv. split.
    - intros H. inversion H as [H0]. now apply dupsFrom_nil in H0.
    - intros H. f_equal. apply dupsFrom_nil. split; [reflexivity | assumption]. }
  split; [exact Hkeys|].
  intros Hp. rewrite Hkeys. rewrite Forall_forall in Hp.
  split; apply NoDup_map_same; intros x y Hx Hy; split;
    try apply signature_key; apply signatureKey_injective; auto.
Qed.

Lemma validate_silent_witness :
  let e1 := mkEntry (lit "tcp") (lit "app:web") (lit "app:db")
                    (lit "egress") (lit "5432") 3 in
  let e2 := mkEntry (lit "udp") (lit "app:web") (lit "dns.example")
                    (lit "egress") (lit "53") 4 in
  Convert.validate [e1; e2] = Returned [].
Proof.
  intros e1 e2.
  destruct (@validate_silent [e1; e2]) as [Hk _].
  - repeat constructor.
  - repeat constructor; discriminate.
  - apply Hk. repeat constructor; simpl; intuition discriminate.
Defined.

(* ================================================================== *)
(** ** Further properties: assembly *)

Lemma length_filter_split (A : Type) (p : A -> bool) (l : list A) :
  (List.length (filter p l) + List.length (filter (fun x => negb (p x)) l)
   = List.length l)%nat.
Proof.
  induction l as [|x l IH]; simpl; auto.
  destruct (p x); simpl; lia.
Qed.

Lemma fragments_count (mk : entry -> rule) ns key ents :
  (List.length (ingressOf (buildPolicyWith mk ns key ents))
   + List.length (egressOf (buildPolicyWith mk ns key ents))
   = List.length ents)%nat.
Proof.
  rewrite ingressOf_buildPolicy, egressOf_buildPolicy, !length_map.
  apply length_filter_split.
Qed.

(** X16: [buildPolicy] loses no row and invents none: the ingress and
    egress lists of the document together hold exactly one fragment per
    row of the group, in [convert.js] and in [converter_03_07_2025.js];
    so the document has neither an [ingress] nor an [egress] key only
    for a group without rows. *)
Theorem buildPolicy_fragment_count ns key ents :
  (List.length (ingressOf (Convert.buildPolicy ns key ents))
   + List.length (egressOf (Convert.buildPolicy ns key ents))
   = List.length ents)%nat /\
  (List.length (ingressOf (Converter0307.buildPolicy ns key ents))
   + List.length (egressOf (Converter0307.buildPolicy ns key ents))
   = List.length ents)%nat /\
  (ingress (spec (Convert.buildPolicy ns key ents)) = None /\
   egress (spec (Convert.buildPolicy ns key ents)) = None <-> ents = []).
Proof.
  split; [apply fragments_count|]. split; [apply fragments_count|].
  unfold Convert.buildPolicy.
  rewrite ingress_key_buildPolicy, egress_key_buildPolicy.
  pose proof (length_filter_split isIngress ents) as Hlen.
  fold notIngress in Hlen. split.
  - intros [Hi He].
    destruct (filter isIngress ents); [|discriminate].
    destruct (filter notIngress ents); [|discriminate].
    destruct ents; [reflexivity | simpl in Hlen; lia].
  - intros ->. split; reflexivity.
Qed.

Lemma splitLabels_single kv :
  cleanLabel kv -> splitLabels (writeLabel kv) = [kv].
Proof.
  intros H. unfold splitLabels.
  change (writeLabel kv) with (join [ch_comma] (map writeLabel [kv])).
  rewrite labelSegments_write by (constructor; [assumption | constructor]).
  rewrite fold_assign_fresh; [reflexivity | now constructor |].
  unfold wellFormed. simpl. constructor; [tauto | constructor].
Qed.

Lemma ownValues_single (V : Type) (k : jsstring) (v : V) :
  ownValues [(k, v)] = [v].
Proof. unfold ownValues, ownEntries. simpl. now destruct (isArrayIndex k). Qed.

(** X17: generated names can collide.  Two groups whose keys are single
    labels with different label keys and the same value get documents of
    the same name, the namespace, [-] and the value, while their endpoint
    selectors differ. *)
Theorem buildPolicy_name_collision ns k1 k2 v ents1 ents2 :
  cleanLabel (k1, v) -> cleanLabel (k2, v) -> k1 <> k2 ->
  let p1 := Convert.buildPolicy ns (writeLabel (k1, v)) ents1 in
  let p2 := Convert.buildPolicy ns (writeLabel (k2, v)) ents2 in
  metaName p1 = ns ++ lit "-" ++ v /\
  metaName p2 = metaName p1 /\
  metaNamespace p2 = metaNamespace p1 /\
  endpointSelector (spec p1) <> endpointSelector (spec p2).
Proof.
  intros H1 H2 Hne p1 p2. subst p1 p2. unfold Convert.buildPolicy, buildPolicyWith.
  rewrite !fold_routeRule. simpl.
  rewrite (splitLabels_single H1), (splitLabels_single H2).
  rewrite !ownValues_single. simpl.
  unfold ownKeys, ownEntries. simpl.
  destruct (isArrayIndex k1); destruct (isArrayIndex k2); simpl;
    repeat split; congruence.
Qed.

Lemma buildPolicy_name_collision_witness :
  metaName (Convert.buildPolicy (lit "prod") (lit "app:web") [])
  = metaName (Convert.buildPolicy (lit "prod") (lit "tier:web") []).
Proof.
  destruct (@buildPolicy_name_collision (lit "prod") (lit "tier") (lit "app")
              (lit "web") [] []) as (_ & Heq & _).
  - unfold cleanLabel, Trimmed; repeat split; try reflexivity;
      vm_compute; intuition discriminate.
  - unfold cleanLabel, Trimmed; repeat split; try reflexivity;
      vm_compute; intuition discriminate.
  - discriminate.
  - exact Heq.
Defined.

Lemma existsb_key_get (V : Type) (o : obj V) k :
  existsb (str_eqb k) (map fst o) = match obj_get k o with Some _ => true | None => false end.
Proof.
  induction o as [|[k0 v0] o IH]; simpl; auto.
  destruct (str_eqb k k0); auto.
Qed.

(** X18: what [defaultPolicies] does to the baseline documents.  There
    are as many emitted documents as loaded ones; all of them carry one
    and the same metadata, whatever names the baseline had; a document
    that had a [metadata] key keeps its keys in the order of
    [Object.keys], one without gets [metadata] as its last key. *)
Theorem defaultPolicies_collapse ns docs :
  List.length (Convert.defaultPolicies ns docs) = List.length docs /\
  (forall d, In d (Convert.defaultPolicies ns docs) ->
     obj_get (lit "metadata") d = Some (defaultMetadata ns)) /\
  (forall doc, wellFormed doc ->
     wellFormed (Convert.rewriteDefault ns doc) /\
     map fst (Convert.rewriteDefault ns doc)
     = match obj_get (lit "metadata") doc with
       | Some _ => ownKeys doc
       | None => ownKeys doc ++ [lit "metadata"]
       end).
Proof.
  unfold Convert.defaultPolicies. split; [apply length_map|]. split.
  - intros d Hd. apply in_map_iff in Hd. destruct Hd as (doc & <- & _).
    unfold Convert.rewriteDefault. apply obj_get_put_same.
  - intros doc Hwf. unfold Convert.rewriteDefault.
    rewrite spreadInto_empty by assumption. split.
    + apply wellFormed_obj_put. now apply wellFormed_ownEntries.
    + rewrite keys_obj_put, existsb_key_get, obj_get_ownEntries.
      unfold ownKeys. now destruct (obj_get (lit "metadata") doc).
Qed.

Lemma defaultPolicies_collapse_witness :
  let doc := [ (lit "kind", YString (lit "CiliumNetworkPolicy"));
               (lit "spec", YMap []) ] in
  map fst (Convert.rewriteDefault (lit "prod") doc)
  = [lit "kind"; lit "spec"; lit "metadata"].
Proof.
  intros doc.
  destruct (defaultPolicies_collapse (lit "prod") [doc]) as (_ & _ & Hkeys).
  destruct (Hkeys doc) as [_ Hk].
  - unfold wellFormed. simpl.
    repeat (constructor; [simpl; intuition discriminate|]). constructor.
  - rewrite Hk. reflexivity.
Defined.

(* ================================================================== *)
(** ** Further properties: the run as a whole *)

Lemma parseExcel_agree rows res :
  Convert.parseExcel rows = inr res -> groupsAgree (groups res) (entries res).
Proof.
  unfold Convert.parseExcel. destruct (Convert.parseNamespace rows) as [x|ns];
    [discriminate|].
  intros H. apply extractRows_agree in H; [exact H|].
  simpl. repeat split; try constructor. intros k H0. now contradiction H0.
Qed.

Lemma list_sum_perm (l l' : list nat) :
  Permutation l l' -> list_sum l = list_sum l'.
Proof. induction 1; simpl; lia. Qed.

Lemma groupedRows_ownEntries (g : obj (list entry)) :
  groupedRows (ownEntries g) = groupedRows g.
Proof.
  unfold groupedRows. apply list_sum_perm, Permutation_map, ownEntries_perm.
Qed.

Lemma fragments_excelPolicies res :
  list_sum (map fragmentsOf (map Convert.Generated (Convert.excelPolicies res)))
  = groupedRows (groups res).
Proof.
  rewrite <- groupedRows_ownEntries. unfold Convert.excelPolicies, groupedRows.
  rewrite !map_map. f_equal. apply map_ext. intros [k ents]. simpl.
  apply fragments_count.
Qed.

Lemma fragments_baseline (l : list (obj yamlValue)) :
  list_sum (map fragmentsOf (map Convert.Baseline l)) = 0%nat.
Proof. induction l; simpl; auto. Qed.

Lemma list_sum_app' (l l' : list nat) :
  list_sum (l ++ l') = (list_sum l + list_sum l')%nat.
Proof. induction l; simpl; lia. Qed.

Lemma answer_yes answer :
  startsWith (lit "y") (toLowerCase answer) = true ->
  exists c rest, answer = c :: rest /\ (c = 121 \/ c = 89).
Proof.
  destruct answer as [|c rest]; [discriminate|].
  intros H. exists c, rest. split; [reflexivity|].
  change (((121 =? (if isUpperAZ c then c + 32 else c)) && true) = true) in H.
  apply andb_true_iff in H. destruct H as [H _].
  apply N.eqb_eq in H. unfold isUpperAZ in H.
  destruct (65 <=? c) eqn:E1; destruct (c <=? 90) eqn:E2;
    cbn [andb] in H; lia.
Qed.

(** X19: what a run of [main] that writes the output went through, and
    what it writes.  The argument names an existing [.xlsx] file whose
    sheet is extracted without error, no kept row lacks its rule number,
    and no entry holds a Cyrillic letter; the file written is
    [<namespace>.yaml], and if it existed the answer began with [y] or
    [Y].  The documents are the rewritten baseline documents followed by
    one document per group; together the group documents carry exactly
    one rule fragment per extracted row. *)
Theorem main_written R D w file answer cov dups out docs :
  Convert.main R D w file answer = Convert.Done cov dups (Some (out, docs)) ->
  exists f res,
    file = Some f /\ Convert.isXlsx f = true /\ Convert.existsSync w f = true /\
    Convert.parseExcel (Convert.readSheet w f) = inr res /\
    missingNums res = [] /\
    (forall e, In e (entries res) -> ~ CyrillicIn e) /\
    out = namespace res ++ lit ".yaml" /\
    (Convert.existsSync w out = true ->
       exists c rest, answer = c :: rest /\ (c = 121 \/ c = 89)) /\
    docs = map Convert.Baseline (Convert.defaultPolicies (namespace res) D)
           ++ map Convert.Generated (Convert.excelPolicies res) /\
    List.length docs = (List.length D + List.length (groups res))%nat /\
    list_sum (map fragmentsOf docs) = List.length (entries res) /\
    cov = Convert.hasAll R (entries res).
Proof.
  unfold Convert.main. destruct file as [f|]; [|discriminate].
  destruct (negb (nonEmpty f) || negb (Convert.isXlsx f)) eqn:Earg; [discriminate|].
  destruct (negb (Convert.existsSync w f)) eqn:Eex; [discriminate|].
  destruct (Convert.parseExcel (Convert.readSheet w f)) as [x|res] eqn:Ep;
    [discriminate|].
  destruct (nonEmpty (missingNums res)) eqn:Em; [discriminate|].
  destruct (Convert.validate (entries res)) as [bad|dups0] eqn:Ev; [discriminate|].
  intros H.
  assert (Hshape : cov = Convert.hasAll R (entries res) /\
                   out = namespace res ++ lit ".yaml" /\
                   docs = Convert.allDocs D res /\
                   (Convert.existsSync w (namespace res ++ lit ".yaml") = true ->
                    startsWith (lit "y") (toLowerCase answer) = true)).
  { destruct (Convert.existsSync w (namespace res ++ lit ".yaml")).
    - destruct (startsWith (lit "y") (toLowerCase answer)); inversion H; auto.
    - inversion H. repeat split; auto. discriminate. }
  destruct Hshape as (Hcov & Hout & Hdocs & Hans).
  apply orb_false_iff in Earg. destruct Earg as [_ Hx].
  apply negb_false_iff in Hx, Eex. apply nonEmpty_false in Em.
  exists f, res. repeat split; auto.
  - intros e Hin Hc. apply hasCyrillic_iff in Hc.
    unfold Convert.validate in Ev.
    destruct (filter Convert.hasCyrillic (entries res)) as [|b l] eqn:Ef;
      [|discriminate].
    assert (Hb : In e (filter Convert.hasCyrillic (entries res)))
      by (apply filter_In; auto).
    now rewrite Ef in Hb.
  - subst out. intros Hex. apply answer_yes. auto.
  - rewrite Hdocs. unfold Convert.allDocs, Convert.excelPolicies, Convert.defaultPolicies.
    rewrite length_app, !length_map. now rewrite length_ownEntries.
  - rewrite Hdocs. unfold Convert.allDocs.
    rewrite map_app, list_sum_app', fragments_baseline, fragments_excelPolicies.
    now destruct (parseExcel_agree Ep) as (_ & _ & _ & Hc).
Qed.

Lemma main_written_witness :
  let table :=
    [ [CString (lit "rules")];
      [CString (lit "namespace:prod")];
      [CNumber 1; CString (lit "tcp"); CString (lit "app:web");
       CString (lit "ingress"); CString (lit "10.0.0.0/8"); CNumber 443];
      [CNumber 2; CString (lit "udp"); CString (lit "app:web");
       CString (lit "egress"); CString (lit "dns.example"); CNumber 53] ] in
  let w := Convert.mkWorld (fun p => str_eqb p (lit "rules.XLSX"))
                           (fun _ => table) in
  exists docs,
    Convert.main [] [] w (Some (lit "rules.XLSX")) []
    = Convert.Done true [] (Some (lit "prod.yaml", docs)) /\
    list_sum (map fragmentsOf docs) = 2%nat.
Proof.
  intros table w.
  destruct (Convert.main [] [] w (Some (lit "rules.XLSX")) []) as [y|x|c d wr] eqn:E;
    try (vm_compute in E; discriminate).
  destruct wr as [[out docs]|]; [|vm_compute in E; discriminate].
  destruct (main_written E) as (f & res & _ & _ & _ & Hp & _ & _ & _ & _ & _ & _ & Hsum & _).
  exists docs. split.
  - vm_compute in E. inversion E. reflexivity.
  - rewrite Hsum. vm_compute in Hp. inversion Hp. reflexivity.
Defined.

Lemma eitherCase_lower lo up c :
  up + 32 = lo -> isUpperAZ up = true -> isUpperAZ lo = false ->
  ((c =? lo) || (c =? up) = true
   <-> (if isUpperAZ c then c + 32 else c) = lo).
Proof.
  intros Hup Hu Hl. split.
  - intros H. apply orb_true_iff in H.
    destruct H as [H | H]; apply N.eqb_eq in H; subst c.
    + now rewrite Hl.
    + now rewrite Hu.
  - intros H. apply orb_true_iff.
    destruct (isUpperAZ c) eqn:E.
    + right. apply N.eqb_eq. lia.
    + left. now apply N.eqb_eq.
Qed.

Lemma lang_eitherCase lo up s :
  up + 32 = lo -> isUpperAZ up = true -> isUpperAZ lo = false ->
  (lang (Convert.eitherCase lo up) s <-> toLowerCase s = [lo]).
Proof.
  intros Hup Hu Hl. unfold Convert.eitherCase. rewrite lang_class_inv. split.
  - intros (c & -> & H). simpl. f_equal.
    now apply (eitherCase_lower c Hup Hu Hl).
  - destruct s as [|c [|c' s]]; simpl; try discriminate.
    intros H. injection H as Hc. exists c. split; [reflexivity|].
    apply (eitherCase_lower c Hup Hu Hl). exact Hc.
Qed.

Lemma toLowerCase_app a b :
  toLowerCase (a ++ b) = toLowerCase a ++ toLowerCase b.
Proof. apply map_app. Qed.

Lemma lang_xlsx s : lang Convert.re_xlsx s <-> toLowerCase s = lit ".xlsx".
Proof.
  unfold Convert.re_xlsx. rewrite lang_dot_then. split.
  - intros (t & -> & H).
    apply lang_cat_inv in H. destruct H as (a & t1 & -> & Ha & H).
    apply lang_cat_inv in H. destruct H as (b & t2 & -> & Hb & H).
    apply lang_cat_inv in H. destruct H as (c & d & -> & Hc & Hd).
    apply lang_eitherCase in Ha, Hb, Hc, Hd; try reflexivity.
    change (ch_dot :: a ++ b ++ c ++ d) with ([ch_dot] ++ a ++ b ++ c ++ d).
    rewrite !toLowerCase_app, Ha, Hb, Hc, Hd. reflexivity.
  - intros H.
    destruct s as [|c0 [|c1 [|c2 [|c3 [|c4 [|c5 s]]]]]]; try discriminate.
    unfold toLowerCase in H. cbn [map] in H.
    injection H as H0 H1 H2 H3 H4.
    assert (c0 = ch_dot).
    { unfold isUpperAZ in H0.
      destruct ((65 <=? c0) && (c0 <=? 90)) eqn:E; [|exact H0].
      apply andb_true_iff in E. destruct E as [E _]. apply N.leb_le in E.
      unfold ch_dot. lia. }
    subst c0. exists [c1; c2; c3; c4]. split; [reflexivity|].
    change [c1; c2; c3; c4] with ([c1] ++ [c2] ++ [c3] ++ [c4]).
    repeat apply LCat; apply lang_eitherCase; try reflexivity;
      unfold toLowerCase; cbn [map]; f_equal; assumption.
Qed.

Lemma isXlsx_iff f :
  Convert.isXlsx f = true
  <-> exists stem ext, f = stem ++ ext /\ toLowerCase ext = lit ".xlsx".
Proof.
  unfold Convert.isXlsx. rewrite matches_lang, lang_cat_inv. split.
  - intros (s1 & s2 & -> & _ & H). exists s1, s2. split; [reflexivity|].
    now apply lang_xlsx.
  - intros (s1 & s2 & -> & H). exists s1, s2. split; [reflexivity|].
    split; [apply lang_star_any | now apply lang_xlsx].
Qed.

(** X20: the argument check of [main].  The run stops with the usage
    error exactly when no argument is given or the argument does not end
    with [.xlsx] written in any mix of letter cases; the check looks at
    the name only, so it is the same whatever the file system holds. *)
Theorem main_argument R D w file answer :
  Convert.main R D w file answer = Convert.ExitError Convert.BadArgument
  <-> (forall f, file = Some f ->
         ~ exists stem ext, f = stem ++ ext /\ toLowerCase ext = lit ".xlsx").
Proof.
  unfold Convert.main. destruct file as [f|].
  - destruct (Convert.isXlsx f) eqn:Ex.
    + assert (Hne : nonEmpty f = true).
      { destruct f; [vm_compute in Ex; discriminate | reflexivity]. }
      rewrite Hne. cbn [negb orb]. split.
      * intros H. exfalso.
        destruct (negb (Convert.existsSync w f)); [discriminate|].
        destruct (Convert.parseExcel _) as [x|res]; [discriminate|].
        destruct (nonEmpty (missingNums res)); [discriminate|].
        destruct (Convert.validate _); [discriminate|].
        destruct (Convert.existsSync w _); [|discriminate].
        destruct (startsWith _ _); discriminate.
      * intros H. exfalso. apply (H f eq_refl). now apply isXlsx_iff.
    + rewrite orb_true_r. split; [|reflexivity].
      intros _ f' Hf' Hx. inversion Hf'; subst f'.
      apply isXlsx_iff in Hx. congruence.
  - split; [|reflexivity]. intros _ f Hf. discriminate.
Qed.

Lemma main_argument_witness :
  Convert.main [] [] (Convert.mkWorld (fun _ => true) (fun _ => []))
               (Some (lit "rules.xlsx.bak")) (lit "y")
  = Convert.ExitError Convert.BadArgument.
Proof.
  apply main_argument. intros f Hf (stem & ext & Hs & He).
  inversion Hf; subst f. clear Hf.
  assert (Hx : Convert.isXlsx (lit "rules.xlsx.bak") = true).
  { apply isXlsx_iff. exists stem, ext. now split. }
  vm_compute in Hx. discriminate.
Defined.

(* ================================================================== *)
(** ** Further properties: the coverage message *)

Lemma covers_port cfg e :
  Convert.covers cfg e = true ->
  direction e = Convert.bDirection cfg /\ port e = Convert.bPort cfg.
Proof.
  unfold Convert.covers. intros H.
  apply andb_true_iff in H. destruct H as [H _].
  apply andb_true_iff in H. destruct H as [Hd Hp].
  split; now apply str_eqb_eq.
Qed.

Lemma portList_single it : cleanItem it -> portList it = [it].
Proof.
  intros H. apply (@portList_join [it]). now constructor.
Qed.

(** X21: the coverage test of [main] compares whole port cells.  A row
    counts for a baseline rule with a clean port only when its rule opens
    that one port and nothing else: a row that lists the baseline port
    among several never counts, although its rule opens the port.  Rows
    added to the table never undo coverage. *)
Theorem coverage_whole_cell R :
  (forall es es', incl es es' ->
     Convert.hasAll R es = true -> Convert.hasAll R es' = true) /\
  (forall cfg e, cleanItem (Convert.bPort cfg) ->
     Convert.covers cfg e = true ->
     map portValue (toPorts (Convert.makeRule e)) = [Convert.bPort cfg]) /\
  (forall cfg es, In cfg R -> cleanItem (Convert.bPort cfg) ->
     (forall e, In e es ->
        (1 < List.length (toPorts (Convert.makeRule e)))%nat) ->
     Convert.hasAll R es = false).
Proof.
  assert (Hone : forall cfg e, cleanItem (Convert.bPort cfg) ->
            Convert.covers cfg e = true ->
            map portValue (toPorts (Convert.makeRule e)) = [Convert.bPort cfg]).
  { intros cfg e Hclean Hc. apply covers_port in Hc. destruct Hc as [_ Hp].
    rewrite toPorts_makeRule, map_portValue_portsArray, Hp.
    now apply portList_single. }
  split; [|split; [exact Hone|]].
  - intros es es' Hincl H. unfold Convert.hasAll in *.
    rewrite forallb_forall in *. intros cfg Hcfg.
    specialize (H cfg Hcfg). rewrite existsb_exists in *.
    destruct H as (e & He & Hc). exists e. split; [now apply Hincl | exact Hc].
  - intros cfg es Hcfg Hclean Hmany.
    destruct (Convert.hasAll R es) eqn:E; [|reflexivity]. exfalso.
    unfold Convert.hasAll in E. rewrite forallb_forall in E.
    specialize (E cfg Hcfg). apply existsb_exists in E.
    destruct E as (e & He & Hc).
    specialize (Hmany e He). specialize (Hone cfg e Hclean Hc).
    apply (f_equal (@List.length _)) in Hone. rewrite length_map in Hone.
    simpl in Hone. lia.
Qed.

Lemma coverage_whole_cell_witness :
  let dns := Convert.mkBaseline (lit "egress") (lit "53") (lit "UDP") in
  let row := mkEntry (lit "udp") (lit "app:web") (lit "kube-dns")
                     (lit "egress") (lit "53,5353") 3 in
  In (lit "53") (map portValue (toPorts (Convert.makeRule row))) /\
  Convert.hasAll [dns] [row] = false.
Proof.
  intros dns row. split.
  - vm_compute. now left.
  - destruct (coverage_whole_cell [dns]) as (_ & _ & H).
    apply (H dns [row]).
    + now left.
    + unfold cleanItem. repeat split; try reflexivity. discriminate.
    + intros e [<- | []]. vm_compute. lia.
Defined.

(** X22: the baseline rules [main] compares the table with decide the
    coverage message and nothing else.  Whatever they are, the run ends
    the same way, reports the same duplicates and writes the same file
    with the same documents, the baseline documents included. *)
Theorem coverage_message_only R R' D w file answer :
  match Convert.main R D w file answer, Convert.main R' D w file answer with
  | Convert.Done _ d1 w1, Convert.Done _ d2 w2 => d1 = d2 /\ w1 = w2
  | o1, o2 => o1 = o2
  end.
Proof.
  unfold Convert.main. destruct file as [f|]; [|reflexivity].
  destruct (negb (nonEmpty f) || negb (Convert.isXlsx f)); [reflexivity|].
  destruct (negb (Convert.existsSync w f)); [reflexivity|].
  destruct (Convert.parseExcel _) as [x|res]; [reflexivity|].
  destruct (nonEmpty (missingNums res)); [reflexivity|].
  destruct (Convert.validate _); [reflexivity|].
  destruct (Convert.existsSync w _); [|now split].
  destruct (startsWith _ _); now split.
Qed.

(* ================================================================== *)
(** ** Further properties: the two versions of [parseExcel] *)

Lemma isWhiteSpace_lower c :
  isWhiteSpace (if isUpperAZ c then c + 32 else c) = isWhiteSpace c.
Proof.
  unfold isUpperAZ. destruct ((65 <=? c) && (c <=? 90)) eqn:E; [|reflexivity].
  apply andb_true_iff in E. destruct E as [E1 E2].
  apply N.leb_le in E1, E2. unfold isWhiteSpace.
  repeat match goal with
  | |- context [(?a <=? ?b)] =>
      let H := fresh in destruct (N.leb_spec a b) as [H|H]; try lia
  | |- context [(?a =? ?b)] =>
      let H := fresh in destruct (N.eqb_spec a b) as [H|H]; try lia
  end; reflexivity.
Qed.

Lemma trimStart_toLowerCase s :
  trimStart (toLowerCase s) = toLowerCase (trimStart s).
Proof.
  induction s as [|c s IH]; [reflexivity|].
  unfold toLowerCase in *. cbn [map trimStart].
  rewrite isWhiteSpace_lower. destruct (isWhiteSpace c); [exact IH | reflexivity].
Qed.

Lemma trim_toLowerCase s : trim (toLowerCase s) = toLowerCase (trim s).
Proof.
  unfold trim, trimEnd. rewrite trimStart_toLowerCase.
  unfold toLowerCase at 1. rewrite <- map_rev.
  fold (toLowerCase (rev (trimStart s))). rewrite trimStart_toLowerCase.
  unfold toLowerCase. now rewrite map_rev.
Qed.

Lemma rowField_text row k :
  orEmpty (Converter0307.rowField row k) = trim (cellText (rowCell row k)).
Proof.
  unfold Converter0307.rowField, rowCell.
  destruct (nth_error row k) as [c|] eqn:E.
  - rewrite (nth_error_nth _ _ CUndef E). now destruct c.
  - apply nth_error_None in E. now rewrite nth_overflow.
Qed.

Lemma rowField_key row :
  isProtoName (Converter0307.propertyKey (Converter0307.rowField row 2)) = false ->
  isProtoName (Convert.rowGroupKey row) = false.
Proof.
  unfold Convert.rowGroupKey. rewrite <- rowField_text.
  now destruct (Converter0307.rowField row 2).
Qed.

Lemma sameRow_rowEntry i row dirRaw :
  Converter0307.rowField row 3 = Some dirRaw ->
  sameRow (Convert.rowEntry i row)
    (if str_eqb (toLowerCase dirRaw) (lit "ingress")
     then Converter0307.mkRaw (Converter0307.rowField row 1)
            (Converter0307.rowField row 4) (Converter0307.rowField row 2)
            (toLowerCase dirRaw) (Converter0307.rowField row 5) (i + 1)
     else Converter0307.mkRaw (Converter0307.rowField row 1)
            (Converter0307.rowField row 2) (Converter0307.rowField row 4)
            (toLowerCase dirRaw) (Converter0307.rowField row 5) (i + 1)).
Proof.
  intros Hd. unfold Convert.rowEntry.
  assert (Hdir : trim (toLowerCase (cellText (rowCell row 3)))
                 = toLowerCase dirRaw).
  { rewrite trim_toLowerCase, <- rowField_text, Hd. reflexivity. }
  rewrite Hdir.
  destruct (str_eqb (toLowerCase dirRaw) (lit "ingress"));
    unfold sameRow; simpl; rewrite !rowField_text; repeat split; reflexivity.
Qed.

Lemma pushGroup0307_keys k e g g' :
  Converter0307.pushGroup k e g = Some g' ->
  (forall k0, isProtoName k0 = true -> obj_get k0 g = None) ->
  isProtoName k = false /\
  (forall k0, isProtoName k0 = true -> obj_get k0 g' = None).
Proof.
  unfold Converter0307.pushGroup. intros H Hinv.
  assert (Hk : isProtoName k = false).
  { destruct (isProtoName k) eqn:E; [|reflexivity].
    rewrite (Hinv k E) in H. discriminate. }
  split; [exact Hk|]. intros k0 Hk0.
  assert (Hne : k0 <> k) by (intros ->; congruence).
  destruct (obj_get k g) as [l|]; [|rewrite Hk in H]; inversion H; subst;
    rewrite obj_get_put_other by assumption; now apply Hinv.
Qed.

Lemma extractRows0307_sim rows : forall i st st',
  Converter0307.extractRows i rows st = inr st' ->
  (forall k, isProtoName k = true ->
     obj_get k (Converter0307.rGroups st) = None) ->
  let data := filter (fun ir => Convert.hasData (snd ir)) (indexFrom i rows) in
  (forall row, In row rows -> Convert.hasData row = true ->
     Converter0307.rowField row 3 <> None /\
     isProtoName (Converter0307.propertyKey (Converter0307.rowField row 2))
     = false) /\
  Converter0307.rNamespace st' = Converter0307.rNamespace st /\
  (exists news,
     Converter0307.rEntries st' = Converter0307.rEntries st ++ news /\
     Forall2 (fun ir e' =>
                sameRow (Convert.rowEntry (fst ir) (snd ir)) e' /\
                Converter0307.rPort e' = Converter0307.rowField (snd ir) 5)
             data news) /\
  Converter0307.rMissingNums st'
  = Converter0307.rMissingNums st
    ++ map (fun ir => fst ir + 1)
           (filter (fun ir => negb (truthy (rowCell (snd ir) 0))) data).
Proof.
  induction rows as [|row rows IH]; intros i st st' H Hinv; simpl in H.
  - inversion H; subst. simpl. split; [intros ? []|]. split; [reflexivity|].
    split; [exists []; split; [now rewrite app_nil_r | constructor]|].
    now rewrite app_nil_r.
  - change (Converter0307.hasData row) with (Convert.hasData row) in H.
    cbn [indexFrom filter snd]. destruct (Convert.hasData row) eqn:Ed.
    + cbn [negb andb] in H.
      destruct (Converter0307.rowField row 3) as [dirRaw|] eqn:Edir;
        [|discriminate].
      destruct (Converter0307.pushGroup _ _ _) as [g|] eqn:Ep; [|discriminate].
      destruct (pushGroup0307_keys Ep Hinv) as [Hk Hinv'].
      apply IH in H; [|exact Hinv']. cbn [Converter0307.rGroups
        Converter0307.rEntries Converter0307.rMissingNums
        Converter0307.rNamespace] in H.
      destruct H as (Hrows & Hns & (news & Hnews & Hall) & Hm).
      split; [|split; [exact Hns|split]].
      * intros r [<- | Hr] Hdr.
        -- split; [now rewrite Edir | exact Hk].
        -- now apply Hrows.
      * eexists (_ :: news). split.
        -- rewrite Hnews, <- app_assoc. reflexivity.
        -- constructor; [|exact Hall]. cbn [fst snd]. split.
           ++ now apply sameRow_rowEntry.
           ++ now destruct (str_eqb (toLowerCase dirRaw) (lit "ingress")).
      * rewrite Hm. cbn [filter snd fst map].
        destruct (truthy (rowCell row 0)); cbn [negb map];
          [reflexivity | now rewrite <- app_assoc].
    + cbn [negb andb] in H. apply IH in H; [|exact Hinv].
      cbn [Converter0307.rGroups Converter0307.rEntries
           Converter0307.rMissingNums Converter0307.rNamespace] in H.
      destruct H as (Hrows & Hns & Hnews & Hm).
      split; [|split; [exact Hns|split; [exact Hnews | exact Hm]]].
      intros r [<- | Hr] Hdr; [congruence | now apply Hrows].
Qed.

Lemma parseExcel0307_header rows :
  includes ch_colon (trim (cellText (headerCell rows))) = true ->
  Convert.parseNamespace rows
  = inr (trim (join [ch_colon]
           (tl (splitChar ch_colon (trim (cellText (headerCell rows))))))).
Proof.
  unfold headerCell, Convert.parseNamespace.
  destruct (nth_error rows 1) as [r1|]; [|vm_compute; discriminate].
  unfold cellText. destruct (truthy (rowCell r1 0)); [|vm_compute; discriminate].
  intros H. cbn [negb]. now rewrite H.
Qed.

Lemma extractRows0307_returns rows : forall i st,
  (forall row, In row rows -> Convert.hasData row = true ->
     Converter0307.rowField row 3 <> None /\
     isProtoName (Converter0307.propertyKey (Converter0307.rowField row 2))
     = false) ->
  exists st', Converter0307.extractRows i rows st = inr st'.
Proof.
  induction rows as [|row rows IH]; intros i st H; simpl; [eauto|].
  change (Converter0307.hasData row) with (Convert.hasData row).
  destruct (Convert.hasData row) eqn:Ed; cbn [negb andb].
  - destruct (H row (or_introl eq_refl) Ed) as [Hdir Hk].
    destruct (Converter0307.rowField row 3) as [dirRaw|]; [|congruence].
    unfold Converter0307.pushGroup. rewrite Hk.
    destruct (obj_get _ _); apply IH; intros r Hr; apply H; now right.
  - apply IH. intros r Hr. apply H. now right.
Qed.

Lemma Forall2_In_l (A B : Type) (R : A -> B -> Prop) l l' x :
  Forall2 R l l' -> In x l -> exists y, In y l' /\ R x y.
Proof.
  induction 1 as [|a b l l' Hab _ IH]; intros Hin; [contradiction|].
  destruct Hin as [-> | Hin].
  - exists b. split; [now left | exact Hab].
  - destruct (IH Hin) as (y & Hy & Hr). exists y. split; [now right | exact Hr].
Qed.

Lemma Forall2_map_l (A B C : Type) (f : A -> C) (R : C -> B -> Prop) l l' :
  Forall2 (fun a b => R (f a) b) l l' -> Forall2 R (map f l) l'.
Proof. induction 1; simpl; constructor; auto. Qed.

Lemma parseExcel0307_sim rows r' :
  Converter0307.parseExcel rows = inr r' ->
  includes ch_colon (trim (cellText (headerCell rows))) = true /\
  (forall ir, In ir (dataRows rows) ->
     Converter0307.rowField (snd ir) 3 <> None /\
     isProtoName (Converter0307.propertyKey
                    (Converter0307.rowField (snd ir) 2)) = false) /\
  Converter0307.rNamespace r'
  = trim (join [ch_colon]
       (tl (splitChar ch_colon (trim (cellText (headerCell rows)))))) /\
  Forall2 (fun ir e' =>
             sameRow (Convert.rowEntry (fst ir) (snd ir)) e' /\
             Converter0307.rPort e' = Converter0307.rowField (snd ir) 5)
          (dataRows rows) (Converter0307.rEntries r') /\
  Converter0307.rMissingNums r'
  = map (fun ir => fst ir + 1)
        (filter (fun ir => negb (truthy (rowCell (snd ir) 0))) (dataRows rows)).
Proof.
  unfold Converter0307.parseExcel. fold (headerCell rows).
  destruct (includes ch_colon (trim (cellText (headerCell rows)))) eqn:Eh;
    [|discriminate].
  cbn [negb]. intros H. apply extractRows0307_sim in H;
    [|intros k _; reflexivity].
  cbn [Converter0307.rEntries Converter0307.rMissingNums
       Converter0307.rNamespace app] in H.
  destruct H as (Hrows & Hns & (news & Hnews & Hall) & Hm).
  split; [reflexivity|]. split; [|split; [exact Hns|split]].
  - intros [i row] Hin. unfold dataRows in Hin. apply filter_In in Hin.
    destruct Hin as [Hin Hd]. apply In_indexFrom_row in Hin.
    now apply Hrows.
  - rewrite Hnews. exact Hall.
  - exact Hm.
Qed.

(** X23: the two versions of [parseExcel] on the same sheet.  Whenever
    [converter_03_07_2025.js] returns, [convert.js] returns too, with the
    same namespace, the same list of rows without a rule number, and row
    by row the same entry, a field that [converter_03_07_2025.js] leaves
    [undefined] being the empty text in [convert.js].  For an entry
    whose port is defined, [makeRule] of [converter_03_07_2025.js] builds
    the same fragment from either entry. *)
Theorem parseExcel_versions_agree rows r' :
  Converter0307.parseExcel rows = inr r' ->
  exists r,
    Convert.parseExcel rows = inr r /\
    namespace r = Converter0307.rNamespace r' /\
    missingNums r = Converter0307.rMissingNums r' /\
    Forall2 sameRow (entries r) (Converter0307.rEntries r') /\
    Forall2 (fun e e' =>
               Converter0307.rPort e' <> None ->
               Converter0307.makeRuleRaw e' = Converter0307.makeRule e)
            (entries r) (Converter0307.rEntries r').
Proof.
  intros H. apply parseExcel0307_sim in H.
  destruct H as (Hh & Hrows & Hns & Hall & Hm).
  assert (Hret : exists r, Convert.parseExcel rows = inr r).
  { unfold Convert.parseExcel. rewrite (parseExcel0307_header Hh).
    apply extractRows_returns. intros row Hin Hd.
    destruct (In_indexFrom 2 Hin) as [i Hi].
    apply rowField_key. apply (Hrows (i, row)).
    unfold dataRows. apply filter_In. now split. }
  destruct Hret as [r Hr]. exists r. split; [exact Hr|].
  pose proof Hr as Hr'. unfold Convert.parseExcel in Hr'.
  rewrite (parseExcel0307_header Hh) in Hr'.
  pose proof (namespace_extractRows Hr') as Hn. simpl in Hn.
  apply extractRows_lists in Hr'. simpl in Hr'. destruct Hr' as [He Hmm].
  fold (dataRows rows) in He, Hmm.
  split; [now rewrite Hn, Hns|]. split; [now rewrite Hmm, Hm|].
  rewrite He. split.
  - apply Forall2_map_l. eapply Forall2_impl; [|exact Hall].
    intros a b [Hs _]. exact Hs.
  - apply Forall2_map_l. eapply Forall2_impl; [|exact Hall].
    intros [i row] e' [Hs Hp] Hport. cbn [fst snd] in *.
    unfold Converter0307.makeRuleRaw. f_equal.
    destruct Hs as (H1 & H2 & H3 & H4 & H5 & H6).
    destruct (Convert.rowEntry i row) as [p s d dir po n].
    destruct e' as [p' s' d' dir' po' n']. simpl in *.
    unfold Converter0307.asEntry. simpl.
    destruct po' as [po'|]; [|congruence]. simpl in H5.
    unfold orEmpty in *. now subst.
Qed.

Lemma parseExcel_versions_agree_witness :
  let table :=
    [ [CString (lit "rules")];
      [CString (lit "namespace: prod")];
      [CNumber 1; CString (lit "TCP"); CString (lit "app:web");
       CString (lit " Ingress"); CString (lit "10.0.0.1"); CNumber 443];
      [CUndef; CString (lit "udp"); CUndef;
       CString (lit "egress"); CString (lit "dns.example"); CNumber 53] ] in
  exists r, Convert.parseExcel table = inr r /\
            namespace r = lit "prod" /\ missingNums r = [4].
Proof.
  intros table.
  destruct (Converter0307.parseExcel table) as [x|r'] eqn:E;
    [vm_compute in E; discriminate|].
  destruct (parseExcel_versions_agree E) as (r & Hr & Hn & Hm & _).
  exists r. split; [exact Hr|].
  vm_compute in E. inversion E; subst r'. split; assumption.
Defined.

(** X24: when [converter_03_07_2025.js] extracts a sheet.  It returns
    exactly when the cell of row 2 holds a colon and every row that is
    kept has a direction cell and a group key that names no property
    inherited from [Object.prototype]; a kept row whose direction cell is
    missing makes it throw, where [convert.js] files the row as egress. *)
Theorem parseExcel0307_returns rows :
  ((exists r', Converter0307.parseExcel rows = inr r') <->
   includes ch_colon (trim (cellText (headerCell rows))) = true /\
   forall ir, In ir (dataRows rows) ->
     Converter0307.rowField (snd ir) 3 <> None /\
     isProtoName (Converter0307.propertyKey
                    (Converter0307.rowField (snd ir) 2)) = false) /\
  (forall i row, In (i, row) (dataRows rows) ->
     Converter0307.rowField row 3 = None ->
     (exists x, Converter0307.parseExcel rows = inl x) /\
     isIngress (Convert.rowEntry i row) = false).
Proof.
  assert (Hiff : (exists r', Converter0307.parseExcel rows = inr r') <->
     includes ch_colon (trim (cellText (headerCell rows))) = true /\
     forall ir, In ir (dataRows rows) ->
       Converter0307.rowField (snd ir) 3 <> None /\
       isProtoName (Converter0307.propertyKey
                      (Converter0307.rowField (snd ir) 2)) = false).
  { split.
    - intros [r' H]. apply parseExcel0307_sim in H. tauto.
    - intros [Hh Hrows]. unfold Converter0307.parseExcel.
      fold (headerCell rows). rewrite Hh. cbn [negb].
      apply extractRows0307_returns. intros row Hin Hd.
      destruct (In_indexFrom 2 Hin) as [i Hi].
      apply (Hrows (i, row)). unfold dataRows. apply filter_In. now split. }
  split; [exact Hiff|].
  intros i row Hin Hnone. split.
  - destruct (Converter0307.parseExcel rows) as [x|r'] eqn:E; [now exists x|].
    exfalso. destruct Hiff as [Hto _]. destruct (Hto (ex_intro _ r' eq_refl)) as [_ Hrows].
    destruct (Hrows (i, row) Hin) as [Hd _]. now apply Hd.
  - unfold isIngress, Convert.rowEntry.
    assert (Hdir : trim (toLowerCase (cellText (rowCell row 3))) = []).
    { rewrite trim_toLowerCase, <- rowField_text, Hnone. reflexivity. }
    rewrite Hdir. reflexivity.
Qed.

Lemma parseExcel0307_returns_witness :
  let table :=
    [ [CString (lit "rules")];
      [CString (lit "namespace:prod")];
      [CNumber 1; CString (lit "tcp"); CString (lit "app:web")] ] in
  (exists x, Converter0307.parseExcel table = inl x) /\
  (exists r, Convert.parseExcel table = inr r /\ List.length (entries r) = 1%nat).
Proof.
  intros table. split.
  - destruct (parseExcel0307_returns table) as [_ H].
    apply (H 2 [CNumber 1; CString (lit "tcp"); CString (lit "app:web")]).
    + vm_compute. now left.
    + reflexivity.
  - eexists. split; [vm_compute; reflexivity | reflexivity].
Defined.

(** X25: a kept row without a port cell.  When
    [converter_03_07_2025.js] returns, the entry it builds for such a row
    has an [undefined] port, and [makeRule] turns it into one ports entry
    whose port is the text [undefined]; for the same row [convert.js]
    builds a fragment with an empty ports list. *)
Theorem undefined_port_0307 rows r' i row :
  Converter0307.parseExcel rows = inr r' ->
  In (i, row) (dataRows rows) ->
  Converter0307.rowField row 5 = None ->
  (exists e', In e' (Converter0307.rEntries r') /\
     Converter0307.rRowNum e' = i + 1 /\
     map portValue (toPorts (Converter0307.makeRuleRaw e'))
     = [lit "undefined"]) /\
  toPorts (Convert.makeRule (Convert.rowEntry i row)) = [].
Proof.
  intros H Hin Hnone. apply parseExcel0307_sim in H.
  destruct H as (_ & _ & _ & Hall & _).
  destruct (Forall2_In_l Hall Hin) as (e' & He' & Hs & Hp).
  cbn [fst snd] in Hs, Hp. rewrite Hnone in Hp.
  destruct Hs as (_ & _ & _ & _ & Hport & Hnum). split.
  - exists e'. split; [exact He'|]. split.
    + rewrite <- Hnum. apply rowNum_rowEntry.
    + unfold Converter0307.makeRuleRaw.
      rewrite toPorts_makeRule0307, map_portValue_portsArray.
      unfold Converter0307.asEntry. simpl. rewrite Hp. reflexivity.
  - rewrite toPorts_makeRule. rewrite Hport, Hp. reflexivity.
Qed.

Lemma undefined_port_0307_witness :
  let row := [CNumber 1; CString (lit "tcp"); CString (lit "app:web");
              CString (lit "egress"); CString (lit "app:db")] in
  let table := [ [CString (lit "rules")];
                 [CString (lit "namespace:prod")]; row ] in
  exists r' e', Converter0307.parseExcel table = inr r' /\
    In e' (Converter0307.rEntries r') /\
    map portValue (toPorts (Converter0307.makeRuleRaw e')) = [lit "undefined"].
Proof.
  intros row table.
  destruct (Converter0307.parseExcel table) as [x|r'] eqn:E;
    [vm_compute in E; discriminate|].
  assert (Hin : In (2, row) (dataRows table)) by (vm_compute; now left).
  destruct (undefined_port_0307 E Hin eq_refl)
    as ((e' & He' & _ & Hp) & _).
  exists r', e'. split; [reflexivity|]. split; assumption.
Defined.
